(** * Agent decision-and-replay loop: a shallow embedding

    The development follows the TypeScript sources of the browser
    automation platform:

    - the extension's background service worker (the orchestrator:
      [runAgent], [stopAgent]);
    - the content script's action module (the action executor:
      [executeAction], [typeText], [typeAtCursor]);
    - [backend/src/routes/extension.ts] (the deterministic decision source
      [get-next-action] with [replacePlaceholders], and the reply shapes of
      [ai-decision]).

    Strings are sequences of 8-bit characters ([string]); the characters
    the sources test for (braces, word characters, ASCII letters of the
    completion phrases) are all ASCII.  JavaScript objects used as maps are
    [gmap string _]; reading a property of a plain object also consults
    [Object.prototype], which is written out where the source reads a
    property under a computed key. *)

From Stdlib Require Import Ascii String ZArith Lia Bool.
From stdpp Require Import gmap strings list fin_maps pretty.
From Equations Require Import Equations.

Local Open Scope Z_scope.
Local Open Scope nat_scope.

(** ** JavaScript values *)

(** Numbers are IEEE doubles in the source.  The code only renders them
    ([toString]), tests them for truthiness ([x || d]) and writes integer
    literals, so the number type is an interface with those operations. *)
Class JsNumber (num : Type) := {
  num_toString : num → string;
  num_truthy : num → bool;
  num_of_Z : Z → num;
  num_toString_nonempty : ∀ n, num_toString n ≠ "";
}.

(** Integers rendered in decimal form an instance. *)
Lemma pretty_N_go_nonempty (x : N) (s : string) :
  s ≠ "" → pretty_N_go x s ≠ "".
Proof.
  revert s. induction (N.lt_wf_0 x) as [x _ IH]; intros s Hs.
  destruct (decide (x = 0%N)) as [->|Hx].
  - by rewrite pretty_N_go_0.
  - rewrite pretty_N_go_step by lia.
    apply IH; [apply N.div_lt; lia | discriminate].
Qed.

Lemma pretty_N_nonempty (x : N) : pretty x ≠ "".
Proof.
  unfold pretty, pretty_N. case_decide; [discriminate|].
  rewrite pretty_N_go_step by lia.
  apply pretty_N_go_nonempty. discriminate.
Qed.

Lemma pretty_Z_nonempty (z : Z) : pretty z ≠ "".
Proof.
  destruct z as [|p|p]; unfold pretty, pretty_Z; simpl.
  - discriminate.
  - apply pretty_N_nonempty.
  - discriminate.
Qed.

#[export] Instance Z_JsNumber : JsNumber Z := {|
  num_toString := pretty;
  num_truthy := λ z, negb (Z.eqb z 0);
  num_of_Z := λ z, z;
  num_toString_nonempty := pretty_Z_nonempty;
|}.

Inductive jsval {num : Type} : Type :=
  | JNull
  | JBool (b : bool)
  | JNum (n : num)
  | JStr (s : string)
  | JObject                    (* an object; rendered as [object Object] *)
  | JFunction (name : string). (* a built-in function *)
Arguments jsval : clear implicits.

(** A property read yields [option (jsval num)]: [None] is [undefined]. *)

(** The outcome of a call or of an awaited promise: a value, or a thrown
    [Error] with its message. *)
Inductive Result (A : Type) :=
  | Ok (a : A)
  | Throw (message : string).
Arguments Ok {A} a.
Arguments Throw {A} message.

Module Js.
Section Values.
Context {num : Type} `{JsNumber num}.

(** ToBoolean *)
Definition truthy (v : option (jsval num)) : bool :=
  match v with
  | None | Some JNull => false
  | Some (JBool b) => b
  | Some (JNum n) => num_truthy n
  | Some (JStr s) => negb (String.eqb s "")
  | Some JObject | Some (JFunction _) => true
  end.

(** ToString *)
Definition toString (v : option (jsval num)) : string :=
  match v with
  | None => "undefined"
  | Some JNull => "null"
  | Some (JBool true) => "true"
  | Some (JBool false) => "false"
  | Some (JNum n) => num_toString n
  | Some (JStr s) => s
  | Some JObject => "[object Object]"
  | Some (JFunction name) => "function " +:+ name +:+ "() { [native code] }"
  end.

(** [typeof v] *)
Definition typeof (v : option (jsval num)) : string :=
  match v with
  | None => "undefined"
  | Some JNull | Some JObject => "object"
  | Some (JBool _) => "boolean"
  | Some (JNum _) => "number"
  | Some (JStr _) => "string"
  | Some (JFunction _) => "function"
  end.

(** [a || b] *)
Definition or (a b : option (jsval num)) : option (jsval num) :=
  if truthy a then a else b.

(** The properties every plain object inherits from [Object.prototype]. *)
Definition objectPrototype (key : string) : option (jsval num) :=
  if bool_decide (key = "constructor") then Some (JFunction "Object")
  else if bool_decide (key = "__proto__") then Some JObject
  else if bool_decide (key ∈ ["hasOwnProperty"; "isPrototypeOf";
            "propertyIsEnumerable"; "toLocaleString"; "toString"; "valueOf";
            "__defineGetter__"; "__defineSetter__"; "__lookupGetter__";
            "__lookupSetter__"])
  then Some (JFunction key)
  else None.

(** [o[key]] on a plain object: own property first, then the prototype. *)
Definition getProp (o : gmap string (jsval num)) (key : string)
  : option (jsval num) :=
  match o !! key with
  | Some v => Some v
  | None => objectPrototype key
  end.

(** [o?.[key]] where [o] may be [null]. *)
Definition getPropOpt (o : option (gmap string (jsval num))) (key : string)
  : option (jsval num) :=
  match o with
  | Some m => getProp m key
  | None => None
  end.
End Values.
End Js.

(** ** Characters and strings *)

Module Str.
(** [\w] of a non-unicode regular expression: [A-Za-z0-9_]. *)
Definition isWordChar (c : ascii) : bool :=
  let n := nat_of_ascii c in
  ((48 <=? n) && (n <=? 57)) || ((65 <=? n) && (n <=? 90))
  || ((97 <=? n) && (n <=? 122)) || (n =? 95).

Definition lowerChar (c : ascii) : ascii :=
  let n := nat_of_ascii c in
  if (65 <=? n) && (n <=? 90) then ascii_of_nat (n + 32) else c.

(** [s.toLowerCase()] *)
Fixpoint toLowerCase (s : string) : string :=
  match s with
  | EmptyString => EmptyString
  | String c s' => String (lowerChar c) (toLowerCase s')
  end.

(** [s.startsWith(p)] *)
Definition startsWith (s p : string) : bool := String.prefix p s.

(** [s.includes(p)] *)
Fixpoint includes (s p : string) : bool :=
  String.prefix p s ||
  match s with
  | EmptyString => false
  | String _ s' => includes s' p
  end.

(** [\s] restricted to ASCII, as used by [trim] and the greeting pattern. *)
Definition isSpace (c : ascii) : bool := Ascii.is_space c.

Fixpoint trimStart (s : string) : string :=
  match s with
  | String c s' => if isSpace c then trimStart s' else s
  | EmptyString => EmptyString
  end.

(** [s.trim()] *)
Definition trim (s : string) : string :=
  String.rev (trimStart (String.rev (trimStart s))).

Fixpoint all (p : ascii → bool) (s : string) : bool :=
  match s with
  | EmptyString => true
  | String c s' => p c && all p s'
  end.

(** [s.substring(0, n)] *)
Fixpoint take (n : nat) (s : string) : string :=
  match n, s with
  | S n', String c s' => String c (take n' s')
  | _, _ => EmptyString
  end.

(** [s.substring(n)] *)
Fixpoint drop (n : nat) (s : string) : string :=
  match n, s with
  | S n', String _ s' => drop n' s'
  | _, _ => s
  end.

Lemma app_nil_l (b : string) : "" +:+ b = b.
Proof. reflexivity. Qed.

Lemma app_cons (c : ascii) (a b : string) :
  String c a +:+ b = String c (a +:+ b).
Proof. reflexivity. Qed.

Lemma app_assoc (a b c : string) : (a +:+ b) +:+ c = a +:+ (b +:+ c).
Proof.
  induction a as [|x a IH]; [done|]. by rewrite !app_cons, IH.
Qed.

Lemma app_nil_r (a : string) : a +:+ "" = a.
Proof.
  induction a as [|x a IH]; [done|]. by rewrite app_cons, IH.
Qed.

Lemma length_app (a b : string) :
  String.length (a +:+ b) = String.length a + String.length b.
Proof.
  induction a as [|x a IH]; [done|]. rewrite app_cons. simpl. by rewrite IH.
Qed.
End Str.

(** ** Placeholder substitution ([replacePlaceholders], extension.ts) *)

Module Substitution.

#[local] Arguments Ascii.eqb : simpl never.

(** *** The regular expression [/{{(\w+)}}/g] *)

(** [stripPrefix p s] is [Some r] exactly when [s = p +:+ r]. *)
Fixpoint stripPrefix (p s : string) : option string :=
  match p with
  | EmptyString => Some s
  | String a p' =>
      match s with
      | String b s' => if Ascii.eqb a b then stripPrefix p' s' else None
      | EmptyString => None
      end
  end.

(** The longest run of word characters at the head of [s], and the rest:
    the greedy [\w+]. *)
Fixpoint wordRun (s : string) : string * string :=
  match s with
  | String c s' =>
      if Str.isWordChar c
      then let '(w, r) := wordRun s' in (String c w, r)
      else (EmptyString, s)
  | EmptyString => (EmptyString, EmptyString)
  end.

(** One attempt of the pattern at the head of [s]: the captured
    identifier and the text after the closing braces.  After the greedy
    run, the next character is not a word character, so giving back
    characters of the run can never make ["}}"] match: the greedy attempt
    is the only one. *)
Definition matchToken (s : string) : option (string * string) :=
  match stripPrefix "{{" s with
  | Some s1 =>
      let '(w, r) := wordRun s1 in
      if String.eqb w "" then None
      else match stripPrefix "}}" r with
           | Some rest => Some (w, rest)
           | None => None
           end
  | None => None
  end.

Definition token (w : string) : string := "{{" +:+ w +:+ "}}".

Lemma stripPrefix_nil (s : string) : stripPrefix "" s = Some s.
Proof. done. Qed.

Lemma stripPrefix_cons (a b : ascii) (p s : string) :
  stripPrefix (String a p) (String b s)
  = if Ascii.eqb a b then stripPrefix p s else None.
Proof. done. Qed.

Lemma stripPrefix_Some (p s r : string) :
  stripPrefix p s = Some r → s = p +:+ r.
Proof.
  revert s. induction p as [|a p IH]; intros s E; simpl in E.
  - by inversion E.
  - destruct s as [|b s]; [done|].
    destruct (Ascii.eqb_spec a b) as [->|]; [|done].
    rewrite Str.app_cons. f_equal. by apply IH.
Qed.

Lemma stripPrefix_app (p r : string) : stripPrefix p (p +:+ r) = Some r.
Proof.
  induction p as [|a p IH]; [done|].
  rewrite Str.app_cons. simpl. by rewrite Ascii.eqb_refl.
Qed.

#[local] Arguments stripPrefix : simpl never.

Lemma wordRun_app (s : string) :
  s = (wordRun s).1 +:+ (wordRun s).2.
Proof.
  induction s as [|c s IH]; [done|]. simpl.
  destruct (Str.isWordChar c); [|done].
  destruct (wordRun s) as [w r]. simpl in *.
  by rewrite Str.app_cons, <- IH.
Qed.

Lemma wordRun_all (s : string) : Str.all Str.isWordChar (wordRun s).1 = true.
Proof.
  induction s as [|c s IH]; [done|]. simpl.
  destruct (Str.isWordChar c) eqn:Hc; [|done].
  destruct (wordRun s) as [w r]. simpl in *. by rewrite Hc, IH.
Qed.

Lemma matchToken_Some (s w rest : string) :
  matchToken s = Some (w, rest) →
  s = token w +:+ rest ∧ w ≠ "" ∧ Str.all Str.isWordChar w = true.
Proof.
  unfold matchToken, token. intros E.
  destruct (stripPrefix "{{" s) as [s1|] eqn:E1; [|done].
  apply stripPrefix_Some in E1.
  pose proof (wordRun_app s1) as Happ. pose proof (wordRun_all s1) as Hall.
  destruct (wordRun s1) as [w' r]. cbn [fst snd] in *.
  destruct (String.eqb_spec w' "") as [|Hne]; [done|].
  destruct (stripPrefix "}}" r) as [rest'|] eqn:E2; [|done].
  apply stripPrefix_Some in E2. inversion E; subst.
  split_and!; [|done|done].
  by rewrite !Str.app_assoc.
Qed.

Lemma matchToken_shorter (s w rest : string) :
  matchToken s = Some (w, rest) → String.length rest < String.length s.
Proof.
  intros (-> & _ & _)%matchToken_Some. unfold token.
  rewrite !Str.length_app. simpl. lia.
Qed.

(** Case analysis that remembers which case was taken. *)
Definition inspect {A : Type} (x : A) : { y : A | x = y } := exist _ x eq_refl.

(** [s.replace(/{{(\w+)}}/g, f)]: scan from the left; where the pattern
    matches, emit [f match identifier] and resume after the match; where
    it does not, copy one character.  The replacement function's result
    is inserted as is (no [$]-patterns apply to a function replacer). *)
Equations? replaceAll (f : string → string → string) (s : string) : string
  by wf (String.length s) lt :=
  replaceAll f EmptyString := EmptyString;
  replaceAll f (String c s') with inspect (matchToken (String c s')) := {
    | exist _ (Some (w, rest)) Hm := f (token w) w +:+ replaceAll f rest;
    | exist _ None Hm := String c (replaceAll f s') }.
Proof.
  apply matchToken_shorter in Hm. simpl in Hm. lia.
Qed.

(** The two defining equations in one, without the proof argument. *)
Lemma replaceAll_cons (f : string → string → string) (c : ascii) (s' : string) :
  replaceAll f (String c s')
  = match matchToken (String c s') with
    | Some (w, rest) => f (token w) w +:+ replaceAll f rest
    | None => String c (replaceAll f s')
    end.
Proof.
  rewrite replaceAll_equation_2.
  assert (G : ∀ x : { y | matchToken (String c s') = y },
             replaceAll_unfold_clause_2 f c s' x
             = match proj1_sig x with
               | Some (w, rest) => f (token w) w +:+ replaceAll f rest
               | None => String c (replaceAll f s')
               end).
  { intros [[[w rest]|] e]; reflexivity. }
  apply G.
Qed.

(** *** How the scan treats a token inside a larger text *)

Lemma brace_not_word : Str.isWordChar "{" = false ∧ Str.isWordChar "}" = false.
Proof. done. Qed.

(** The run of word characters of [w +:+ r] when [r] does not start with
    a word character. *)
Lemma wordRun_word_app (w r : string) :
  Str.all Str.isWordChar w = true →
  (wordRun r).1 = "" →
  wordRun (w +:+ r) = (w, r).
Proof.
  intros Hw Hr. induction w as [|c w IH].
  - rewrite Str.app_nil_l.
    pose proof (wordRun_app r) as E. rewrite Hr, Str.app_nil_l in E.
    destruct (wordRun r) as [a b]. simpl in *. by subst.
  - simpl in Hw. apply andb_true_iff in Hw as [Hc Hw].
    rewrite Str.app_cons. simpl. rewrite Hc, (IH Hw). done.
Qed.

(** A token at the head of the text is matched, whatever follows. *)
Lemma matchToken_token (w post : string) :
  w ≠ "" → Str.all Str.isWordChar w = true →
  matchToken (token w +:+ post) = Some (w, post).
Proof.
  intros Hne Hw. unfold matchToken, token.
  rewrite !Str.app_assoc, stripPrefix_app.
  rewrite (wordRun_word_app w ("}}" +:+ post) Hw) by done.
  destruct (String.eqb_spec w "") as [|_]; [done|].
  by rewrite stripPrefix_app.
Qed.

(** Text [x] that starts with an opening brace does not change what the
    run of word characters before it is. *)
Lemma wordRun_app_brace (p x : string) :
  wordRun (p +:+ String "{" x) = ((wordRun p).1, (wordRun p).2 +:+ String "{" x).
Proof.
  induction p as [|c p IH]; [done|].
  rewrite Str.app_cons. simpl.
  destruct (Str.isWordChar c); [|done].
  rewrite IH. by destruct (wordRun p).
Qed.

Lemma stripClose_app_brace (r x : string) :
  stripPrefix "}}" (r +:+ String "{" x)
  = (λ rest, rest +:+ String "{" x) <$> stripPrefix "}}" r.
Proof.
  destruct r as [|a [|b r]].
  - done.
  - rewrite Str.app_cons, Str.app_nil_l, !stripPrefix_cons.
    by destruct (Ascii.eqb "}" a).
  - rewrite !Str.app_cons, !stripPrefix_cons, !stripPrefix_nil.
    destruct (Ascii.eqb "}" a); [|done]. by destruct (Ascii.eqb "}" b).
Qed.

(** An attempt that starts before a token cannot end inside it: the
    attempt on [pre +:+ token w +:+ post] is the attempt on [pre],
    with the remaining text carried along. *)
Lemma matchToken_before_token (pre w post : string) :
  pre ≠ "" →
  matchToken (pre +:+ token w +:+ post)
  = (λ '(w', rest), (w', rest +:+ token w +:+ post)) <$> matchToken pre.
Proof.
  intros Hpre. unfold token at 1. rewrite !Str.app_assoc.
  change ("{{" +:+ w +:+ "}}" +:+ post)
    with (String "{" (String "{" (w +:+ "}}" +:+ post))).
  set (y := w +:+ "}}" +:+ post).
  assert (Htok : token w +:+ post = String "{" (String "{" y)).
  { unfold token, y. by rewrite !Str.app_assoc. }
  rewrite Htok.
  destruct pre as [|a [|b pre]]; [done| |].
  - (* a single character before the token *)
    unfold matchToken.
    rewrite Str.app_cons, Str.app_nil_l, !stripPrefix_cons, !stripPrefix_nil.
    destruct (Ascii.eqb "{" a); done.
  - unfold matchToken.
    rewrite !Str.app_cons, !stripPrefix_cons, !stripPrefix_nil.
    destruct (Ascii.eqb "{" a); [|done].
    destruct (Ascii.eqb "{" b); [|done].
    rewrite wordRun_app_brace.
    destruct (wordRun pre) as [w' r]. cbn [fst snd].
    destruct (String.eqb w' ""); [done|].
    rewrite stripClose_app_brace.
    by destruct (stripPrefix "}}" r).
Qed.

(** Every token occurrence is replaced by the replacement function's
    result for it, and the texts before and after it are rewritten
    independently. *)
Lemma replaceAll_token (f : string → string → string) (pre w post : string) :
  w ≠ "" → Str.all Str.isWordChar w = true →
  replaceAll f (pre +:+ token w +:+ post)
  = replaceAll f pre +:+ f (token w) w +:+ replaceAll f post.
Proof.
  intros Hne Hw.
  remember (String.length pre) as n eqn:Hn.
  revert pre Hn. induction (lt_wf n) as [n _ IH]. intros pre ->.
  destruct pre as [|c pre].
  - rewrite !Str.app_nil_l. simp replaceAll. rewrite ?Str.app_nil_l.
    pose proof (matchToken_token w post Hne Hw) as Hm.
    destruct (token w +:+ post) as [|d rest] eqn:Ht.
    { unfold token in Ht. discriminate. }
    by rewrite replaceAll_cons, Hm.
  - pose proof (matchToken_before_token (String c pre) w post) as Hm.
    specialize (Hm ltac:(done)).
    rewrite Str.app_cons in *. rewrite !replaceAll_cons, Hm.
    destruct (matchToken (String c pre)) as [[w' rest]|] eqn:Hp; simpl.
    + rewrite (IH (String.length rest)); [|by apply matchToken_shorter in Hp|done].
      by rewrite Str.app_assoc.
    + rewrite (IH (String.length pre)); [done|simpl; lia|done].
Qed.

(** *** The replacement function of [replacePlaceholders] *)

Section Listing.
Context {num : Type} `{JsNumber num}.

(** The listing row read by the route.  Text columns are [string | null],
    numeric columns [number | null]; [listingData] is the uploaded row
    as stored: [null] or an object from column names to cells. *)
Record Listing := {
  address : option string;
  city : option string;
  state : option string;
  zipCode : option string;
  price : option num;
  bedrooms : option num;
  bathrooms : option num;
  squareFeet : option num;
  description : option string;
  mlsNumber : option string;
  listingData : option (gmap string (jsval num));
}.

Definition text (v : option string) : option (jsval num) := JStr <$> v.

(** [n?.toString()] *)
Definition rendered (v : option num) : option (jsval num) :=
  (λ n, JStr (num_toString n)) <$> v.

(** The object literal [fieldMap]: its own properties, in source order.
    A [None] value is a property holding [null] or [undefined]. *)
Definition fieldMapOwn (listing : Listing)
  : list (string * option (jsval num)) :=
  [ ("address", text (address listing));
    ("city", text (city listing));
    ("state", text (state listing));
    ("zipcode", text (zipCode listing));
    ("zip", text (zipCode listing));
    ("price", rendered (price listing));
    ("bedrooms", rendered (bedrooms listing));
    ("bathrooms", rendered (bathrooms listing));
    ("squarefeet", rendered (squareFeet listing));
    ("description", text (description listing));
    ("mlsnumber", text (mlsNumber listing)) ].

(** The names of the canonical fields. *)
Definition canonicalFields : list string :=
  [ "address"; "city"; "state"; "zipcode"; "zip"; "price"; "bedrooms";
    "bathrooms"; "squarefeet"; "description"; "mlsnumber" ].

Fixpoint assoc {V : Type} (key : string) (l : list (string * V)) : option V :=
  match l with
  | [] => None
  | (k, v) :: l' => if String.eqb k key then Some v else assoc key l'
  end.

(** [fieldMap[field]]: [fieldMap] is a plain object, so a name that is
    not one of its own properties is looked up in [Object.prototype]. *)
Definition fieldMapGet (listing : Listing) (field : string)
  : option (jsval num) :=
  match assoc field (fieldMapOwn listing) with
  | Some v => v
  | None => Js.objectPrototype field
  end.

(** The callback [(match, fieldName) => ...] followed by the conversion
    of its result to a string that [String.prototype.replace] applies:
    [fieldMap[field] || listing.listingData?.[fieldName] || match]. *)
Definition resolveToken (listing : Listing) (matched fieldName : string)
  : string :=
  let field := Str.toLowerCase fieldName in
  Js.toString
    (Js.or (Js.or (fieldMapGet listing field)
                  (Js.getPropOpt (listingData listing) fieldName))
           (Some (JStr matched))).

(** [replacePlaceholders]: values that are not strings are returned
    unchanged. *)
Definition replacePlaceholders (listing : Listing)
  (value : option (jsval num)) : option (jsval num) :=
  match value with
  | Some (JStr s) => Some (JStr (replaceAll (resolveToken listing) s))
  | _ => value
  end.
End Listing.
Arguments Listing : clear implicits.

End Substitution.

(** ** The deterministic decision source ([POST /get-next-action]) *)

Module Replay.
Import Substitution.

Section Route.
Context {num : Type} `{JsNumber num}.

(** An action is a JSON object. *)
Abbreviation Action := (gmap string (jsval num)).

(** The workflow row: [recordedActions] is [any[] | null]. *)
Record Workflow := {
  status : string;
  recordedActions : option (list Action);
}.

Record NextAction := {
  action : Action;
  step : Z;
  totalSteps : nat;
}.

(** What the route sends: an error envelope with its HTTP status, or
    one of the two success payloads, [{done: true, message}] and
    [{action, step, totalSteps, done: false}]. *)
Inductive Reply :=
  | ReplyError (httpStatus : nat) (error : string)
  | ReplyDone (message : string)
  | ReplyNext (data : NextAction).

Definition done (r : Reply) : option bool :=
  match r with
  | ReplyError _ _ => None
  | ReplyDone _ => Some true
  | ReplyNext _ => Some false
  end.

Definition replyAction (r : Reply) : option Action :=
  match r with
  | ReplyNext d => Some (action d)
  | _ => None
  end.

(** An identifier of the request body is truthy when present and not 0. *)
Definition truthyId (id : option Z) : bool :=
  match id with
  | Some z => negb (Z.eqb z 0)
  | None => false
  end.

(** A property of the serialized result: a property whose value is
    [undefined] is not written by [res.json]. *)
Definition setField (key : string) (v : option (jsval num)) (o : Action)
  : Action :=
  match v with
  | Some x => <[key := x]> o
  | None => delete key o
  end.

(** [{...nextAction, value: replacePlaceholders(nextAction.value),
      text: replacePlaceholders(nextAction.text)}] *)
Definition processAction (listing : Listing num) (nextAction : Action)
  : Action :=
  setField "text" (replacePlaceholders listing (nextAction !! "text"))
    (setField "value" (replacePlaceholders listing (nextAction !! "value"))
       nextAction).

(** [actions[currentStep]] for an integer or missing [currentStep]. *)
Definition entryAt (actions : list Action) (currentStep : option Z)
  : option Action :=
  match currentStep with
  | Some z => if (0 <=? z)%Z then actions !! Z.to_nat z else None
  | None => None
  end.

(** [currentStep >= actions.length]; a comparison with [undefined] is
    false. *)
Definition atEnd (actions : list Action) (currentStep : option Z) : bool :=
  match currentStep with
  | Some z => (Z.of_nat (length actions) <=? z)%Z
  | None => false
  end.

(** The route handler.  The two [findFirst] queries, already restricted
    to the authenticated user, are the parameters [findWorkflow] and
    [findListing]. *)
Definition getNextAction
  (findWorkflow : Z → option Workflow)
  (findListing : Z → option (Listing num))
  (workflowId listingId currentStep : option Z) : Reply :=
  match workflowId, listingId with
  | Some wid, Some lid =>
    if negb (truthyId workflowId) || negb (truthyId listingId)
    then ReplyError 400 "workflowId and listingId are required"
    else
    match findWorkflow wid with
    | None => ReplyError 404 "Workflow not found"
    | Some workflow =>
      if negb (String.eqb (status workflow) "ready")
         && negb (String.eqb (status workflow) "active")
      then ReplyError 400 "Workflow is not ready for deterministic playback"
      else
      match findListing lid with
      | None => ReplyError 404 "Listing not found"
      | Some listing =>
        let actions := default [] (recordedActions workflow) in
        if atEnd actions currentStep
        then ReplyDone "Workflow execution complete"
        else
          match entryAt actions currentStep with
          | Some nextAction =>
              ReplyNext {| action := processAction listing nextAction;
                           step := default 0%Z currentStep;
                           totalSteps := length actions |}
          | None =>
              (* [nextAction] is [undefined]: reading [.value] throws,
                 and the handler's [catch] answers 500 *)
              ReplyError 500
                "Cannot read properties of undefined (reading 'value')"
          end
      end
    end
  | _, _ => ReplyError 400 "workflowId and listingId are required"
  end.
End Route.
Arguments Workflow : clear implicits.
Arguments NextAction : clear implicits.
Arguments Reply : clear implicits.
End Replay.

(** ** The action executor ([executeAction], content script) *)

Module Executor.

(** *** The page *)

Inductive Tag :=
  | InputTag (inputType : string)   (* HTMLInputElement and its [type] *)
  | TextAreaTag                     (* HTMLTextAreaElement *)
  | OtherTag.                       (* any other HTMLElement *)

Record Element := {
  tag : Tag;
  value : string;
  selectionStart : option nat;
  selectionEnd : option nat;
  isContentEditable : bool;
  textContent : option string;
}.

(** What [document.elementFromPoint(x, y)] comes to: a [TypeError] when an
    argument does not convert to a finite number, otherwise the element
    under the point, if there is one. *)
Inductive Hit :=
  | NotFinite
  | Under (el : option nat).

Section Page.
Context {num : Type} `{JsNumber num}.

Abbreviation Action := (gmap string (jsval num)).

(** What the executor does to the page, in order.  Every write to the
    page or event dispatched on it leaves an entry here or changes an
    element, so a page that is equal before and after was not touched. *)
Inductive DomOp :=
  | ScrollIntoView (el : nat)
  | Focus (el : nat)
  | Click (el : nat)
  | DispatchEvent (el : nat) (event : string)
  | DispatchMouse (el : option nat) (event : string) (x y : option (jsval num))
  | DispatchKey (el : option nat) (event key : string)
  | InsertText (c : string)                  (* execCommand('insertText') *)
  | ScrollTo (x y : option (jsval num))
  | SetLocation (url : string)
  | Wait (ms : option (jsval num)).

Record Dom := {
  elements : gmap nat Element;
  query : gmap string nat;        (* document.querySelector *)
  clickables : list nat;          (* querySelectorAll('a, button, ...') *)
  activeElement : option nat;
  validUrl : string → bool;       (* parses as a URL against the page's address *)
  ops : list DomOp;
}.

(** Page-changing computations that may throw; what was done before a
    throw stays done. *)
Definition Exec (A : Type) : Type := Dom → Result A * Dom.

Definition ret {A} (a : A) : Exec A := λ d, (Ok a, d).
Definition throw {A} (message : string) : Exec A := λ d, (Throw message, d).
Definition bind {A B} (m : Exec A) (k : A → Exec B) : Exec B :=
  λ d, match m d with
       | (Ok a, d') => k a d'
       | (Throw e, d') => (Throw e, d')
       end.

#[export] Instance Exec_ret : MRet Exec := @ret.
#[export] Instance Exec_bind : MBind Exec := λ A B k m, bind m k.

Definition emit (op : DomOp) : Exec unit :=
  λ d, (Ok tt, {| elements := elements d; query := query d;
                  clickables := clickables d;
                  activeElement := activeElement d;
                  validUrl := validUrl d;
                  ops := ops d ++ [op] |}).

Definition setActive (el : nat) : Exec unit :=
  λ d, (Ok tt, {| elements := elements d; query := query d;
                  clickables := clickables d;
                  activeElement := Some el;
                  validUrl := validUrl d;
                  ops := ops d |}).

Definition updateElement (el : nat) (f : Element → Element) : Exec unit :=
  λ d, (Ok tt, {| elements := alter f el (elements d); query := query d;
                  clickables := clickables d;
                  activeElement := activeElement d;
                  validUrl := validUrl d;
                  ops := ops d |}).

Definition getElement (el : nat) : Exec (option Element) :=
  λ d, (Ok (elements d !! el), d).

(** [document.querySelector(selector)]; the argument is converted to a
    string. *)
Definition querySelector (selector : option (jsval num)) : Exec (option nat) :=
  λ d, (Ok (query d !! Js.toString selector), d).

Definition wait (ms : Z) : Exec unit := emit (Wait (Some (JNum (num_of_Z ms)))).

Definition setValue (v : string) (e : Element) : Element :=
  {| tag := tag e; value := v; selectionStart := selectionStart e;
     selectionEnd := selectionEnd e;
     isContentEditable := isContentEditable e;
     textContent := textContent e |}.

Definition setSelection (pos : nat) (e : Element) : Element :=
  {| tag := tag e; value := value e; selectionStart := Some pos;
     selectionEnd := Some pos;
     isContentEditable := isContentEditable e;
     textContent := textContent e |}.

Definition setSelectionEnd (pos : nat) (e : Element) : Element :=
  {| tag := tag e; value := value e; selectionStart := selectionStart e;
     selectionEnd := Some pos;
     isContentEditable := isContentEditable e;
     textContent := textContent e |}.

Definition isText (v : option (jsval num)) : option string :=
  match v with
  | Some (JStr s) => Some s
  | _ => None
  end.

Definition invalidText (text : option (jsval num)) : string :=
  "Invalid text value: expected string, got " +:+ Js.typeof text.

(** *** [typeText] *)

(** The loop [for (let char of text)]. *)
Fixpoint typeChars (el : nat) (text : string) : Exec unit :=
  match text with
  | EmptyString => ret tt
  | String c rest =>
      updateElement el (λ e, setValue (value e +:+ String c "") e) ;;
      emit (DispatchEvent el "input") ;;
      wait 50 ;;
      typeChars el rest
  end.

Definition typeText (selector text : option (jsval num)) : Exec unit :=
  element ← querySelector selector;
  match element with
  | None => throw ("Element not found: " +:+ Js.toString selector)
  | Some el =>
      match isText text with
      | None => throw (invalidText text)
      | Some s =>
          emit (ScrollIntoView el) ;;
          wait 300 ;;
          emit (Focus el) ;; setActive el ;;
          updateElement el (setValue "") ;;
          typeChars el s ;;
          emit (DispatchEvent el "change")
      end
  end.

(** *** [typeAtCursor] *)

(** [pos || fallback] for a selection offset: [null] and [0] are falsy. *)
Definition offsetOr (pos : option nat) (fallback : nat) : nat :=
  match pos with
  | Some (S n) => S n
  | _ => fallback
  end.

(** The keyboard events sent to an element that is not a form control,
    one character at a time. *)
Fixpoint keyChars (el : nat) (editable : bool) (text : string) : Exec unit :=
  match text with
  | EmptyString => ret tt
  | String c rest =>
      emit (DispatchKey (Some el) "keydown" (String c "")) ;;
      emit (DispatchKey (Some el) "keypress" (String c "")) ;;
      (if editable then emit (InsertText (String c "")) else ret tt) ;;
      emit (DispatchKey (Some el) "keyup" (String c "")) ;;
      wait 50 ;;
      keyChars el editable rest
  end.

(** The message of the [InvalidStateError] thrown when a selection offset
    of an input is set whose type has no selection. *)
Definition noSelection (property inputType : string) : string :=
  "Failed to set the '" +:+ property
  +:+ "' property on 'HTMLInputElement': The input element's type ('"
  +:+ inputType +:+ "') does not support selection.".

(** [element.selectionStart = element.selectionEnd = pos] on the element
    that was read as [e].  The assignment on the right, to [selectionEnd],
    is made first.  An input whose type has no selection (email, number,
    checkbox, ...) reads [null] for an offset, and setting that offset
    throws; a textarea always has a selection. *)
Definition assignSelection (el : nat) (e : Element) (pos : nat) : Exec unit :=
  match tag e, selectionEnd e, selectionStart e with
  | InputTag inputType, None, _ => throw (noSelection "selectionEnd" inputType)
  | InputTag inputType, Some _, None =>
      updateElement el (setSelectionEnd pos) ;;
      throw (noSelection "selectionStart" inputType)
  | _, _, _ => updateElement el (setSelection pos)
  end.

Definition typeAtCursor (text : option (jsval num)) : Exec unit :=
  match isText text with
  | None => throw (invalidText text)
  | Some s =>
      λ d,
      match activeElement d with
      | None => throw "No element is focused for typing" d
      | Some el =>
          match elements d !! el with
          | None => throw "No element is focused for typing" d
          | Some e =>
              match tag e with
              | InputTag _ | TextAreaTag =>
                  let currentValue := value e in
                  let cursorPos :=
                    offsetOr (selectionStart e) (String.length currentValue) in
                  let v := Str.take cursorPos currentValue +:+ s
                           +:+ Str.drop (offsetOr (selectionEnd e) cursorPos)
                                 currentValue in
                  (updateElement el (setValue v) ;;
                   assignSelection el e (cursorPos + String.length s) ;;
                   emit (DispatchEvent el "input") ;;
                   emit (DispatchEvent el "change")) d
              | OtherTag => keyChars el (isContentEditable e) s d
              end
          end
      end
  end.

(** *** The other primitives *)

Definition clickElement (selector x y : option (jsval num)) : Exec unit :=
  element ← querySelector selector;
  match element with
  | None => throw ("Element not found: " +:+ Js.toString selector)
  | Some el =>
      match x, y with
      | Some _, Some _ =>
          (* the click point is the element's corner offset by (x, y) *)
          emit (DispatchMouse (Some el) "click" x y)
      | _, _ =>
          emit (ScrollIntoView el) ;; wait 300 ;; emit (Click el)
      end
  end.

Definition scrollPage (x y : option (jsval num)) : Exec unit :=
  emit (ScrollTo x y) ;; wait 500.

(** The message of the [SyntaxError] thrown by the setter of
    [location.href] for a string that does not parse as a URL. *)
Definition invalidUrl (url : string) : string :=
  "Failed to set the 'href' property on 'Location': '" +:+ url
  +:+ "' is not a valid URL.".

(** [window.location.href = url]: the value is converted to a string and
    parsed against the address of the page; the navigation starts only if
    it parses. *)
Definition navigate (url : option (jsval num)) : Exec unit :=
  λ d,
  if validUrl d (Js.toString url)
  then emit (SetLocation (Js.toString url)) d
  else throw (invalidUrl (Js.toString url)) d.

Definition uploadFile (selector : option (jsval num)) : Exec unit :=
  input ← querySelector selector;
  match input with
  | None => throw ("File input not found: " +:+ Js.toString selector)
  | Some i =>
      e ← getElement i;
      match tag <$> e with
      | Some (InputTag inputType) =>
          if String.eqb inputType "file"
          then emit (ScrollIntoView i) ;; wait 500 ;; emit (Click i)
          else throw ("File input not found: " +:+ Js.toString selector)
      | _ => throw ("File input not found: " +:+ Js.toString selector)
      end
  end.

(** [elementFromPoint] converts its arguments to numbers and throws a
    [TypeError] unless both are finite.  What a value converts to and
    which element lies under a point depend on the number type and on the
    layout, which the page model does not carry: they are the parameter
    [hitTest]. *)
Context (hitTest : option (jsval num) → option (jsval num) → Hit).

(** The values that convert to [NaN] whatever the number type is:
    [undefined], and objects and functions, whose conversion goes through
    the string [[object Object]] or the source text. *)
Definition notANumber (v : option (jsval num)) : bool :=
  match v with
  | None | Some JObject | Some (JFunction _) => true
  | _ => false
  end.

Definition nonFinite : string :=
  "Failed to execute 'elementFromPoint' on 'Document': "
  +:+ "The provided double value is non-finite.".

Definition elementFromPoint (x y : option (jsval num)) : Exec (option nat) :=
  if notANumber x || notANumber y then throw nonFinite
  else match hitTest x y with
       | NotFinite => throw nonFinite
       | Under el => ret el
       end.

Definition clickAtCoordinates (x y : option (jsval num)) : Exec unit :=
  element ← elementFromPoint x y;
  match element with
  | None =>
      throw ("No element found at coordinates: " +:+ Js.toString x
             +:+ ", " +:+ Js.toString y)
  | Some el =>
      emit (DispatchMouse (Some el) "mousedown" x y) ;; wait 50 ;;
      emit (DispatchMouse (Some el) "mouseup" x y) ;; wait 50 ;;
      emit (DispatchMouse (Some el) "click" x y)
  end.

Definition mouseMove (x y : option (jsval num)) : Exec unit :=
  element ← elementFromPoint x y;
  match element with
  | Some el => emit (DispatchMouse (Some el) "mousemove" x y)
  | None => ret tt
  end.

(** The object literal [keyMap] of [pressKey]. *)
Definition keyMap : list (string * string) :=
  [ ("enter", "Enter"); ("tab", "Tab"); ("escape", "Escape");
    ("backspace", "Backspace"); ("delete", "Delete"); ("space", " ");
    ("return", "Enter") ].

Definition keyMapGet (k : string) : option (jsval num) :=
  match Substitution.assoc k keyMap with
  | Some v => Some (JStr v)
  | None => Js.objectPrototype k
  end.

(** [pressKey]; the target is [document.activeElement || document.body]
    ([None] stands for the body). *)
Definition pressKey (key : option (jsval num)) : Exec unit :=
  match key with
  | Some (JStr k) =>
      let mappedKey :=
        Js.toString (Js.or (keyMapGet (Str.toLowerCase k)) key) in
      λ d,
      (emit (DispatchKey (activeElement d) "keydown" mappedKey) ;;
       wait 50 ;;
       emit (DispatchKey (activeElement d) "keyup" mappedKey)) d
  | _ => throw "key.toLowerCase is not a function"
  end.

(** The loop of [clickByText] over the clickable elements, in document
    order; the first whose trimmed text contains [text], compared in
    lower case, is clicked. *)
Fixpoint clickFirstMatching (text : string) (candidates : list nat)
  : Exec bool :=
  match candidates with
  | [] => ret false
  | el :: rest =>
      e ← getElement el;
      let elementText :=
        Str.trim (default "" (e ≫= textContent)) in
      if Str.includes (Str.toLowerCase elementText) (Str.toLowerCase text)
      then emit (ScrollIntoView el) ;; wait 300 ;; emit (Click el) ;; ret true
      else clickFirstMatching text rest
  end.

Definition quote : string := String (ascii_of_nat 34) EmptyString.

Definition noClickable (text : string) : string :=
  "No clickable element found containing text: " +:+ quote +:+ text +:+ quote.

Definition clickByText (text : option (jsval num)) : Exec unit :=
  λ d,
  match clickables d, text with
  | [], _ => throw (noClickable (Js.toString text)) d
  | _ :: _, Some (JStr s) =>
      (found ← clickFirstMatching s (clickables d);
       if found : bool then ret tt else throw (noClickable s)) d
  | _ :: _, _ => throw "text.toLowerCase is not a function" d
  end.

(** *** [executeAction] *)

Definition numberOr (v : option (jsval num)) (d : Z) : option (jsval num) :=
  Js.or v (Some (JNum (num_of_Z d))).

Definition executeAction (action : Action) : Exec unit :=
  let field := λ key : string, action !! key in
  let unknown : Exec unit :=
    throw ("Unknown action: " +:+ Js.toString (field "action")) in
  match field "action" with
  | Some (JStr kind) =>
      let kindIs := String.eqb kind in
      if kindIs "click" then
        clickElement (field "selector") (field "x") (field "y")
      else if kindIs "type" then
        typeText (field "selector")
          (Js.or (Js.or (field "text") (field "value")) (Some (JStr "")))
      else if kindIs "scroll" then
        scrollPage (numberOr (field "x") 0) (numberOr (field "y") 0)
      else if kindIs "navigate" then navigate (field "url")
      else if kindIs "upload" then uploadFile (field "selector")
      else if kindIs "wait" then emit (Wait (numberOr (field "duration") 1000))
      else if kindIs "click_coordinates" then
        clickAtCoordinates (field "x") (field "y")
      else if kindIs "type_at_cursor" then typeAtCursor (field "text")
      else if kindIs "key_press" then pressKey (field "key")
      else if kindIs "mouse_move" then mouseMove (field "x") (field "y")
      else if kindIs "noop" then ret tt
      else if kindIs "click_text" then clickByText (field "text")
      else unknown
  | _ => unknown
  end.
End Page.
Arguments DomOp : clear implicits.
Arguments Dom : clear implicits.
End Executor.

(** ** The orchestrator ([runAgent], [stopAgent], background service worker) *)

Module Agent.

Definition MAX_ITERATIONS : nat := 50.
Definition MAX_RETRIES : nat := 3.

(** *** [isJustAQuestion] *)

Definition greetings : list string :=
  [ "hi"; "hello"; "hey"; "good morning"; "good afternoon"; "good evening" ].

(** [[\s!.]] *)
Definition isGreetingTail (c : ascii) : bool :=
  Str.isSpace c || Ascii.eqb c "!" || Ascii.eqb c ".".

(** [/^(hi|hello|...)[\s!.]*$/] *)
Definition isGreeting (s : string) : bool :=
  existsb (λ g, match Substitution.stripPrefix g s with
                | Some rest => Str.all isGreetingTail rest
                | None => false
                end) greetings.

Definition questionPrefixes : list string :=
  [ "what can you do"; "what are you"; "who are you"; "how do you work";
    "what is this"; "how does this work" ].

Definition actionVerbs : list string :=
  [ "login"; "log in"; "sign in"; "signin";
    "click"; "press"; "tap"; "select";
    "fill"; "enter"; "type"; "input"; "write";
    "submit"; "send"; "post"; "upload";
    "add"; "create"; "make"; "build";
    "go to"; "navigate"; "open"; "visit";
    "find"; "search"; "look for";
    "download"; "save"; "export";
    "figure out"; "learn"; "teach"; "show me" ].

Definition isJustAQuestion (message : string) : bool :=
  let lowerMessage := Str.trim (Str.toLowerCase message) in
  if isGreeting lowerMessage then true
  else if existsb (Str.startsWith lowerMessage) questionPrefixes
          || String.eqb lowerMessage "help" then true
  else if existsb (Str.includes lowerMessage) actionVerbs then false
  else if (String.length lowerMessage <? 15)
          && negb (Str.includes lowerMessage "workflow") then true
  else false.

(** *** State, effects and environment *)

(** The points of one loop pass at which the worker awaits, and at which
    a [stop_agent] message can therefore be handled. *)
Inductive AwaitPoint :=
  | AtCapture | AtPageInfo | AtInspect | AtDecision | AtExecute | AtRecord
  | AtPause.

#[export] Instance AwaitPoint_eq_dec : EqDecision AwaitPoint.
Proof. solve_decision. Defined.

(** [chrome.tabs.query] result. *)
Record Tab := {
  tabIdent : option Z;      (* tab.id *)
  tabUrl : option string;   (* tab.url *)
}.

(** What the world answers before the loop starts. *)
Record PreEnv := {
  activeTab : option Tab;
  createWorkflow : Result Z;       (* POST /api/workflows: the new id *)
  contentScriptLoaded : bool;      (* get_page_info answered *)
  injectOk : bool;                 (* chrome.scripting.executeScript *)
}.

Section Loop.
Context {num : Type} `{JsNumber num}.

Abbreviation Action := (gmap string (jsval num)).

Record HistoryEntry := {
  entryAction : option (jsval num);
  entrySelector : option (jsval num);
  entryResult : string;
}.

Record AgentState := {
  running : bool;
  goal : option string;
  authToken : option string;
  workflowId : option Z;
  tabId : option Z;
  messageHistory : list (jsval num);
  lastMouseX : Z;
  lastMouseY : Z;
  actionHistory : list HistoryEntry;
  currentStep : nat;
}.

(** The module-level [state] object as first loaded. *)
Definition initialState : AgentState := {|
  running := false; goal := None; authToken := None; workflowId := None;
  tabId := None; messageHistory := []; lastMouseX := 0; lastMouseY := 0;
  actionHistory := []; currentStep := 0;
|}.

(** [aiData.data] of the decision endpoint. *)
Record Decision := {
  response : option string;
  action : option Action;
  done : option bool;
}.

(** The [data] that [POST /ai-decision] sends (extension.ts): for a
    tool use, the converted action with the model's text or a default;
    at [end_turn], a [done] action with [done: true]; otherwise no
    action.  [textBlock] is the text of the model's first text block. *)
Definition toolUseData (converted : Action) (toolAction : string)
    (textBlock : option string) : Decision := {|
  response := Some (default ("Performing: " +:+ toolAction) textBlock);
  action := Some converted;
  done := None;
|}.

Definition endTurnData (textBlock : option string) : Decision := {|
  response := Some (default "Task completed" textBlock);
  action := Some {[ "action" := JStr "done" ]};
  done := Some true;
|}.

Definition textOnlyData (textBlock : option string) : Decision := {|
  response := Some (default "No action needed" textBlock);
  action := None;
  done := None;
|}.

(** One [fetch] of the decision endpoint: it throws or answers
    [success: false] (both land in the same [catch], with the error
    message), or it answers [success: true] with [data]. *)
Inductive Attempt :=
  | AttemptFailed (message : string)
  | AttemptData (data : option Decision).

(** What the world answers during one loop pass. *)
Record IterEnv := {
  capture : Result string;       (* captureVisibleTab *)
  pageInfo : Result string;      (* get_page_info: the page URL *)
  inspect : Result unit;         (* inspect_page *)
  attempts : nat → Attempt;      (* the successive decision fetches *)
  exec : Result unit;            (* execute_action on the tab *)
  stopAt : option AwaitPoint;    (* a stop_agent message handled there *)
}.

(** What the worker does to the outside, in order.  The progress line
    of a status update and the display name of the workflow are
    presentation and are not carried. *)
Inductive Effect :=
  | PopupHelp                                   (* the canned help text *)
  | PopupWorkflowCreated
  | Popup (content : string)                    (* agent_message *)
  | Status (currentAction : string) (isRunning : bool)   (* updateStatus *)
  | Overlay (message : string)                  (* add_overlay_message *)
  | ShowOverlay
  | ScheduleOverlayDone                         (* setTimeout in stopAgent *)
  | Sleep (ms : Z)                              (* wait(ms) *)
  | CreateWorkflow (description : string) (website : string)
  | InjectScript
  | AskDecision (iteration : nat) (recent : list HistoryEntry)
  | Execute (a : Action)                        (* executeActionOnTab *)
  | RecordAction (workflow : option Z) (a : Action).

Record World := {
  state : AgentState;
  log : list Effect;
}.

(** Worker code: it reads and writes [state], acts on the outside, and
    may throw. *)
Definition Run (A : Type) : Type := World → Result A * World.

Definition ret {A} (a : A) : Run A := λ w, (Ok a, w).
Definition throw {A} (message : string) : Run A := λ w, (Throw message, w).
Definition bind {A B} (m : Run A) (k : A → Run B) : Run B :=
  λ w, match m w with
       | (Ok a, w') => k a w'
       | (Throw e, w') => (Throw e, w')
       end.
#[export] Instance Run_ret : MRet Run := @ret.
#[export] Instance Run_bind : MBind Run := λ A B k m, bind m k.

Definition emit (e : Effect) : Run unit :=
  λ w, (Ok tt, {| state := state w; log := log w ++ [e] |}).
Definition get : Run AgentState := λ w, (Ok (state w), w).
Definition modify (f : AgentState → AgentState) : Run unit :=
  λ w, (Ok tt, {| state := f (state w); log := log w |}).
(** An awaited promise settles with [r]. *)
Definition settle {A} (r : Result A) : Run A := λ w, (r, w).

Definition updateStatus (currentAction : string) : Run unit :=
  emit (Status currentAction true).

(** [stopAgent] *)
Definition stopped (s : AgentState) : AgentState := {|
  running := false;
  goal := None;
  authToken := authToken s;
  workflowId := workflowId s;
  tabId := tabId s;
  messageHistory := [];
  lastMouseX := lastMouseX s;
  lastMouseY := lastMouseY s;
  actionHistory := [];
  currentStep := currentStep s;
|}.

(** [if (state.tabId)]: an absent id and the id 0 are falsy. *)
Definition hasTab (s : AgentState) : bool :=
  match tabId s with
  | Some t => negb (Z.eqb t 0)
  | None => false
  end.

Definition stopAgent : Run unit :=
  modify stopped ;;
  emit (Status "Agent stopped" false) ;;
  s ← get;
  if hasTab s then emit ScheduleOverlayDone else ret tt.

(** The worker has awaited at point [p]: a [stop_agent] message that
    arrived meanwhile has been handled. *)
Definition arrive (env : IterEnv) (p : AwaitPoint) : Run unit :=
  if decide (stopAt env = Some p) then stopAgent else ret tt.

(** [state.actionHistory.push(e); if (length > 10) shift()] *)
Definition pushHistory (e : HistoryEntry) (h : list HistoryEntry)
  : list HistoryEntry :=
  let h' := h ++ [e] in
  if 10 <? length h' then tail h' else h'.

Definition pushed (e : HistoryEntry) (s : AgentState) : AgentState := {|
  running := running s; goal := goal s; authToken := authToken s;
  workflowId := workflowId s; tabId := tabId s;
  messageHistory := messageHistory s;
  lastMouseX := lastMouseX s; lastMouseY := lastMouseY s;
  actionHistory := pushHistory e (actionHistory s);
  currentStep := currentStep s |}.

Definition recordOutcome (e : HistoryEntry) : Run unit := modify (pushed e).

(** [state.currentStep++] *)
Definition stepped (s : AgentState) : AgentState := {|
  running := running s; goal := goal s; authToken := authToken s;
  workflowId := workflowId s; tabId := tabId s;
  messageHistory := messageHistory s;
  lastMouseX := lastMouseX s; lastMouseY := lastMouseY s;
  actionHistory := actionHistory s;
  currentStep := S (currentStep s) |}.

Definition advanceStep : Run unit := modify stepped.

(** [array.slice(-5)] *)
Definition lastFive (h : list HistoryEntry) : list HistoryEntry :=
  List.skipn (length h - 5) h.

(** *** One pass of the agent loop *)

(** The retry loop around the decision fetch,
    [while (retries < MAX_RETRIES)], with [remaining] the number of
    attempts left, so that [retries = MAX_RETRIES - remaining].  The
    result is [response]: [None] when it is still [undefined] or the
    endpoint sent no [data]. *)
Fixpoint askDecision (env : IterEnv) (iteration : nat) (remaining : nat)
  : Run (option Decision) :=
  match remaining with
  | 0 => ret None
  | S remaining' =>
      let retries := MAX_RETRIES - remaining in
      s ← get;
      emit (AskDecision iteration (lastFive (actionHistory s))) ;;
      (if decide (retries = 0) then arrive env AtDecision else ret tt) ;;
      match attempts env retries with
      | AttemptData data => ret data
      | AttemptFailed message =>
          let retries := S retries in
          if MAX_RETRIES <=? retries
          then throw ("API failed after " +:+ pretty MAX_RETRIES
                      +:+ " attempts: " +:+ message)
          else
            updateStatus "API error, retrying..." ;;
            emit (Sleep (1000 * 2 ^ Z.of_nat retries)) ;;
            askDecision env iteration remaining'
      end
  end.

(** How a pass ends: the loop goes on, or [break] was executed; both
    carry the value of [iteration]. *)
Inductive Pass :=
  | Continue (iteration : nat)
  | Break (iteration : nat).

Definition overlayText (textResponse : string) : string :=
  Str.take 200 textResponse
  +:+ (if 200 <? String.length textResponse then "..." else "").

Definition isDone (textResponse : string) (a : option Action) : bool :=
  Str.includes (Str.toLowerCase textResponse) "task complete"
  || Str.includes (Str.toLowerCase textResponse) "finished"
  || negb (bool_decide (is_Some a)).

(** The [try { ... } catch (error) { ... }] around the execution of
    [a]; [iteration] is the counter after this pass's increment. *)
Definition executeStep (env : IterEnv) (iteration : nat) (a : Action)
  : Run nat :=
  (if Js.truthy (a !! "reasoning")
   then emit (Overlay (Js.toString (a !! "reasoning"))) else ret tt) ;;
  updateStatus ("Executing: " +:+ Js.toString (a !! "action")) ;;
  emit (Execute a) ;;
  arrive env AtExecute ;;
  match exec env with
  | Ok _ =>
      s ← get;
      emit (RecordAction (workflowId s) a) ;;
      arrive env AtRecord ;;
      recordOutcome {| entryAction := a !! "action";
                       entrySelector := a !! "selector";
                       entryResult := "success" |} ;;
      advanceStep ;;
      ret iteration
  | Throw message =>
      recordOutcome {| entryAction := Js.or (a !! "action")
                                           (Some (JStr "unknown"));
                       entrySelector := a !! "selector";
                       entryResult := "failed: " +:+ message |} ;;
      emit (Popup ("Action failed: " +:+ message +:+ " (tried: "
                   +:+ Js.toString (a !! "action") +:+ " on "
                   +:+ Js.toString (Js.or (a !! "selector")
                                          (Some (JStr "unknown")))
                   +:+ ")")) ;;
      ret (iteration - 1)
  end.

(** The body of [while (state.running && iteration < MAX_ITERATIONS)],
    entered with the counter already incremented, in its three phases:
    screenshot and page inspection; the decision with its retries;
    the completion check and the execution. *)
Definition perceive (env : IterEnv) : Run unit :=
  updateStatus "Taking screenshot..." ;;
  s ← get;
  (if hasTab s then ret tt else throw "No tab selected") ;;
  arrive env AtCapture ;;
  settle (capture env) ;;
  arrive env AtPageInfo ;;
  settle (pageInfo env) ;;
  arrive env AtInspect ;;
  settle (inspect env) ;;
  updateStatus "Thinking...".

Definition actOn (env : IterEnv) (iteration : nat)
  (answer : option Decision) : Run Pass :=
  match answer with
  | None => throw "No response from API"
  | Some decision =>
      let textResponse := default "" (response decision) in
      let a := action decision in
      (if negb (String.eqb textResponse "")
       then emit (Popup textResponse) ;; emit (Overlay (overlayText textResponse))
       else ret tt) ;;
      if isDone textResponse a then ret (Break iteration)
      else
        match a with
        | None => ret (Break iteration)   (* not reached: [isDone] holds *)
        | Some act =>
            iteration' ← executeStep env iteration act;
            emit (Sleep 1500) ;;
            arrive env AtPause ;;
            ret (Continue iteration')
        end
  end.

Definition loopBody (env : IterEnv) (iteration : nat) : Run Pass :=
  perceive env ;;
  answer ← askDecision env iteration MAX_RETRIES;
  actOn env iteration answer.

(** How far a scripted run of the loop got. *)
Inductive LoopEnd :=
  | Exited (iteration : nat)      (* the loop was left normally *)
  | Thrown (message : string)     (* an exception left the loop *)
  | Pending (iteration : nat).    (* the loop is about to start a pass
                                     for which the script has no answers *)

(** The loop, run against the answers [envs] of the successive passes. *)
Fixpoint agentLoop (envs : list IterEnv) (iteration : nat) (w : World)
  : LoopEnd * World :=
  if running (state w) && (iteration <? MAX_ITERATIONS) then
    match envs with
    | [] => (Pending iteration, w)
    | env :: envs' =>
        match loopBody env (S iteration) w with
        | (Ok (Continue iteration'), w') => agentLoop envs' iteration' w'
        | (Ok (Break iteration'), w') => (Exited iteration', w')
        | (Throw message, w') => (Thrown message, w')
        end
    end
  else (Exited iteration, w).

(** *** [runAgent] *)

Definition started (goalText token : string) (s : AgentState) : AgentState := {|
  running := true;
  goal := Some goalText;
  authToken := Some token;
  workflowId := workflowId s;
  tabId := tabId s;
  messageHistory := [];
  lastMouseX := 0;
  lastMouseY := 0;
  actionHistory := [];
  currentStep := 0;
|}.

Definition setTabId (t : Z) (s : AgentState) : AgentState := {|
  running := running s; goal := goal s; authToken := authToken s;
  workflowId := workflowId s; tabId := Some t;
  messageHistory := messageHistory s;
  lastMouseX := lastMouseX s; lastMouseY := lastMouseY s;
  actionHistory := actionHistory s; currentStep := currentStep s |}.

Definition setWorkflowId (i : Z) (s : AgentState) : AgentState := {|
  running := running s; goal := goal s; authToken := authToken s;
  workflowId := Some i; tabId := tabId s;
  messageHistory := messageHistory s;
  lastMouseX := lastMouseX s; lastMouseY := lastMouseY s;
  actionHistory := actionHistory s; currentStep := currentStep s |}.

Definition isInternalUrl (url : option string) : bool :=
  match url with
  | None => true
  | Some u =>
      String.eqb u "" || Str.startsWith u "chrome://"
      || Str.startsWith u "edge://" || Str.startsWith u "about:"
  end.

(** Everything between the entry guard and the [try] of the loop:
    lines that throw here are outside the [try ... finally]. *)
Definition preflight (goalText token : string) (pre : PreEnv) : Run unit :=
  modify (started goalText token) ;;
  match activeTab pre with
  | None => throw "Cannot read properties of undefined (reading 'id')"
  | Some tab =>
      match tabIdent tab with
      | None => throw "No active tab found"
      | Some t =>
          if Z.eqb t 0 then throw "No active tab found"
          else if isInternalUrl (tabUrl tab)
          then throw "Cannot automate on browser internal pages. Please navigate to a regular website (http:// or https://)"
          else
            modify (setTabId t) ;;
            updateStatus "Creating workflow..." ;;
            emit (CreateWorkflow goalText (default "" (tabUrl tab))) ;;
            match createWorkflow pre with
            | Throw message =>
                throw ("Failed to create workflow: " +:+ message)
            | Ok i =>
                modify (setWorkflowId i) ;;
                updateStatus "Workflow created" ;;
                emit PopupWorkflowCreated ;;
                (if contentScriptLoaded pre then ret tt
                 else
                   emit InjectScript ;;
                   if injectOk pre then emit (Sleep 500)
                   else throw "Failed to load automation script on this page. Try refreshing the page.") ;;
                updateStatus "Starting agent..." ;;
                emit ShowOverlay
            end
      end
  end.

(** How a call of [runAgent] ends: its promise resolves, it rejects
    with an error, or (for a script that is too short) the loop is still
    running. *)
Inductive Outcome :=
  | Resolved
  | Rejected (message : string)
  | StillLooping (iteration : nat).

(** What follows the loop: the message at the iteration cap, the
    [catch] and the [finally] of [runAgent]. *)
Definition conclude (ended : LoopEnd * World) : Outcome * World :=
  match ended with
  | (Pending iteration, w) => (StillLooping iteration, w)
  | (Exited iteration, w) =>
      let w' := if MAX_ITERATIONS <=? iteration
                then (emit (Popup "Reached maximum iterations. Task may not be complete.") w).2
                else w in
      (Resolved, (stopAgent w').2)
  | (Thrown message, w) =>
      (Resolved, (stopAgent (emit (Popup ("Error: " +:+ message)) w).2).2)
  end.

Definition runAgent (goalText token : string) (pre : PreEnv)
  (envs : list IterEnv) (w : World) : Outcome * World :=
  if running (state w) then (Rejected "Agent is already running", w)
  else if isJustAQuestion goalText then (Resolved, (emit PopupHelp w).2)
  else
    match preflight goalText token pre w with
    | (Throw message, w1) => (Rejected message, w1)
    | (Ok _, w1) => conclude (agentLoop envs 0 w1)
    end.

(** *** Messages handled while a call is suspended *)

(** A call of [runAgent] suspended in the pause that ends a pass of its
    loop, [await wait(1500)]: the counter it holds, which is a local
    variable of the call, and what its further passes are answered. *)
Record Suspended := {
  counter : nat;
  answers : list IterEnv;
}.

(** The timer of the pause fires: the call goes on with the condition of
    its loop, which reads [state.running] as it is then. *)
Definition resume (call : Suspended) (w : World) : LoopEnd * World :=
  agentLoop (answers call) (counter call) w.

(** While the call [first] is suspended the worker handles a [stop_agent]
    message and then a [run_agent] message.  The call of [runAgent] for
    the latter runs until it is suspended in its turn, at the end of the
    script [envs]; then [first] is resumed.  The result is how far either
    call got. *)
Definition stopThenRestart (goalText token : string) (pre : PreEnv)
    (envs : list IterEnv) (first : Suspended) (w : World)
  : (Outcome * World) * (LoopEnd * World) :=
  let second := runAgent goalText token pre envs (stopAgent w).2 in
  (second, resume first second.2).
End Loop.
Arguments HistoryEntry : clear implicits.
Arguments AgentState : clear implicits.
Arguments Decision : clear implicits.
Arguments Attempt : clear implicits.
Arguments IterEnv : clear implicits.
Arguments Suspended : clear implicits.
Arguments Effect : clear implicits.
Arguments World : clear implicits.
End Agent.

(** ** The content script's message listener and error log *)

Module Content.
Import Executor.

Definition MAX_ERRORS : nat := 20.

(** An entry of [errorLog]. *)
Record LogEntry := {
  entryType : string;
  entryMessage : string;
  entryTimestamp : Z;
}.

(** [errorLog.push(entry); if (errorLog.length > MAX_ERRORS) errorLog.shift()] *)
Definition logError (entry : LogEntry) (errorLog : list LogEntry)
  : list LogEntry :=
  let errorLog' := errorLog ++ [entry] in
  if MAX_ERRORS <? length errorLog' then tail errorLog' else errorLog'.

(** [errorLog.slice(-10)] *)
Definition recentErrors (errorLog : list LogEntry) : list LogEntry :=
  List.skipn (length errorLog - 10) errorLog.

(** [parts.join(' ')] *)
Fixpoint join (parts : list string) : string :=
  match parts with
  | [] => ""
  | [p] => p
  | p :: rest => p +:+ " " +:+ join rest
  end.

Section Script.
Context {num : Type} `{JsNumber num}.

(** The content script's view: the page and the module-level
    [errorLog]. *)
Record Content := {
  page : Dom num;
  errorLog : list LogEntry;
}.

(** The requests that act on the page or on the error log.  The other
    request types (screenshot, page information, overlay, inspection) are
    answered from the window or by the screenshot, overlay and inspection
    modules. *)
Inductive Request :=
  | ExecuteActionRequest (action : gmap string (jsval num))   (* execute_action *)
  | GetErrorLogs                             (* get_error_logs *)
  | ClearErrorLogs.                          (* clear_error_logs *)

Inductive Payload :=
  | NoPayload
  | RecentErrors (entries : list LogEntry).

(** What [sendResponse] is called with. *)
Record Response := {
  success : bool;
  data : Payload;
  error : option string;
}.

Context (hitTest : option (jsval num) → option (jsval num) → Executor.Hit).

(** The listener of [chrome.runtime.onMessage]: the branch of the
    request type inside [try], and the [catch] that answers
    [{success: false, error}]. *)
Definition onMessage (request : Request) (c : Content) : Response * Content :=
  match request with
  | ExecuteActionRequest action =>
      match executeAction hitTest action (page c) with
      | (Ok _, page') =>
          ({| success := true; data := NoPayload; error := None |},
           {| page := page'; errorLog := errorLog c |})
      | (Throw message, page') =>
          ({| success := false; data := NoPayload; error := Some message |},
           {| page := page'; errorLog := errorLog c |})
      end
  | GetErrorLogs =>
      ({| success := true; data := RecentErrors (recentErrors (errorLog c));
          error := None |}, c)
  | ClearErrorLogs =>
      ({| success := true; data := NoPayload; error := None |},
       {| page := page c; errorLog := [] |})
  end.

(** What happens in the page, as far as the content script sees it: one
    of the four hooks captures an error, or a request arrives.  [now] is
    [Date.now()]. *)
Inductive Event :=
  | ConsoleError (args : list (option (jsval num))) (now : Z)
  | ConsoleWarn (args : list (option (jsval num))) (now : Z)
  | ErrorEvent (message filename lineno : string) (now : Z)
  | UnhandledRejection (reason : option (jsval num)) (now : Z)
  | Message (request : Request).

Definition captured (entry : LogEntry) (c : Content) : Content :=
  {| page := page c; errorLog := logError entry (errorLog c) |}.

Definition handle (c : Content) (ev : Event) : Content :=
  match ev with
  | ConsoleError args now =>
      captured {| entryType := "console.error";
                  entryMessage := join (Js.toString <$> args);
                  entryTimestamp := now |} c
  | ConsoleWarn args now =>
      captured {| entryType := "console.warn";
                  entryMessage := join (Js.toString <$> args);
                  entryTimestamp := now |} c
  | ErrorEvent message filename lineno now =>
      captured {| entryType := "error";
                  entryMessage := message +:+ " at " +:+ filename +:+ ":" +:+ lineno;
                  entryTimestamp := now |} c
  | UnhandledRejection reason now =>
      captured {| entryType := "promise_rejection";
                  entryMessage := Js.toString reason;
                  entryTimestamp := now |} c
  | Message request => (onMessage request c).2
  end.
End Script.
Arguments Content : clear implicits.
Arguments Request : clear implicits.
Arguments Event : clear implicits.
End Content.

(** ** The worker's side of the relay ([sendMessageToTab]) *)

Module Messaging.
Import Content.

(** The callback of [chrome.tabs.sendMessage]: [lastError] is
    [chrome.runtime.lastError?.message], [response] what the listener
    passed to [sendResponse], if it called it. *)
Definition sendMessageToTab (lastError : option string)
    (response : option Response) : Result Response :=
  match lastError with
  | Some message => Throw message
  | None =>
      match response with
      | Some r =>
          if success r then Ok r
          else Throw (match error r with
                      | Some e => if String.eqb e "" then "Tab message failed" else e
                      | None => "Tab message failed"
                      end)
      | None => Throw "Tab message failed"
      end
  end.

(** [executeActionOnTab]: the response is awaited and dropped. *)
Definition executeActionOnTab (lastError : option string)
    (response : option Response) : Result unit :=
  match sendMessageToTab lastError response with
  | Ok _ => Ok tt
  | Throw message => Throw message
  end.
End Messaging.

(** ** The recording route ([POST /record-action]) *)

Module Recording.
Import Replay.

Section Route.
Context {num : Type} `{JsNumber num}.

(** The workflow rows of the authenticated user, by id. *)
Abbreviation Workflows := (gmap Z (Workflow num)).

(** What the route sends: an error envelope with its HTTP status, or
    [{workflow, actionNumber}]. *)
Inductive Reply :=
  | ReplyError (httpStatus : nat) (error : string)
  | ReplyRecorded (workflow : Workflow num) (actionNumber : nat).

(** [{...action, timestamp, step}] *)
Definition stamped (action : gmap string (jsval num)) (timestamp : string)
    (stepNumber : nat) : gmap string (jsval num) :=
  <["step" := JNum (num_of_Z (Z.of_nat stepNumber))]>
    (<["timestamp" := JStr timestamp]> action).

(** The route handler, with the rows it leaves.  [action] is the object
    of the request body, [now] is [new Date().toISOString()]. *)
Definition recordAction (workflows : Workflows) (workflowId : option Z)
    (action : option (gmap string (jsval num))) (now : string)
  : Reply * Workflows :=
  match workflowId, action with
  | Some wid, Some a =>
      if negb (truthyId workflowId)
      then (ReplyError 400 "workflowId and action are required", workflows)
      else
        match workflows !! wid with
        | None => (ReplyError 404 "Workflow not found", workflows)
        | Some workflow =>
            if negb (String.eqb (status workflow) "learning")
            then (ReplyError 400 "Workflow is not in learning mode", workflows)
            else
              let currentActions := default [] (recordedActions workflow) in
              let updatedActions :=
                currentActions ++ [stamped a now (length currentActions + 1)] in
              let updated := {| status := status workflow;
                                recordedActions := Some updatedActions |} in
              (ReplyRecorded updated (length updatedActions),
               <[wid := updated]> workflows)
        end
  | _, _ => (ReplyError 400 "workflowId and action are required", workflows)
  end.
End Route.
Arguments Reply : clear implicits.
End Recording.

(** ** The conversion of [POST /ai-decision] *)

Module Conversion.
Import Replay.

Section Switch.
Context {num : Type} `{JsNumber num}.

(** [toolUseBlock.input] *)
Record ToolInput := {
  action : option (jsval num);
  coordinate : option (list (jsval num));
  text : option (jsval num);
  scroll_direction : option (jsval num);
  scroll_amount : option (jsval num);
}.

(** [v / 2] on whatever the request sent as viewport size. *)
Context (halve : option (jsval num) → option (jsval num)).

(** [action.coordinate?.[i]] *)
Definition coordinateAt (input : ToolInput) (i : nat) : option (jsval num) :=
  coordinate input ≫= (λ l, l !! i).

Definition clickActions : list string :=
  [ "left_click"; "right_click"; "double_click"; "middle_click" ].

(** The [switch] that builds [convertedAction], as it is serialized into
    the reply.  [viewportWidth] and [viewportHeight] are the request's,
    [toolUseId] is [toolUseBlock.id]. *)
Definition convertedAction (viewportWidth viewportHeight : option (jsval num))
    (toolUseId : string) (input : ToolInput) : gmap string (jsval num) :=
  let displayWidth := Js.or viewportWidth (Some (JNum (num_of_Z 1280))) in
  let displayHeight := Js.or viewportHeight (Some (JNum (num_of_Z 800))) in
  let zero := Some (JNum (num_of_Z 0)) in
  let initial : gmap string (jsval num) :=
    setField "action" (action input) {[ "toolUseId" := JStr toolUseId ]} in
  let named (name : string) := <["action" := JStr name]> initial in
  match action input with
  | Some (JStr kind) =>
      if String.eqb kind "screenshot" then named "screenshot"
      else if bool_decide (kind ∈ clickActions) then
        <["clickType" := JStr kind]>
          (setField "y" (Js.or (coordinateAt input 1) zero)
             (setField "x" (Js.or (coordinateAt input 0) zero)
                (named "click_coordinates")))
      else if String.eqb kind "type" then
        setField "text" (Js.or (text input) (Some (JStr ""))) (named "type_text")
      else if String.eqb kind "key" then
        setField "key" (Js.or (text input) (Some (JStr ""))) (named "key_press")
      else if String.eqb kind "scroll" then
        setField "y" (Js.or (coordinateAt input 1) (halve displayHeight))
          (setField "x" (Js.or (coordinateAt input 0) (halve displayWidth))
             (setField "amount"
                (Js.or (scroll_amount input) (Some (JNum (num_of_Z 3))))
                (setField "direction"
                   (Js.or (scroll_direction input) (Some (JStr "down")))
                   (named "scroll"))))
      else if String.eqb kind "mouse_move" then
        setField "y" (Js.or (coordinateAt input 1) zero)
          (setField "x" (Js.or (coordinateAt input 0) zero)
             (named "mouse_move"))
      else if String.eqb kind "wait" then
        <["duration" := JNum (num_of_Z 1000)]> (named "wait")
      else initial
  | _ => initial
  end.
End Switch.
Arguments ToolInput : clear implicits.
End Conversion.



(** * Properties of the substitution engine *)

Section SubstitutionProperties.
Import Substitution.
Context {num : Type} `{JsNumber num}.

Lemma truthy_toString_nonempty (v : option (jsval num)) :
  Js.truthy v = true → Js.toString v ≠ "".
Proof.
  destruct v as [[| [] | n | s | | name]|]; simpl; try done.
  - intros _. apply num_toString_nonempty.
  - by destruct (String.eqb_spec s "").
Qed.

Lemma token_nonempty (w : string) : token w ≠ "".
Proof. done. Qed.

Lemma canonicalFields_own (listing : Listing num) :
  (fieldMapOwn listing).*1 = canonicalFields.
Proof. done. Qed.

Lemma assoc_None_iff {V : Type} (key : string) (l : list (string * V)) :
  assoc key l = None ↔ key ∉ l.*1.
Proof.
  induction l as [|[k v] l IH]; simpl.
  - split; [intros _; apply not_elem_of_nil | done].
  - rewrite not_elem_of_cons. destruct (String.eqb_spec k key) as [->|Hne].
    + split; [done | by intros [? _]].
    + rewrite IH. split; [intros ?; split; [congruence | done] | by intros [_ ?]].
Qed.

(** An identifier names a canonical field exactly when [fieldMap] has an
    own property under it. *)
Lemma canonical_iff_own (listing : Listing num) (field : string) :
  field ∈ canonicalFields ↔ is_Some (assoc field (fieldMapOwn listing)).
Proof.
  rewrite <- (canonicalFields_own listing), <- not_eq_None_Some, assoc_None_iff.
  destruct (decide (field ∈ (fieldMapOwn listing).*1)); tauto.
Qed.

(** A token that neither map resolves keeps its literal text, wherever it
    occurs.  The two maps are read as JavaScript reads them: the names
    inherited from [Object.prototype] count as found. *)
Lemma unresolved_token_literal (listing : Listing num) (pre w post : string) :
  w ≠ "" → Str.all Str.isWordChar w = true →
  Js.truthy (fieldMapGet listing (Str.toLowerCase w)) = false →
  Js.truthy (Js.getPropOpt (listingData listing) w) = false →
  replaceAll (resolveToken listing) (pre +:+ token w +:+ post)
  = replaceAll (resolveToken listing) pre +:+ token w
    +:+ replaceAll (resolveToken listing) post.
Proof.
  intros Hne Hw Hf Hb. rewrite replaceAll_token by done.
  do 2 f_equal. unfold resolveToken, Js.or. by rewrite Hf, Hb.
Qed.

(** C7: a token whose identifier is in neither map does not always keep
    its literal text.  [fieldMap] is an object literal read under a
    computed key, so [{{constructor}}] finds the inherited
    [Object.prototype.constructor]; the callback returns that function
    and [replace] inserts its rendering.  This holds for every listing,
    also with an empty data bag. *)
Theorem constructor_token_replaced (listing : Listing num) :
  assoc "constructor" (fieldMapOwn listing) = None
  ∧ replacePlaceholders listing (Some (JStr "{{constructor}}"))
    = Some (JStr "function Object() { [native code] }").
Proof.
  split; [done|].
  unfold replacePlaceholders.
  change "{{constructor}}" with ("" +:+ token "constructor" +:+ "").
  rewrite replaceAll_token by done.
  by simp replaceAll.
Qed.

End SubstitutionProperties.

Section SubstitutionExamples.
Import Substitution.

(** A listing without an address column value whose uploaded row has an
    [ADDRESS] cell. *)
Definition listingWithBag : Listing Z := {|
  address := Some "";
  city := Some "Miami";
  state := None;
  zipCode := None;
  price := Some 250000%Z;
  bedrooms := None;
  bathrooms := None;
  squareFeet := None;
  description := None;
  mlsNumber := None;
  listingData := Some {[ "ADDRESS" := JStr "9 Elm Rd" ]};
|}.

End SubstitutionExamples.

(** * Properties of the deterministic decision source *)

Section ReplayProperties.
Import Substitution Replay.
Context {num : Type} `{JsNumber num}.

Lemma processAction_text (listing : Listing num) (a : gmap string (jsval num)) :
  processAction listing a !! "text" = replacePlaceholders listing (a !! "text").
Proof.
  unfold processAction, setField.
  destruct (replacePlaceholders listing (a !! "text")).
  - apply lookup_insert_eq.
  - apply lookup_delete_eq.
Qed.

Lemma setField_other (k key : string) v (o : gmap string (jsval num)) :
  k ≠ key → setField k v o !! key = o !! key.
Proof.
  intros Hne. unfold setField. destruct v.
  - by apply lookup_insert_ne.
  - by apply lookup_delete_ne.
Qed.

Lemma processAction_value (listing : Listing num) (a : gmap string (jsval num)) :
  processAction listing a !! "value" = replacePlaceholders listing (a !! "value").
Proof.
  unfold processAction. rewrite setField_other by done.
  unfold setField. destruct (replacePlaceholders listing (a !! "value")).
  - apply lookup_insert_eq.
  - apply lookup_delete_eq.
Qed.

Lemma processAction_other (listing : Listing num) (a : gmap string (jsval num))
  (key : string) :
  key ≠ "text" → key ≠ "value" → processAction listing a !! key = a !! key.
Proof.
  intros Ht Hv. unfold processAction. by rewrite !setField_other.
Qed.

(** C6, as the route computes it: past the end of the trace the reply is
    [done = true] without an action; at a valid cursor it is the trace
    entry with its [value] and [text] properties run through
    [replacePlaceholders] and every other property as recorded, with the
    step, the number of steps and [done = false]. *)
Theorem getNextAction_reply
  (findWorkflow : Z → option (Workflow num))
  (findListing : Z → option (Listing num))
  (workflowId listingId currentStep : Z)
  (workflow : Workflow num) (listing : Listing num) :
  workflowId ≠ 0%Z → listingId ≠ 0%Z →
  findWorkflow workflowId = Some workflow →
  status workflow = "ready" ∨ status workflow = "active" →
  findListing listingId = Some listing →
  let actions := default [] (recordedActions workflow) in
  let reply := getNextAction findWorkflow findListing
                 (Some workflowId) (Some listingId) (Some currentStep) in
  ((Z.of_nat (length actions) ≤ currentStep)%Z →
     reply = ReplyDone "Workflow execution complete"
     ∧ done reply = Some true ∧ replyAction reply = None)
  ∧ (∀ nextAction,
       (0 ≤ currentStep)%Z →
       actions !! Z.to_nat currentStep = Some nextAction →
       reply = ReplyNext {| action := processAction listing nextAction;
                            step := currentStep;
                            totalSteps := length actions |}
       ∧ done reply = Some false
       ∧ processAction listing nextAction !! "text"
         = replacePlaceholders listing (nextAction !! "text")
       ∧ processAction listing nextAction !! "value"
         = replacePlaceholders listing (nextAction !! "value")
       ∧ ∀ key, key ≠ "text" → key ≠ "value" →
           processAction listing nextAction !! key = nextAction !! key).
Proof.
  intros Hw Hl Hfw Hst Hfl actions reply.
  assert (Hguard : reply =
    if atEnd actions (Some currentStep)
    then ReplyDone "Workflow execution complete"
    else match entryAt actions (Some currentStep) with
         | Some nextAction =>
             ReplyNext {| action := processAction listing nextAction;
                          step := currentStep; totalSteps := length actions |}
         | None => ReplyError 500
                     "Cannot read properties of undefined (reading 'value')"
         end).
  { unfold reply, getNextAction, truthyId. rewrite Hfw, Hfl.
    destruct (Z.eqb_spec workflowId 0) as [|_]; [done|].
    destruct (Z.eqb_spec listingId 0) as [|_]; [done|]. simpl.
    by destruct Hst as [-> | ->]. }
  split.
  - intros Hend. rewrite Hguard. unfold atEnd.
    destruct (Z.leb_spec (Z.of_nat (length actions)) currentStep); [done|lia].
  - intros nextAction Hpos Hentry.
    assert (Hlt : (currentStep < Z.of_nat (length actions))%Z).
    { apply lookup_lt_Some in Hentry. lia. }
    assert (Hr : reply = ReplyNext {| action := processAction listing nextAction;
                            step := currentStep;
                            totalSteps := length actions |}).
    { rewrite Hguard. unfold atEnd, entryAt.
      destruct (Z.leb_spec (Z.of_nat (length actions)) currentStep); [lia|].
      destruct (Z.leb_spec 0 currentStep); [|lia]. by rewrite Hentry. }
    split_and!; [done | by rewrite Hr | apply processAction_text
                | apply processAction_value | apply processAction_other].
Qed.
End ReplayProperties.

Section ReplayExamples.
Import Substitution Replay.

Definition listingMain : Listing Z := {|
  address := Some "123 Main St";
  city := None; state := None; zipCode := None; price := None;
  bedrooms := None; bathrooms := None; squareFeet := None;
  description := None; mlsNumber := Some "A100"; listingData := None;
|}.

(** A recorded step whose selector carries a placeholder. *)
Definition typeIntoAddr : gmap string (jsval Z) :=
  {[ "action" := JStr "type";
     "selector" := JStr "#row-{{MLSNUMBER}} input";
     "text" := JStr "{{ADDRESS}}" ]}.

Definition readyWorkflow : Workflow Z :=
  {| status := "ready"; recordedActions := Some [typeIntoAddr] |}.

(** C6 as stated: every string-valued property of the returned action is
    the substituted recorded one. *)
Definition everyStringFieldSubstituted
  (listing : Listing Z) (recorded returned : gmap string (jsval Z)) : Prop :=
  ∀ key s, recorded !! key = Some (JStr s) →
           returned !! key = replacePlaceholders listing (Some (JStr s)).

(** The selector of the recorded step comes back with its placeholder. *)
Lemma getNextAction_selector_kept :
  ∃ returned,
    replyAction (getNextAction (λ _, Some readyWorkflow) (λ _, Some listingMain)
                   (Some 1%Z) (Some 1%Z) (Some 0%Z)) = Some returned
    ∧ returned !! "selector" = Some (JStr "#row-{{MLSNUMBER}} input")
    ∧ replacePlaceholders listingMain (typeIntoAddr !! "selector")
      = Some (JStr "#row-A100 input")
    ∧ ¬ everyStringFieldSubstituted listingMain typeIntoAddr returned.
Proof.
  eexists. split; [reflexivity|].
  assert (Hs : processAction listingMain typeIntoAddr !! "selector"
               = Some (JStr "#row-{{MLSNUMBER}} input")) by (by vm_compute).
  assert (Hr : replacePlaceholders listingMain (Some (JStr "#row-{{MLSNUMBER}} input"))
               = Some (JStr "#row-A100 input")) by (by vm_compute).
  split_and!; [exact Hs | exact Hr |].
  intros Hall.
  specialize (Hall "selector" "#row-{{MLSNUMBER}} input" eq_refl).
  rewrite Hr in Hall. simpl in Hall. rewrite Hs in Hall. discriminate.
Qed.

Lemma getNextAction_reply_witness :
  replyAction (getNextAction (λ _, Some readyWorkflow) (λ _, Some listingMain)
                 (Some 1%Z) (Some 1%Z) (Some 0%Z))
  = Some (processAction listingMain typeIntoAddr)
  ∧ processAction listingMain typeIntoAddr !! "text" = Some (JStr "123 Main St").
Proof.
  destruct (getNextAction_reply (λ _, Some readyWorkflow) (λ _, Some listingMain)
              1%Z 1%Z 0%Z readyWorkflow listingMain) as [_ Hnext];
    [lia | lia | reflexivity | by left | reflexivity |].
  destruct (Hnext typeIntoAddr) as (Hr & _ & Ht & _); [lia | reflexivity |].
  split; [by rewrite Hr | rewrite Ht; by vm_compute].
Defined.
End ReplayExamples.


(** * Properties of the action executor *)

Section ExecutorProperties.
Import Executor.
Context {num : Type} `{JsNumber num}.
Context (hitTest : option (jsval num) → option (jsval num) → Executor.Hit).

(** The text that [executeAction] hands to the typing primitive:
    [action.text || action.value || ''] for [type], [action.text] for
    [type_at_cursor]. *)
Definition typedText (action : gmap string (jsval num)) : option (jsval num) :=
  match action !! "action" with
  | Some (JStr "type") =>
      Js.or (Js.or (action !! "text") (action !! "value")) (Some (JStr ""))
  | _ => action !! "text"
  end.

Lemma typeText_not_string (selector text : option (jsval num)) (dom : Dom num) :
  isText text = None →
  typeText selector text dom
  = (Throw (match query dom !! Js.toString selector with
            | Some _ => invalidText text
            | None => "Element not found: " +:+ Js.toString selector
            end), dom).
Proof.
  intros Ht. unfold typeText, mbind, Exec_bind, bind, querySelector. simpl.
  destruct (query dom !! Js.toString selector); [|done].
  by rewrite Ht.
Qed.

Lemma typeAtCursor_not_string (text : option (jsval num)) (dom : Dom num) :
  isText text = None →
  typeAtCursor text dom = (Throw (invalidText text), dom).
Proof. intros Ht. unfold typeAtCursor. by rewrite Ht. Qed.

End ExecutorProperties.

Section ExecutorExamples.
Import Executor.

(** A page with one text input holding ["old"], the caret behind it. *)
Definition nameInput : Element := {|
  tag := InputTag "text";
  value := "old";
  selectionStart := Some 3;
  selectionEnd := Some 3;
  isContentEditable := false;
  textContent := None;
|}.

(** The URL parser of the sample pages: of the strings the examples
    navigate to, only a scheme with nothing behind it does not parse. *)
Definition parses (url : string) : bool := negb (String.eqb url "https://").

Definition onePage : Dom Z := {|
  elements := {[ 1 := nameInput ]};
  query := {[ "#name" := 1 ]};
  clickables := [];
  activeElement := None;
  validUrl := parses;
  ops := [];
|}.

(** A layout in which no element lies under any point.  Two numbers are a
    point; of the other values the examples ask about none converts to a
    finite number. *)
Definition nowhere (x y : option (jsval Z)) : Hit :=
  match x, y with
  | Some (JNum _), Some (JNum _) => Under None
  | _, _ => NotFinite
  end.

(** A [type] action whose [text] is [null]. *)
Definition typeNull : gmap string (jsval Z) :=
  {[ "action" := JStr "type"; "selector" := JStr "#name"; "text" := JNull ]}.

(** A [type] action whose [text] is the number 42. *)
Definition typeNumber : gmap string (jsval Z) :=
  {[ "action" := JStr "type"; "selector" := JStr "#name"; "text" := JNum 42%Z ]}.


End ExecutorExamples.


(** * Properties of the orchestrator *)

Section AgentInvariants.
Import Agent.
Context {num : Type} `{JsNumber num}.

(** [m] keeps the property [P] of the agent state, however it ends. *)
Definition keeps {A : Type} (P : AgentState num → Prop) (m : Run A) : Prop :=
  ∀ w, P (state w) → P (state (m w).2).

Lemma keeps_ret {A} P (a : A) : keeps P (ret a).
Proof. by intros w. Qed.

Lemma keeps_throw {A} P (e : string) : keeps P (throw (A:=A) e).
Proof. by intros w. Qed.

Lemma keeps_settle {A} P (r : Result A) : keeps P (settle r).
Proof. by intros w. Qed.

Lemma keeps_emit P (e : Effect num) : keeps P (emit e).
Proof. by intros w. Qed.

Lemma keeps_get P : keeps P get.
Proof. by intros w. Qed.

Lemma keeps_modify P (f : AgentState num → AgentState num) :
  (∀ s, P s → P (f s)) → keeps P (modify f).
Proof. intros Hf w. apply Hf. Qed.

Lemma bind_run {A B} (m : Run A) (k : A → Run B) (w : World num) :
  (m ≫= k) w = match m w return Result B * World num with
               | (Ok a, w') => k a w'
               | (Throw e, w') => (Throw e, w')
               end.
Proof. done. Qed.

Lemma keeps_bind {A B} P (m : Run A) (k : A → Run B) :
  keeps P m → (∀ a, keeps P (k a)) → keeps P (m ≫= k).
Proof.
  intros Hm Hk w HP. unfold mbind, Run_bind, bind.
  specialize (Hm w HP). destruct (m w) as [[a|e] w']; simpl in *.
  - by apply Hk.
  - done.
Qed.

Lemma keeps_if {A} P (b : bool) (m1 m2 : Run A) :
  keeps P m1 → keeps P m2 → keeps P (if b then m1 else m2).
Proof. by destruct b. Qed.

Create HintDb keeps.
#[local] Hint Resolve keeps_ret keeps_throw keeps_settle keeps_emit keeps_get
  keeps_if : keeps.

Ltac keeps_step :=
  lazymatch goal with
  | |- keeps _ (_ ≫= _) => apply keeps_bind; [| intros ?]
  | |- keeps _ (match ?x with _ => _ end) => destruct x
  | |- keeps _ (updateStatus _) => apply keeps_emit
  | |- _ => solve [ auto with keeps ]
  end.

(** The history holds at most ten entries. *)
Definition bounded (s : AgentState num) : Prop :=
  length (actionHistory s) ≤ 10.

Lemma pushHistory_length (e : HistoryEntry num) (h : list (HistoryEntry num)) :
  length h ≤ 10 → length (pushHistory e h) ≤ 10.
Proof.
  intros Hh. unfold pushHistory.
  destruct (Nat.ltb_spec 10 (length (h ++ [e]))) as [Hlt|Hle]; [|done].
  rewrite length_app in Hlt. simpl in Hlt.
  destruct h as [|x h]; simpl in *; [lia|]. rewrite length_app. simpl. lia.
Qed.

Lemma keeps_stopAgent : keeps bounded stopAgent.
Proof.
  unfold stopAgent. repeat keeps_step.
  apply keeps_modify. intros s _. unfold bounded. simpl. lia.
Qed.

Lemma keeps_arrive env p : keeps bounded (arrive env p).
Proof.
  unfold arrive. case_decide; [apply keeps_stopAgent | apply keeps_ret].
Qed.

Lemma keeps_recordOutcome e : keeps bounded (recordOutcome e).
Proof.
  apply keeps_modify. intros s Hs. by apply pushHistory_length.
Qed.

Lemma keeps_advanceStep : keeps bounded advanceStep.
Proof. by apply keeps_modify. Qed.

#[local] Hint Resolve keeps_stopAgent keeps_arrive keeps_recordOutcome
  keeps_advanceStep : keeps.

Lemma keeps_askDecision env iteration remaining :
  keeps bounded (askDecision env iteration remaining).
Proof.
  induction remaining as [|r IH]; simpl; [apply keeps_ret|].
  repeat keeps_step.
Qed.

Lemma keeps_executeStep env iteration a :
  keeps bounded (executeStep env iteration a).
Proof. unfold executeStep. repeat keeps_step. Qed.

#[local] Hint Resolve keeps_askDecision keeps_executeStep : keeps.

Lemma keeps_loopBody env iteration : keeps bounded (loopBody env iteration).
Proof. unfold loopBody, perceive, actOn. repeat keeps_step. Qed.

Lemma agentLoop_bounded envs iteration (w : World num) :
  bounded (state w) → bounded (state (agentLoop envs iteration w).2).
Proof.
  revert iteration w. induction envs as [|env envs IH]; intros iteration w Hw; simpl.
  - by destruct (running (state w) && (iteration <? MAX_ITERATIONS)).
  - destruct (running (state w) && (iteration <? MAX_ITERATIONS)); [|done].
    pose proof (keeps_loopBody env (S iteration) w Hw) as Hb.
    destruct (loopBody env (S iteration) w) as [[[i|i]|e] w']; simpl in *;
      [by apply IH | done | done].
Qed.

Lemma keeps_preflight goalText token pre :
  keeps bounded (preflight goalText token pre).
Proof.
  unfold preflight.
  repeat first [ apply keeps_modify; intros s Hs; unfold bounded in *; simpl; lia
               | keeps_step ].
Qed.

Lemma runAgent_bounded goalText token pre envs (w : World num) :
  bounded (state w) → bounded (state (runAgent goalText token pre envs w).2).
Proof.
  intros Hw. unfold runAgent.
  destruct (running (state w)); [done|].
  destruct (isJustAQuestion goalText); [done|].
  pose proof (keeps_preflight goalText token pre w Hw) as Hp.
  destruct (preflight goalText token pre w) as [[[]|e] w1]; cbn [fst snd] in *; [|done].
  pose proof (agentLoop_bounded envs 0 w1 Hp) as Hl.
  destruct (agentLoop envs 0 w1) as [[i|e|i] w2]; cbn [conclude fst snd] in *.
  - apply keeps_stopAgent. by destruct (MAX_ITERATIONS <=? i).
  - by apply keeps_stopAgent.
  - done.
Qed.

(** C9: appending to the history keeps the ten most recent entries, and
    no call of [runAgent], finished or still looping after any number of
    passes, leaves more than ten entries in it. *)
Theorem history_never_exceeds_ten :
  (∀ (e : HistoryEntry num) h,
      length h ≤ 10 →
      pushHistory e h = List.skipn (length (h ++ [e]) - 10) (h ++ [e])
      ∧ length (pushHistory e h) ≤ 10)
  ∧ (∀ goalText token pre envs (w : World num),
      length (actionHistory (state w)) ≤ 10 →
      length (actionHistory (state (runAgent goalText token pre envs w).2)) ≤ 10).
Proof.
  split.
  - intros e h Hh. split; [|by apply pushHistory_length].
    unfold pushHistory. rewrite length_app. simpl.
    destruct (Nat.ltb_spec 10 (length h + 1)) as [Hlt|Hle].
    + replace (length h + 1 - 10) with 1 by lia.
      destruct h as [|x h]; [simpl in Hlt; lia | reflexivity].
    + by replace (length h + 1 - 10) with 0 by lia.
  - intros. by apply runAgent_bounded.
Qed.

(** The state after [stopAgent]. *)
Definition tornDown (s : AgentState num) : Prop :=
  running s = false ∧ goal s = None ∧ actionHistory s = [].

Lemma stopAgent_tornDown (w : World num) : tornDown (state (stopAgent w).2).
Proof.
  unfold stopAgent, mbind, Run_bind, bind, modify, emit, get. simpl.
  by destruct (hasTab (stopped (state w))).
Qed.

(** Every call of [runAgent] that gets past its pre-flight part and
    whose loop ends, by completion, by the iteration cap, by a stop
    request or by an exception, tears the run state down. *)
Lemma conclude_tornDown (ended : LoopEnd * World num) (w' : World num) :
  conclude ended = (Resolved, w') → tornDown (state w').
Proof.
  destruct ended as [[i|e|i] w]; cbn [conclude]; [| |done].
  - intros [= <-]. apply stopAgent_tornDown.
  - intros [= <-]. apply stopAgent_tornDown.
Qed.

Lemma runAgent_resolved_tornDown goalText token pre envs (w w' : World num) :
  isJustAQuestion goalText = false →
  runAgent goalText token pre envs w = (Resolved, w') →
  tornDown (state w').
Proof.
  intros Hq. unfold runAgent. rewrite Hq.
  destruct (running (state w)); [done|].
  destruct (preflight goalText token pre w) as [[[]|e] w1]; [|done].
  apply conclude_tornDown.
Qed.

Lemma preflight_started goalText token pre (w : World num) :
  let s := state (preflight goalText token pre w).2 in
  running s = true ∧ goal s = Some goalText.
Proof.
  unfold preflight. rewrite (bind_run _ _ w). cbn [modify].
  set (P := λ s : AgentState num, running s = true ∧ goal s = Some goalText).
  assert (Hk : ∀ (m : Run unit), keeps P m →
            P (state (m {| state := started goalText token (state w);
                           log := log w |}).2)).
  { intros m Hm. by apply Hm. }
  apply Hk.
  repeat first [ apply keeps_modify; intros s Hs; exact Hs | keeps_step ].
Qed.

(** C4: a start that is rejected after the entry guard, that is by any
    of the failures before the loop, returns with [running] still set
    and the goal still stored: [stopAgent] is only reached from the
    [finally] of the loop. *)
Theorem rejected_start_keeps_running goalText token pre envs (w w' : World num)
  (message : string) :
  running (state w) = false →
  runAgent goalText token pre envs w = (Rejected message, w') →
  running (state w') = true ∧ goal (state w') = Some goalText.
Proof.
  intros Hr. unfold runAgent. rewrite Hr.
  destruct (isJustAQuestion goalText); [done|].
  pose proof (preflight_started goalText token pre w) as Hp.
  destruct (preflight goalText token pre w) as [[[]|e] w1]; cbn [snd] in Hp.
  - destruct (agentLoop envs 0 w1) as [[i|e|i] w2]; done.
  - by intros [= _ <-].
Qed.

(** The entry guard: a start while [running] is set is rejected with the
    already-running error and changes neither the state nor anything
    outside. *)
Lemma start_while_running_rejected goalText token pre envs (w : World num) :
  running (state w) = true →
  runAgent goalText token pre envs w = (Rejected "Agent is already running", w).
Proof. intros Hr. unfold runAgent. by rewrite Hr. Qed.

(** State properties that [stopAgent] and the bookkeeping of a pass do not
    break are kept by the loop, however it ends. *)
Section Kept.
Variable P : AgentState num → Prop.
Hypothesis P_stopped : ∀ s, P s → P (stopped s).
Hypothesis P_pushed : ∀ e s, P s → P (pushed e s).
Hypothesis P_stepped : ∀ s, P s → P (stepped s).

Lemma kept_stopAgent : keeps P stopAgent.
Proof.
  unfold stopAgent. repeat keeps_step. by apply keeps_modify.
Qed.

Lemma kept_arrive env p : keeps P (arrive env p).
Proof.
  unfold arrive. case_decide; [apply kept_stopAgent | apply keeps_ret].
Qed.

Lemma kept_recordOutcome e : keeps P (recordOutcome e).
Proof. apply keeps_modify. intros s. apply P_pushed. Qed.

Lemma kept_advanceStep : keeps P advanceStep.
Proof. by apply keeps_modify. Qed.

Ltac kept_step :=
  first [ apply kept_arrive | apply kept_recordOutcome | apply kept_advanceStep
        | keeps_step ].

Lemma kept_askDecision env iteration remaining :
  keeps P (askDecision env iteration remaining).
Proof.
  induction remaining as [|r IH]; simpl; [apply keeps_ret|].
  repeat kept_step.
Qed.

Lemma kept_executeStep env iteration a :
  keeps P (executeStep env iteration a).
Proof. unfold executeStep. repeat kept_step. Qed.

Lemma kept_loopBody env iteration : keeps P (loopBody env iteration).
Proof.
  unfold loopBody, perceive, actOn.
  repeat first [ apply kept_askDecision | apply kept_executeStep | kept_step ].
Qed.

Lemma kept_agentLoop envs iteration (w : World num) :
  P (state w) → P (state (agentLoop envs iteration w).2).
Proof.
  revert iteration w. induction envs as [|env envs IH]; intros iteration w Hw; simpl.
  - by destruct (running (state w) && (iteration <? MAX_ITERATIONS)).
  - destruct (running (state w) && (iteration <? MAX_ITERATIONS)); [|done].
    pose proof (kept_loopBody env (S iteration) w Hw) as Hb.
    destruct (loopBody env (S iteration) w) as [[[i|i]|e] w']; simpl in *;
      [by apply IH | done | done].
Qed.
End Kept.

(** A loop that is about to start a further pass found [running] set. *)
Lemma agentLoop_pending envs iteration j (w w' : World num) :
  agentLoop envs iteration w = (Pending j, w') → running (state w') = true.
Proof.
  revert iteration w. induction envs as [|env envs IH]; intros iteration w; simpl.
  - destruct (running (state w)) eqn:Hr; [|done].
    destruct (iteration <? MAX_ITERATIONS); [|done]. by intros [= _ <-].
  - destruct (running (state w) && (iteration <? MAX_ITERATIONS)); [|done].
    destruct (loopBody env (S iteration) w) as [[[i|i]|e] w1]; [|done|done].
    apply IH.
Qed.

(** A start that gets through its pre-flight part has set [running] and
    the id of the tab. *)
Lemma preflight_ok goalText token pre (w w1 : World num) :
  preflight goalText token pre w = (Ok tt, w1) →
  running (state w1) = true ∧ hasTab (state w1) = true.
Proof.
  unfold preflight. rewrite bind_run. cbn [modify].
  destruct (activeTab pre) as [tab|]; [|done].
  destruct (tabIdent tab) as [t|]; [|done].
  destruct (Z.eqb t 0) eqn:Ht; [done|].
  destruct (isInternalUrl (tabUrl tab)); [done|].
  destruct (createWorkflow pre) as [i|message]; [|done].
  destruct (contentScriptLoaded pre); [|destruct (injectOk pre); [|done]].
  all: intros [= <-]; cbn; unfold hasTab; cbn; by rewrite Ht.
Qed.

(** A call that is still looping has [running] set and a tab to work on. *)
Lemma runAgent_still_looping goalText token pre envs j (w w' : World num) :
  runAgent goalText token pre envs w = (StillLooping j, w') →
  running (state w') = true ∧ hasTab (state w') = true.
Proof.
  unfold runAgent.
  destruct (running (state w)); [done|].
  destruct (isJustAQuestion goalText); [done|].
  destruct (preflight goalText token pre w) as [[[]|e] w1] eqn:Hpre; [|done].
  apply preflight_ok in Hpre as [_ Htab].
  pose proof (kept_agentLoop (λ s, hasTab s = true)
                (λ s Hs, Hs) (λ e s Hs, Hs) (λ s Hs, Hs) envs 0 w1 Htab) as Hkept.
  destruct (agentLoop envs 0 w1) as [[i|e|i] w2] eqn:Hloop; cbn [conclude];
    [done|done|].
  intros [= _ <-]. split; [by eapply agentLoop_pending|done].
Qed.
End AgentInvariants.


(** * The loop, pass by pass *)

Section AgentPasses.
Import Agent.
Context {num : Type} `{JsNumber num}.

(** The actions sent to the page for execution, in order. *)
Definition executed (w : World num) : list (gmap string (jsval num)) :=
  omap (λ e, match e with Execute a => Some a | _ => None end) (log w).

(** The pauses taken, in milliseconds, in order. *)
Definition sleeps (w : World num) : list Z :=
  omap (λ e, match e with Sleep ms => Some ms | _ => None end) (log w).

(** The world with further effects logged. *)
Definition after (w : World num) (es : list (Effect num)) : World num :=
  {| state := state w; log := log w ++ es |}.

Lemma after_nil (w : World num) : after w [] = w.
Proof. destruct w. unfold after. simpl. by rewrite app_nil_r. Qed.

Lemma after_after (w : World num) es es' : after (after w es) es' = after w (es ++ es').
Proof. unfold after. simpl. by rewrite app_assoc. Qed.

Lemma emit_after e (w : World num) : emit e w = (Ok tt, after w [e]).
Proof. done. Qed.

(** A pass in which perception works and no stop request arrives. *)
Definition quiet (env : IterEnv num) : Prop :=
  (∃ shot, capture env = Ok shot) ∧ (∃ url, pageInfo env = Ok url)
  ∧ inspect env = Ok tt ∧ stopAt env = None.

Lemma arrive_quiet (env : IterEnv num) p (w : World num) :
  stopAt env = None → arrive env p w = (Ok tt, w).
Proof. intros Hs. unfold arrive. rewrite Hs. by case_decide. Qed.

(** What the decision source finally answers in a pass: the result of
    the retry loop, which does not depend on the state it runs in. *)
Definition blank : World num := {| state := initialState; log := [] |}.
Definition answerOf (env : IterEnv num) : Result (option (Decision num)) :=
  (askDecision env 0 MAX_RETRIES blank).1.

Definition noAction (e : Effect num) : Prop :=
  match e with Execute _ => False | _ => True end.

Lemma omap_nil_noAction (es : list (Effect num)) :
  omap (λ e, match e with Execute a => Some a | _ => None end) es = []
  ↔ Forall noAction es.
Proof.
  induction es as [|e es IH]; simpl; [by split|].
  rewrite Forall_cons, <- IH. destruct e; simpl; intuition discriminate.
Qed.

Lemma arrive_first {P : Prop} (b : {P} + {¬ P}) (env : IterEnv num) p
  (w : World num) :
  stopAt env = None →
  (if b then arrive env p else ret ()) w = (Ok tt, w).
Proof. intros Hs. destruct b; [by apply arrive_quiet | done]. Qed.

(** In a quiet pass the retry loop only logs requests, status updates
    and pauses. *)
Lemma askDecision_world (env : IterEnv num) iteration remaining (w : World num) :
  stopAt env = None →
  ∃ es, Forall noAction es
    ∧ (askDecision env iteration remaining w).2 = after w es.
Proof.
  intros Hs. revert w. induction remaining as [|r IH]; intros w.
  - exists []. by rewrite after_nil.
  - cbn [askDecision]. rewrite bind_run. cbn [get].
    rewrite bind_run, emit_after, bind_run, arrive_first by done.
    destruct (attempts env (MAX_RETRIES - S r)) as [message|data].
    + destruct (MAX_RETRIES <=? S (MAX_RETRIES - S r)).
      * eexists. split; [|reflexivity]. by repeat constructor.
      * unfold updateStatus.
        rewrite bind_run, emit_after, bind_run, emit_after, !after_after.
        destruct (IH (after w
          ([AskDecision iteration (lastFive (actionHistory (state w)))]
           ++ [Status "API error, retrying..." true]
           ++ [Sleep (1000 * 2 ^ Z.of_nat (S (MAX_RETRIES - S r)))])))
          as (es & Hes & ->).
        rewrite after_after. eexists. split; [|reflexivity].
        by repeat constructor.
    + eexists. split; [|reflexivity]. by repeat constructor.
Qed.

(** Its result depends on the answers of the pass only. *)
Lemma askDecision_result (env : IterEnv num) i i' remaining (w w' : World num) :
  stopAt env = None →
  (askDecision env i remaining w).1 = (askDecision env i' remaining w').1.
Proof.
  intros Hs. revert w w'. induction remaining as [|r IH]; intros w w'; [done|].
  cbn [askDecision]. rewrite !bind_run. cbn [get].
  rewrite !bind_run, !emit_after, !bind_run, !arrive_first by done.
  destruct (attempts env (MAX_RETRIES - S r)) as [message|data]; [|done].
  destruct (MAX_RETRIES <=? S (MAX_RETRIES - S r)); [done|].
  unfold updateStatus. rewrite !bind_run, !emit_after, !bind_run, !emit_after.
  apply IH.
Qed.

Lemma askDecision_quiet (env : IterEnv num) iteration (w : World num) :
  stopAt env = None →
  ∃ es, Forall noAction es
    ∧ askDecision env iteration MAX_RETRIES w = (answerOf env, after w es).
Proof.
  intros Hs.
  destruct (askDecision_world env iteration MAX_RETRIES w Hs) as (es & Hes & Hw).
  exists es. split; [done|].
  rewrite (surjective_pairing (askDecision env iteration MAX_RETRIES w)).
  rewrite Hw. f_equal. by apply askDecision_result.
Qed.

Definition entrySuccess (a : gmap string (jsval num)) : HistoryEntry num :=
  {| entryAction := a !! "action"; entrySelector := a !! "selector";
     entryResult := "success" |}.

Definition entryFailed (a : gmap string (jsval num)) (message : string)
  : HistoryEntry num :=
  {| entryAction := Js.or (a !! "action") (Some (JStr "unknown"));
     entrySelector := a !! "selector";
     entryResult := "failed: " +:+ message |}.

(** The execution step of a pass without stop request: the action is
    sent to the page once; on success the step cursor advances and the
    counter is returned as it is, on failure the counter is returned
    decremented.  Either way one history entry is pushed and nothing is
    thrown. *)
Lemma executeStep_quiet (env : IterEnv num) iteration a (w : World num) :
  stopAt env = None →
  ∃ w',
    executeStep env iteration a w
    = (Ok (match exec env with Ok _ => iteration | Throw _ => iteration - 1 end), w')
    ∧ state w' = match exec env with
                 | Ok _ => stepped (pushed (entrySuccess a) (state w))
                 | Throw message => pushed (entryFailed a message) (state w)
                 end
    ∧ executed w' = executed w ++ [a].
Proof.
  intros Hs. unfold executeStep, updateStatus, recordOutcome, advanceStep.
  assert (Hpre : ∀ w0 : World num,
    ∃ es, Forall noAction es ∧
      ((if Js.truthy (a !! "reasoning")
        then emit (Overlay (Js.toString (a !! "reasoning"))) else ret tt) w0
       = (Ok tt, after w0 es))).
  { intros w0. destruct (Js.truthy (a !! "reasoning")).
    - exists [Overlay (Js.toString (a !! "reasoning"))]. by repeat constructor.
    - exists []. by rewrite after_nil. }
  destruct (Hpre w) as (es & Hes & Hrun).
  rewrite bind_run, Hrun, bind_run, emit_after, bind_run, emit_after, bind_run,
    arrive_quiet by done.
  apply omap_nil_noAction in Hes.
  destruct (exec env) as [[]|message].
  - rewrite bind_run. cbn [get]. rewrite bind_run, emit_after, bind_run,
      arrive_quiet by done.
    eexists. split; [reflexivity|]. split; [done|].
    unfold executed, after, modify. cbn [log state snd].
    rewrite !omap_app, Hes. simpl. by rewrite !app_nil_r.
  - eexists. split; [reflexivity|]. split; [done|].
    unfold executed, after, modify. cbn [log state snd].
    rewrite !omap_app, Hes. simpl. by rewrite !app_nil_r.
Qed.

Lemma perceive_quiet (env : IterEnv num) (w : World num) :
  quiet env → hasTab (state w) = true →
  perceive env w
  = (Ok tt, after w [Status "Taking screenshot..." true; Status "Thinking..." true]).
Proof.
  intros ([shot Hc] & [url Hp] & Hi & Hs) Ht.
  unfold perceive, updateStatus.
  rewrite bind_run, emit_after, bind_run. cbn [get after state].
  rewrite Ht, Hc, Hp, Hi.
  repeat first [ rewrite bind_run | rewrite arrive_quiet by done
               | progress cbn [ret settle] ].
  by rewrite emit_after, after_after.
Qed.

(** The last phase of a quiet pass for an answer that carries an action:
    [break] if the response text announces completion, otherwise the
    execution step and the pause. *)
Lemma actOn_quiet (env : IterEnv num) iteration d a (w : World num) :
  stopAt env = None → action d = Some a →
  ∃ w1, state w1 = state w ∧ executed w1 = executed w ∧
    actOn env iteration (Some d) w
    = if isDone (default "" (response d)) (Some a)
      then (Ok (Break iteration), w1)
      else match executeStep env iteration a w1 with
           | (Ok iteration', w2) =>
               (Ok (Continue iteration'), after w2 [Sleep 1500])
           | (Throw e, w2) => (Throw e, w2)
           end.
Proof.
  intros Hs Ha. unfold actOn. rewrite Ha.
  set (text := default "" (response d)).
  assert (Hpop : ∃ es, Forall noAction es ∧
    (if negb (String.eqb text "")
     then emit (Popup text) ;; emit (Overlay (overlayText text))
     else ret tt) w = (Ok tt, after w es)).
  { destruct (negb (String.eqb text "")).
    - exists [Popup text; Overlay (overlayText text)].
      split; [by repeat constructor|].
      by rewrite bind_run, !emit_after, after_after.
    - exists []. by rewrite after_nil. }
  destruct Hpop as (es & Hes & Hrun). apply omap_nil_noAction in Hes.
  exists (after w es). split; [done|]. split.
  { unfold executed, after. cbn [log]. by rewrite omap_app, Hes, app_nil_r. }
  rewrite bind_run, Hrun.
  destruct (isDone text (Some a)); [done|].
  rewrite bind_run.
  destruct (executeStep env iteration a (after w es)) as [[i|e] w2]; [|done].
  by rewrite bind_run, emit_after, bind_run, arrive_quiet.
Qed.

Lemma loopBody_quiet (env : IterEnv num) iteration (w : World num) :
  quiet env → hasTab (state w) = true →
  ∃ w1, state w1 = state w ∧ executed w1 = executed w ∧
    loopBody env iteration w
    = match answerOf env with
      | Ok answer => actOn env iteration answer w1
      | Throw e => (Throw e, w1)
      end.
Proof.
  intros Hq Ht. pose proof Hq as (_ & _ & _ & Hs).
  unfold loopBody. rewrite bind_run, perceive_quiet, bind_run by done.
  destruct (askDecision_quiet env iteration
              (after w [Status "Taking screenshot..." true; Status "Thinking..." true]) Hs)
    as (es & Hes & ->).
  apply omap_nil_noAction in Hes. rewrite after_after.
  exists (after w ([Status "Taking screenshot..." true; Status "Thinking..." true] ++ es)).
  split; [done|]. split.
  - unfold executed, after. cbn [log]. rewrite omap_app, omap_app, Hes.
    simpl. by rewrite app_nil_r.
  - by destruct (answerOf env).
Qed.

(** The completion phrases of the loop's check. *)
Definition announced (d : Decision num) : bool :=
  let text := Str.toLowerCase (default "" (response d)) in
  Str.includes text "task complete" || Str.includes text "finished".

Lemma isDone_action (d : Decision num) (a : gmap string (jsval num)) :
  isDone (default "" (response d)) (Some a) = announced d.
Proof.
  unfold isDone, announced. cbn.
  by rewrite orb_false_r.
Qed.

Lemma agentLoop_pass (env : IterEnv num) rest iteration (w : World num) :
  running (state w) = true → iteration < MAX_ITERATIONS →
  agentLoop (env :: rest) iteration w
  = match loopBody env (S iteration) w with
    | (Ok (Continue iteration'), w') => agentLoop rest iteration' w'
    | (Ok (Break iteration'), w') => (Exited iteration', w')
    | (Throw message, w') => (Thrown message, w')
    end.
Proof.
  intros Hr Hi. cbn [agentLoop]. rewrite Hr.
  by destruct (Nat.ltb_spec iteration MAX_ITERATIONS); [|lia].
Qed.

(** A quiet pass whose answer carries an action. *)
Lemma loopBody_action (env : IterEnv num) iteration d a (w : World num) :
  quiet env → hasTab (state w) = true →
  answerOf env = Ok (Some d) → action d = Some a →
  ∃ w',
    loopBody env iteration w
    = (Ok (if announced d then Break iteration
           else Continue (match exec env with
                          | Ok _ => iteration
                          | Throw _ => iteration - 1
                          end)), w')
    ∧ executed w' = executed w ++ (if announced d then [] else [a])
    ∧ state w' = (if announced d then state w
                  else match exec env with
                       | Ok _ => stepped (pushed (entrySuccess a) (state w))
                       | Throw m => pushed (entryFailed a m) (state w)
                       end).
Proof.
  intros Hq Ht Hans Ha. pose proof Hq as (_ & _ & _ & Hs).
  destruct (loopBody_quiet env iteration w Hq Ht) as (w1 & Hs1 & He1 & ->).
  rewrite Hans.
  destruct (actOn_quiet env iteration d a w1 Hs Ha) as (w2 & Hs2 & He2 & ->).
  rewrite isDone_action. destruct (announced d).
  - exists w2. rewrite app_nil_r. split_and!; congruence.
  - destruct (executeStep_quiet env iteration a w2 Hs) as (w3 & -> & Hs3 & He3).
    exists (after w3 [Sleep 1500]). split; [done|].
    split.
    + unfold executed, after in *. cbn [log]. rewrite omap_app. simpl.
      rewrite app_nil_r. congruence.
    + cbn [after state]. rewrite Hs3, Hs2, Hs1. done.
Qed.

(** C1, as the loop decides it: for an answer that carries an action,
    whether the pass ends the run or executes the action depends on the
    response text alone.  If the text contains a completion phrase the
    loop is left and nothing is executed; otherwise the action is sent to
    the page and the loop goes on.  A [done] flag is not read, neither
    beside the action nor as a property of it: the statement holds for
    every value of both.  So the answer that the server builds when the
    model has ended its turn, [done: true] beside the action [done], ends
    the run only if its text happens to hold a completion phrase;
    otherwise the worker sends the action [done] to the page. *)
Theorem completion_decided_by_text
  (env : IterEnv num) rest iteration d a (w : World num) :
  quiet env → running (state w) = true → hasTab (state w) = true →
  iteration < MAX_ITERATIONS →
  answerOf env = Ok (Some d) → action d = Some a →
  (announced d = true →
     ∃ w', agentLoop (env :: rest) iteration w = (Exited (S iteration), w')
           ∧ executed w' = executed w)
  ∧ (announced d = false →
     ∃ iteration' w',
       loopBody env (S iteration) w = (Ok (Continue iteration'), w')
       ∧ executed w' = executed w ++ [a]
       ∧ agentLoop (env :: rest) iteration w = agentLoop rest iteration' w').
Proof.
  intros Hq Hr Ht Hi Hans Ha.
  destruct (loopBody_action env (S iteration) d a w Hq Ht Hans Ha)
    as (w' & Hbody & Hex & _).
  rewrite agentLoop_pass, Hbody by done.
  split; intros Hd; rewrite Hd in *.
  - exists w'. by rewrite app_nil_r in Hex.
  - by eexists _, w'.
Qed.

(** A pass that executes an action. *)
Definition acts (env : IterEnv num) : Prop :=
  quiet env ∧ ∃ d a, answerOf env = Ok (Some d) ∧ action d = Some a
                     ∧ announced d = false.

Definition actionFails (env : IterEnv num) : Prop :=
  acts env ∧ ∃ message, exec env = Throw message.

Definition actionSucceeds (env : IterEnv num) : Prop :=
  acts env ∧ exec env = Ok tt.


(** The decision requests made, counted. *)
Definition requests (w : World num) : nat :=
  length (omap (λ e, match e with AskDecision i h => Some i | _ => None end)
               (log w)).

Lemma askDecision_exhausted (env : IterEnv num) iteration (w : World num)
  (m0 m1 m2 : string) :
  stopAt env = None →
  attempts env 0 = AttemptFailed m0 → attempts env 1 = AttemptFailed m1 →
  attempts env 2 = AttemptFailed m2 →
  askDecision env iteration MAX_RETRIES w
  = (Throw ("API failed after 3 attempts: " +:+ m2),
     after w [ AskDecision iteration (lastFive (actionHistory (state w)));
               Status "API error, retrying..." true; Sleep 2000;
               AskDecision iteration (lastFive (actionHistory (state w)));
               Status "API error, retrying..." true; Sleep 4000;
               AskDecision iteration (lastFive (actionHistory (state w))) ]).
Proof.
  intros Hs H0 H1 H2.
  assert (Hp : pretty MAX_RETRIES = "3") by (by vm_compute).
  change MAX_RETRIES with 3 in Hp. unfold MAX_RETRIES at 1.
  cbn [askDecision]. change MAX_RETRIES with 3.
  change (3 - 3) with 0. change (3 - 2) with 1. change (3 - 1) with 2.
  unfold updateStatus.
  repeat first [ rewrite bind_run | rewrite emit_after
               | rewrite arrive_first by done
               | rewrite H0 | rewrite H1 | rewrite H2
               | progress cbn [get Nat.leb state after throw] ].
  rewrite !after_after, Hp. reflexivity.
Qed.

(** A request that fails once, or twice, and then succeeds: the pauses
    are 2000 ms, and 2000 then 4000 ms. *)
Lemma askDecision_second_attempt (env : IterEnv num) iteration (w : World num)
  (m0 : string) data :
  stopAt env = None →
  attempts env 0 = AttemptFailed m0 → attempts env 1 = AttemptData data →
  askDecision env iteration MAX_RETRIES w
  = (Ok data,
     after w [ AskDecision iteration (lastFive (actionHistory (state w)));
               Status "API error, retrying..." true; Sleep 2000;
               AskDecision iteration (lastFive (actionHistory (state w))) ]).
Proof.
  intros Hs H0 H1. unfold MAX_RETRIES at 1.
  cbn [askDecision]. change MAX_RETRIES with 3.
  change (3 - 3) with 0. change (3 - 2) with 1. change (3 - 1) with 2.
  unfold updateStatus.
  repeat first [ rewrite bind_run | rewrite emit_after
               | rewrite arrive_first by done
               | rewrite H0 | rewrite H1
               | progress cbn [get Nat.leb state after ret] ].
  by rewrite !after_after.
Qed.

Lemma askDecision_third_attempt (env : IterEnv num) iteration (w : World num)
  (m0 m1 : string) data :
  stopAt env = None →
  attempts env 0 = AttemptFailed m0 → attempts env 1 = AttemptFailed m1 →
  attempts env 2 = AttemptData data →
  askDecision env iteration MAX_RETRIES w
  = (Ok data,
     after w [ AskDecision iteration (lastFive (actionHistory (state w)));
               Status "API error, retrying..." true; Sleep 2000;
               AskDecision iteration (lastFive (actionHistory (state w)));
               Status "API error, retrying..." true; Sleep 4000;
               AskDecision iteration (lastFive (actionHistory (state w))) ]).
Proof.
  intros Hs H0 H1 H2. unfold MAX_RETRIES at 1.
  cbn [askDecision]. change MAX_RETRIES with 3.
  change (3 - 3) with 0. change (3 - 2) with 1. change (3 - 1) with 2.
  unfold updateStatus.
  repeat first [ rewrite bind_run | rewrite emit_after
               | rewrite arrive_first by done
               | rewrite H0 | rewrite H1 | rewrite H2
               | progress cbn [get Nat.leb state after ret] ].
  by rewrite !after_after.
Qed.

(** C3, as the loop retries: when the three decision requests of a pass
    all fail, the worker has paused 2000 ms after the first failure and
    4000 ms after the second and not at all after the third, because the
    test [retries >= MAX_RETRIES] comes before the pause; the pause of
    8 s that the comment [2s, 4s, 8s] on that line announces is never
    made.  The error [API failed after 3 attempts: ...] leaves the loop in
    that same pass, is shown to the operator, and the run state is torn
    down. *)
Theorem decision_retries_exhausted
  (env : IterEnv num) rest iteration (w : World num) (m0 m1 m2 : string) :
  quiet env → running (state w) = true → hasTab (state w) = true →
  iteration < MAX_ITERATIONS →
  attempts env 0 = AttemptFailed m0 → attempts env 1 = AttemptFailed m1 →
  attempts env 2 = AttemptFailed m2 →
  let message := "API failed after 3 attempts: " +:+ m2 in
  ∃ w1 w',
    agentLoop (env :: rest) iteration w = (Thrown message, w1)
    ∧ requests w1 = requests w + 3
    ∧ sleeps w1 = sleeps w ++ [2000; 4000]%Z
    ∧ conclude (agentLoop (env :: rest) iteration w) = (Resolved, w')
    ∧ Popup ("Error: " +:+ message) ∈ log w'
    ∧ tornDown (state w').
Proof.
  intros Hq Hr Ht Hi H0 H1 H2 message.
  pose proof Hq as (_ & _ & _ & Hs).
  assert (Hbody : loopBody env (S iteration) w
    = (Throw message,
       after w ([Status "Taking screenshot..." true; Status "Thinking..." true]
         ++ [ AskDecision (S iteration) (lastFive (actionHistory (state w)));
              Status "API error, retrying..." true; Sleep 2000;
              AskDecision (S iteration) (lastFive (actionHistory (state w)));
              Status "API error, retrying..." true; Sleep 4000;
              AskDecision (S iteration) (lastFive (actionHistory (state w))) ]))).
  { unfold loopBody. rewrite bind_run, perceive_quiet, bind_run by done.
    rewrite (askDecision_exhausted env (S iteration) _ m0 m1 m2) by done.
    by rewrite after_after. }
  rewrite agentLoop_pass, Hbody by done.
  eexists _, _. split; [reflexivity|].
  split; [|split; [|split; [reflexivity|split]]].
  - unfold requests, after. cbn [log]. rewrite omap_app, length_app. done.
  - unfold sleeps, after. cbn [log]. by rewrite omap_app.
  - unfold stopAgent, emit, modify, get. rewrite !bind_run. cbn.
    destruct (hasTab _); cbn; set_solver.
  - apply stopAgent_tornDown.
Qed.
End AgentPasses.


(** * Two calls of [runAgent] in flight *)

Section AgentInterleaving.
Import Agent.
Context {num : Type} `{JsNumber num}.

(** C5: the entry guard does not keep runs apart when a stop and a new
    start are handled while a call is suspended in the pause of its loop.
    The stop unsets [running], so the new start passes the guard and sets
    it again; once the new call is in its loop, the suspended one finds
    [running] set when its pause ends and goes on: it executes the action
    of its next pass, under the goal of the new run, and stays in its
    loop.  Two loops are then running on the one state. *)
Theorem restart_revives_stopped_run
    (goalText token : string) (pre : PreEnv) (envs : list (IterEnv num))
    (first : Suspended num) (env : IterEnv num) (rest : list (IterEnv num))
    (d : Decision num) (a : gmap string (jsval num)) (j : nat)
    (w w2 : World num) :
  answers first = env :: rest → counter first < MAX_ITERATIONS →
  quiet env → answerOf env = Ok (Some d) → action d = Some a →
  announced d = false →
  (stopThenRestart goalText token pre envs first w).1 = (StillLooping j, w2) →
  running (state (stopAgent w).2) = false
  ∧ running (state w2) = true
  ∧ ∃ iteration' w3,
      (stopThenRestart goalText token pre envs first w).2
      = agentLoop rest iteration' w3
      ∧ executed w3 = executed w2 ++ [a]
      ∧ running (state w3) = true
      ∧ goal (state w3) = goal (state w2).
Proof.
  intros Hanswers Hcounter Hq Hans Ha Hann.
  unfold stopThenRestart. cbn [fst snd]. intros Hsecond.
  split; [apply stopAgent_tornDown|].
  destruct (runAgent_still_looping _ _ _ _ _ _ _ Hsecond) as [Hr Htab].
  split; [done|].
  rewrite Hsecond. cbn [snd]. unfold resume. rewrite Hanswers.
  destruct (loopBody_action env (S (counter first)) d a w2 Hq Htab Hans Ha)
    as (w3 & Hbody & Hex & Hstate).
  rewrite Hann in Hbody, Hex, Hstate.
  rewrite agentLoop_pass, Hbody by done.
  eexists _, w3. split; [reflexivity|]. split; [done|].
  rewrite Hstate. by destruct (exec env).
Qed.
End AgentInterleaving.

Section AgentExamples.
Import Agent.

Definition idle : World Z := {| state := initialState; log := [] |}.

(** A run in progress on tab 7. *)
Definition looping : World Z := {|
  state := {| running := true; goal := Some "login to the site";
              authToken := Some "token"; workflowId := Some 3%Z;
              tabId := Some 7%Z; messageHistory := [];
              lastMouseX := 0; lastMouseY := 0;
              actionHistory := []; currentStep := 0 |};
  log := [];
|}.

(** Answers of a pass in which perception works, the decision source
    answers [d] at once and the page answers [result]. *)
Definition pass (d : Decision Z) (result : Result unit) : IterEnv Z := {|
  capture := Ok "data:image/png;base64,AAAA";
  pageInfo := Ok "https://site.example/login";
  inspect := Ok tt;
  attempts := λ _, AttemptData (Some d);
  exec := result;
  stopAt := None;
|}.

(** A pass in which every decision request fails. *)
Definition offline : IterEnv Z := {|
  capture := Ok "data:image/png;base64,AAAA";
  pageInfo := Ok "https://site.example/login";
  inspect := Ok tt;
  attempts := λ _, AttemptFailed "Failed to fetch";
  exec := Ok tt;
  stopAt := None;
|}.

Definition clickLogin : gmap string (jsval Z) :=
  {[ "action" := JStr "click"; "selector" := JStr "#login" ]}.

Definition clicking : Decision Z :=
  toolUseData clickLogin "left_click" (Some "I will click the login button.").

Lemma quiet_pass d result : quiet (pass d result).
Proof. unfold quiet. simpl. split_and!; eauto. Qed.

Lemma quiet_offline : quiet offline.
Proof. unfold quiet. simpl. split_and!; eauto. Qed.

(** The [end_turn] answer with a text block without completion phrase
    carries [done: true] and the action [done]; the pass sends that
    action to the page and the loop goes on. *)
Lemma done_flag_action_is_executed :
  let d := endTurnData (Some "All steps are completed.") in
  done d = Some true
  ∧ action d = Some {[ "action" := JStr "done" ]}
  ∧ ∃ w',
      agentLoop [pass d (Throw "Unknown action: done")] 0 looping
      = (Pending 0, w')
      ∧ executed w' = [ {[ "action" := JStr "done" ]} ]
      ∧ running (state w') = true
      ∧ ∀ i v, agentLoop [pass d (Throw "Unknown action: done")] 0 looping
               ≠ (Exited i, v).
Proof.
  split; [reflexivity|]. split; [reflexivity|].
  eexists. split; [vm_compute; reflexivity|].
  split; [reflexivity|]. split; [reflexivity|].
  intros i v Heq. vm_compute in Heq. discriminate.
Qed.

(** The page executor rejects the action [done]. *)
Lemma executeAction_done_unknown (dom : Executor.Dom Z) hitTest :
  Executor.executeAction hitTest {[ "action" := JStr "done" ]} dom
  = (Throw "Unknown action: done", dom).
Proof. reflexivity. Qed.

Lemma completion_decided_by_text_witness :
  (announced (endTurnData (num:=Z) None) = true
   ∧ ∃ w', agentLoop [pass (endTurnData None) (Ok tt)] 0 looping
           = (Exited 1, w')
           ∧ executed w' = executed looping)
  ∧ let d := endTurnData (Some "All steps are completed.") in
    let env := pass d (Throw "Unknown action: done") in
    done d = Some true
    ∧ announced d = false
    ∧ ∃ iteration' w',
        loopBody env 1 looping = (Ok (Continue iteration'), w')
        ∧ executed w' = executed looping ++ [ {[ "action" := JStr "done" ]} ]
        ∧ agentLoop [env] 0 looping = agentLoop [] iteration' w'.
Proof.
  split.
  - split; [reflexivity|].
    apply (completion_decided_by_text (pass (endTurnData None) (Ok tt)) [] 0
             (endTurnData None) {[ "action" := JStr "done" ]} looping);
      [apply quiet_pass | reflexivity | reflexivity | unfold MAX_ITERATIONS; lia
      | reflexivity | reflexivity | reflexivity].
  - intros d env. split; [reflexivity|]. split; [reflexivity|].
    apply (completion_decided_by_text env [] 0 d {[ "action" := JStr "done" ]}
             looping);
      [apply quiet_pass | reflexivity | reflexivity | unfold MAX_ITERATIONS; lia
      | reflexivity | reflexivity | reflexivity].
Defined.


(** With three failed requests the pauses are 2000 and 4000 ms; there is
    no pause of 8000 ms. *)
Lemma no_third_backoff :
  ∃ w1,
    agentLoop [offline] 0 looping
    = (Thrown "API failed after 3 attempts: Failed to fetch", w1)
    ∧ sleeps w1 = [2000; 4000]%Z
    ∧ sleeps w1 ≠ [2000; 4000; 8000]%Z
    ∧ Sleep 8000 ∉ log w1.
Proof.
  eexists. split; [vm_compute; reflexivity|].
  split; [reflexivity|]. split; [discriminate|].
  cbn [log]. rewrite !not_elem_of_cons. split_and!; try discriminate.
  apply not_elem_of_nil.
Qed.

Lemma decision_retries_exhausted_witness :
  ∃ w1 w',
    agentLoop [offline] 0 looping
    = (Thrown "API failed after 3 attempts: Failed to fetch", w1)
    ∧ requests w1 = requests looping + 3
    ∧ sleeps w1 = sleeps looping ++ [2000; 4000]%Z
    ∧ conclude (agentLoop [offline] 0 looping) = (Resolved, w')
    ∧ Popup "Error: API failed after 3 attempts: Failed to fetch" ∈ log w'
    ∧ tornDown (state w').
Proof.
  apply (decision_retries_exhausted offline [] 0 looping
           "Failed to fetch" "Failed to fetch" "Failed to fetch");
    [apply quiet_offline | reflexivity | reflexivity
    | unfold MAX_ITERATIONS; lia | reflexivity | reflexivity | reflexivity].
Defined.

(** The active tab shows a browser-internal page. *)
Definition onInternalPage : PreEnv := {|
  activeTab := Some {| tabIdent := Some 7%Z; tabUrl := Some "chrome://extensions" |};
  createWorkflow := Ok 3%Z;
  contentScriptLoaded := true;
  injectOk := true;
|}.

Lemma rejected_start_keeps_running_witness :
  ∃ w',
    runAgent "login to the site" "token" onInternalPage [] idle
    = (Rejected "Cannot automate on browser internal pages. Please navigate to a regular website (http:// or https://)", w')
    ∧ running (state w') = true
    ∧ goal (state w') = Some "login to the site".
Proof.
  eexists. split; [vm_compute; reflexivity|].
  eapply (rejected_start_keeps_running "login to the site" "token"
            onInternalPage [] idle); [reflexivity|].
  vm_compute. reflexivity.
Defined.

(** The next start is then refused although no loop is running. *)
Lemma start_after_rejected_start :
  ∃ w',
    runAgent "login to the site" "token" onInternalPage [] idle
    = (Rejected "Cannot automate on browser internal pages. Please navigate to a regular website (http:// or https://)", w')
    ∧ runAgent "login to the site" "token" onInternalPage [] w'
      = (Rejected "Agent is already running", w').
Proof. eexists. split; vm_compute; reflexivity. Qed.

Lemma start_while_running_rejected_here :
  runAgent "add a listing" "token" onInternalPage [] looping
  = (Rejected "Agent is already running", looping).
Proof. reflexivity. Qed.

Definition onSite : PreEnv := {|
  activeTab := Some {| tabIdent := Some 7%Z;
                       tabUrl := Some "https://site.example/login" |};
  createWorkflow := Ok 3%Z;
  contentScriptLoaded := true;
  injectOk := true;
|}.

(** The run on tab 7, suspended in the pause of its first pass, with one
    more answer to come. *)
Definition firstCall : Suspended Z := {|
  counter := 1;
  answers := [pass clicking (Ok tt)];
|}.

Lemma restart_revives_stopped_run_witness :
  ∃ w2,
    (stopThenRestart "add a listing" "token" onSite [pass clicking (Ok tt)]
       firstCall looping).1 = (StillLooping 1, w2)
    ∧ running (state (stopAgent looping).2) = false
    ∧ running (state w2) = true
    ∧ ∃ iteration' w3,
        (stopThenRestart "add a listing" "token" onSite [pass clicking (Ok tt)]
           firstCall looping).2 = agentLoop [] iteration' w3
        ∧ executed w3 = executed w2 ++ [clickLogin]
        ∧ running (state w3) = true
        ∧ goal (state w3) = goal (state w2).
Proof.
  eexists. split; [vm_compute; reflexivity|].
  apply (restart_revives_stopped_run "add a listing" "token" onSite
           [pass clicking (Ok tt)] firstCall (pass clicking (Ok tt)) []
           clicking clickLogin 1 looping);
    [reflexivity | unfold MAX_ITERATIONS; simpl; lia | apply quiet_pass
    | reflexivity | reflexivity | reflexivity | vm_compute; reflexivity].
Defined.

Lemma history_never_exceeds_ten_witness :
  length (actionHistory (state idle)) ≤ 10
  ∧ length (actionHistory (state
      (runAgent "login to the site" "token" onSite
         (replicate 12 (pass clicking (Ok tt))) idle).2)) ≤ 10.
Proof.
  split; [simpl; lia|].
  apply (proj2 history_never_exceeds_ten). simpl. lia.
Defined.

(** After twelve successful passes the history holds exactly ten. *)
Lemma history_after_twelve_passes :
  (runAgent "login to the site" "token" onSite
     (replicate 12 (pass clicking (Ok tt))) idle).1 = StillLooping 12
  ∧ length (actionHistory (state
      (runAgent "login to the site" "token" onSite
         (replicate 12 (pass clicking (Ok tt))) idle).2)) = 10.
Proof. split; vm_compute; reflexivity. Qed.
End AgentExamples.


(** * The executor's primitives, one by one *)

Section ExecutorBehaviour.
Import Executor.
Context {num : Type} `{JsNumber num}.
Context (hitTest : option (jsval num) → option (jsval num) → Executor.Hit).

Lemma exec_bind_run {A B} (m : Exec A) (k : A → Exec B) (d : Dom num) :
  (m ≫= k) d = match m d return Result B * Dom num with
               | (Ok a, d') => k a d'
               | (Throw e, d') => (Throw e, d')
               end.
Proof. done. Qed.

(** The page with further operations logged. *)
Definition logged (d : Dom num) (new : list (DomOp num)) : Dom num :=
  {| elements := elements d; query := query d; clickables := clickables d;
     activeElement := activeElement d; validUrl := validUrl d;
     ops := ops d ++ new |}.

Lemma logged_nil (d : Dom num) : logged d [] = d.
Proof. destruct d. unfold logged. simpl. by rewrite app_nil_r. Qed.

Lemma logged_logged (d : Dom num) l l' : logged (logged d l) l' = logged d (l ++ l').
Proof. unfold logged. simpl. by rewrite app_assoc. Qed.

Lemma emit_logged op (d : Dom num) : emit op d = (Ok tt, logged d [op]).
Proof. done. Qed.

Lemma wait_logged ms (d : Dom num) :
  wait ms d = (Ok tt, logged d [Wait (Some (JNum (num_of_Z ms)))]).
Proof. done. Qed.

(** The events of typing [text] into [el] one character at a time. *)
Fixpoint keystrokes (el : nat) (text : string) : list (DomOp num) :=
  match text with
  | EmptyString => []
  | String _ rest =>
      DispatchEvent el "input" :: Wait (Some (JNum (num_of_Z 50)))
      :: keystrokes el rest
  end.

Lemma typeChars_run el text (d : Dom num) e :
  elements d !! el = Some e →
  ∃ d',
    typeChars el text d = (Ok tt, d')
    ∧ elements d' = <[el := setValue (value e +:+ text) e]> (elements d)
    ∧ query d' = query d ∧ clickables d' = clickables d
    ∧ activeElement d' = activeElement d
    ∧ ops d' = ops d ++ keystrokes el text.
Proof.
  revert d e. induction text as [|c text IH]; intros d e He.
  - exists d. cbn [typeChars ret keystrokes].
    rewrite Str.app_nil_r, app_nil_r. split_and!; try done.
    destruct e. unfold setValue. cbn. by rewrite insert_id.
  - cbn [typeChars].
    rewrite exec_bind_run. cbn [updateElement].
    rewrite exec_bind_run, emit_logged, exec_bind_run, wait_logged.
    edestruct (IH (logged (logged
                {| elements := alter (λ e0, setValue (value e0 +:+ String c "") e0) el (elements d);
                   query := query d; clickables := clickables d;
                   activeElement := activeElement d; validUrl := validUrl d;
                   ops := ops d |}
                [DispatchEvent el "input"]) [Wait (Some (JNum (num_of_Z 50)))]))
      as (d' & Hrun & Hel & Hq & Hc & Ha & Hops).
    { cbn [logged elements]. rewrite lookup_alter_eq, He. reflexivity. }
    exists d'. rewrite Hrun. split; [done|].
    cbn [logged elements query clickables activeElement ops value setValue] in *.
    split_and!; try done.
    + rewrite Hel. rewrite Str.app_assoc, Str.app_cons, Str.app_nil_l.
      apply map_eq. intros i. destruct (decide (i = el)) as [->|Hne].
      * by rewrite !lookup_insert_eq.
      * by rewrite !lookup_insert_ne, lookup_alter_ne by done.
    + rewrite Hops. cbn [keystrokes]. by rewrite <- !app_assoc.
Qed.

Lemma take_all (v : string) : Str.take (String.length v) v = v.
Proof. induction v as [|c v IH]; simpl; [done|]. by rewrite IH. Qed.

Lemma drop_all (v : string) : Str.drop (String.length v) v = "".
Proof. induction v as [|c v IH]; simpl; done. Qed.

Lemma take_length (n : nat) (v : string) :
  n ≤ String.length v → String.length (Str.take n v) = n.
Proof.
  revert n. induction v as [|c v IH]; intros [|n] Hn; simpl in *; try lia.
  f_equal. apply IH. lia.
Qed.

Lemma drop_length (n : nat) (v : string) :
  String.length (Str.drop n v) = String.length v - n.
Proof.
  revert n. induction v as [|c v IH]; intros [|n]; simpl; done.
Qed.

Lemma alter_alter_lookup (f g : Element → Element) el (m : gmap nat Element) e :
  m !! el = Some e → alter g el (alter f el m) = <[el := g (f e)]> m.
Proof.
  intros He. apply map_eq. intros i. destruct (decide (i = el)) as [->|Hne].
  - by rewrite !lookup_alter_eq, lookup_insert_eq, He.
  - by rewrite !lookup_alter_ne, lookup_insert_ne by done.
Qed.

Lemma alter_lookup (f : Element → Element) el (m : gmap nat Element) e :
  m !! el = Some e → alter f el m = <[el := f e]> m.
Proof.
  intros He. apply map_eq. intros i. destruct (decide (i = el)) as [->|Hne].
  - by rewrite !lookup_alter_eq, lookup_insert_eq, He.
  - by rewrite !lookup_alter_ne, lookup_insert_ne by done.
Qed.

(** [typeText] on an element that exists, with a string. *)
Lemma typeText_run (selector : option (jsval num)) (s : string) (dom : Dom num)
    (el : nat) (e : Element) :
  query dom !! Js.toString selector = Some el →
  elements dom !! el = Some e →
  ∃ dom',
    typeText selector (Some (JStr s)) dom = (Ok tt, dom')
    ∧ elements dom' = <[el := setValue s e]> (elements dom)
    ∧ activeElement dom' = Some el
    ∧ ops dom' = ops dom
        ++ [ScrollIntoView el; Wait (Some (JNum (num_of_Z 300))); Focus el]
        ++ keystrokes el s ++ [DispatchEvent el "change"].
Proof.
  intros Hq He.
  unfold typeText. rewrite exec_bind_run. cbn [querySelector]. rewrite Hq.
  cbn [isText].
  rewrite exec_bind_run, emit_logged, exec_bind_run, wait_logged,
    exec_bind_run, emit_logged, exec_bind_run.
  cbn [setActive]. rewrite exec_bind_run. cbn [updateElement].
  rewrite exec_bind_run.
  edestruct (typeChars_run el s) as (d' & -> & Hel & _ & _ & Ha & Hops);
    [|rewrite emit_logged; eexists; split; [reflexivity|]].
  { cbn [logged elements]. by rewrite lookup_alter_eq, He. }
  cbn [logged elements activeElement ops value setValue] in *.
  split_and!.
  - rewrite Hel, Str.app_nil_l. rewrite (alter_lookup _ _ _ e He).
    by rewrite insert_insert_eq.
  - done.
  - rewrite Hops. by rewrite <- !app_assoc.
Qed.


(** [typeAtCursor] at a focused form control that has a selection. *)
Lemma typeAtCursor_selected (s : string) (dom : Dom num) (el : nat) (e : Element)
    (p q : nat) :
  activeElement dom = Some el → elements dom !! el = Some e →
  tag e ≠ OtherTag →
  selectionStart e = Some p → selectionEnd e = Some q →
  let cursorPos := offsetOr (Some p) (String.length (value e)) in
  let v := Str.take cursorPos (value e) +:+ s
           +:+ Str.drop (offsetOr (Some q) cursorPos) (value e) in
  ∃ dom',
    typeAtCursor (Some (JStr s)) dom = (Ok tt, dom')
    ∧ elements dom'
      = <[el := setSelection (cursorPos + String.length s) (setValue v e)]>
          (elements dom)
    ∧ ops dom' = ops dom ++ [DispatchEvent el "input"; DispatchEvent el "change"].
Proof.
  intros Ha He Htag Hp Hq cursorPos v.
  unfold typeAtCursor. cbn [isText]. rewrite Ha, He, Hp, Hq.
  fold cursorPos. fold v.
  assert (Hsel : assignSelection (num:=num) el e (cursorPos + String.length s)
                 = updateElement el (setSelection (cursorPos + String.length s))).
  { unfold assignSelection. rewrite Hp, Hq. by destruct (tag e). }
  rewrite Hsel.
  eexists.
  destruct (tag e) eqn:Etag; [| |done].
  all: rewrite exec_bind_run; cbn [updateElement];
    rewrite exec_bind_run; cbn [updateElement];
    rewrite exec_bind_run, !emit_logged.
  all: split; [reflexivity|].
  all: cbn [logged elements ops]; split.
  all: try (by rewrite (alter_alter_lookup _ _ _ _ e He)).
  all: by rewrite <- app_assoc.
Qed.

(** X2: [type_at_cursor] into a focused form control whose caret or
    selection starts after the first character replaces the selected
    range by the text: what precedes the selection and what follows it are
    kept, the caret ends up behind the inserted text, and one [input] and
    one [change] event are dispatched. *)
Theorem type_at_cursor_replaces_selection (action : gmap string (jsval num))
    (dom : Dom num) (el : nat) (e : Element) (s : string) (p q : nat) :
  action !! "action" = Some (JStr "type_at_cursor") →
  action !! "text" = Some (JStr s) →
  activeElement dom = Some el → elements dom !! el = Some e →
  tag e ≠ OtherTag →
  selectionStart e = Some p → selectionEnd e = Some q →
  0 < p → p ≤ q → q ≤ String.length (value e) →
  ∃ dom' v,
    executeAction hitTest action dom = (Ok tt, dom')
    ∧ v = Str.take p (value e) +:+ s +:+ Str.drop q (value e)
    ∧ String.length v + (q - p) = String.length (value e) + String.length s
    ∧ elements dom'
      = <[el := setSelection (p + String.length s) (setValue v e)]> (elements dom)
    ∧ ops dom' = ops dom ++ [DispatchEvent el "input"; DispatchEvent el "change"].
Proof.
  intros Hk Ht Ha He Htag Hp Hq Hp0 Hpq Hql.
  unfold executeAction. rewrite Hk. cbn -[typeAtCursor]. rewrite Ht.
  destruct (typeAtCursor_selected s dom el e p q Ha He Htag Hp Hq)
    as (dom' & Hrun & Hel & Hops).
  assert (Hop : offsetOr (Some p) (String.length (value e)) = p)
    by (destruct p; [lia|done]).
  assert (Hoq : offsetOr (Some q) p = q) by (destruct q; [lia|done]).
  rewrite Hop, Hoq in Hel.
  exists dom', (Str.take p (value e) +:+ s +:+ Str.drop q (value e)).
  split_and!; try done.
  rewrite !Str.length_app, take_length, drop_length; lia.
Qed.


(** The keyboard events of typing [text] at an element that is not a form
    control. *)
Fixpoint keyEvents (el : nat) (editable : bool) (text : string) : list (DomOp num) :=
  match text with
  | EmptyString => []
  | String c rest =>
      [ DispatchKey (Some el) "keydown" (String c "");
        DispatchKey (Some el) "keypress" (String c "") ]
      ++ (if editable then [InsertText (String c "")] else [])
      ++ [ DispatchKey (Some el) "keyup" (String c "");
           Wait (Some (JNum (num_of_Z 50))) ]
      ++ keyEvents el editable rest
  end.

Lemma keyChars_run el editable text (d : Dom num) :
  keyChars el editable text d = (Ok tt, logged d (keyEvents el editable text)).
Proof.
  revert d. induction text as [|c text IH]; intros d.
  - cbn [keyChars keyEvents ret]. by rewrite logged_nil.
  - cbn [keyChars keyEvents].
    rewrite exec_bind_run, emit_logged, exec_bind_run, emit_logged, exec_bind_run.
    destruct editable.
    + rewrite emit_logged, exec_bind_run, emit_logged, exec_bind_run, wait_logged,
        IH, !logged_logged. done.
    + cbn [ret]. rewrite exec_bind_run, emit_logged, exec_bind_run, wait_logged,
        IH, !logged_logged. done.
Qed.

(** The pieces of text inserted by [execCommand('insertText')]. *)
Definition insertedText (l : list (DomOp num)) : list string :=
  omap (λ op, match op with InsertText c => Some c | _ => None end) l.

(** X4: [type_at_cursor] at a focused element that is not a form control
    sends a key-down, key-press and key-up event per character and reports
    success.  Text is inserted only if the element is editable content;
    otherwise nothing is inserted anywhere, and in both cases no element's
    value changes. *)
Theorem type_at_cursor_outside_form_controls (action : gmap string (jsval num))
    (dom : Dom num) (el : nat) (e : Element) (s : string) :
  action !! "action" = Some (JStr "type_at_cursor") →
  action !! "text" = Some (JStr s) →
  activeElement dom = Some el → elements dom !! el = Some e →
  tag e = OtherTag →
  executeAction hitTest action dom
  = (Ok tt, logged dom (keyEvents el (isContentEditable e) s))
  ∧ length (insertedText (keyEvents el (isContentEditable e) s))
    = if isContentEditable e then String.length s else 0.
Proof.
  intros Hk Ht Ha He Htag. split.
  - unfold executeAction. rewrite Hk. cbn -[typeAtCursor]. rewrite Ht.
    unfold typeAtCursor. cbn [isText]. rewrite Ha, He, Htag.
    apply keyChars_run.
  - clear Hk Ht. unfold insertedText.
    induction s as [|c s IH]; [by destruct (isContentEditable e)|].
    cbn [keyEvents String.length].
    destruct (isContentEditable e); simpl; [f_equal|]; exact IH.
Qed.

(** Whether the trimmed text of clickable [el] contains [s], compared in
    lower case: the test of the loop in [clickByText]. *)
Definition textMatches (dom : Dom num) (s : string) (el : nat) : bool :=
  Str.includes
    (Str.toLowerCase (Str.trim (default "" (elements dom !! el ≫= textContent))))
    (Str.toLowerCase s).

Lemma clickFirstMatching_find (s : string) (candidates : list nat) (d : Dom num) :
  clickFirstMatching s candidates d
  = match List.find (textMatches d s) candidates with
    | Some el =>
        (Ok true, logged d [ScrollIntoView el; Wait (Some (JNum (num_of_Z 300)));
                            Click el])
    | None => (Ok false, d)
    end.
Proof.
  induction candidates as [|el rest IH]; [done|].
  cbn [clickFirstMatching List.find]. rewrite exec_bind_run. cbn [getElement].
  unfold textMatches at 1.
  destruct (Str.includes _ _).
  - by rewrite exec_bind_run, emit_logged, exec_bind_run, wait_logged,
      exec_bind_run, emit_logged, !logged_logged.
  - apply IH.
Qed.


(** The action names the executor knows. *)
Definition knownKinds : list string :=
  [ "click"; "type"; "scroll"; "navigate"; "upload"; "wait";
    "click_coordinates"; "type_at_cursor"; "key_press"; "mouse_move"; "noop";
    "click_text" ].

Lemma executeAction_unknown_name (action : gmap string (jsval num))
    (dom : Dom num) (name : string) :
  action !! "action" = Some (JStr name) → name ∉ knownKinds →
  executeAction hitTest action dom = (Throw ("Unknown action: " +:+ name), dom).
Proof.
  intros Ha Hk. unfold executeAction. rewrite Ha.
  assert (Hne : ∀ k, k ∈ knownKinds → String.eqb name k = false).
  { intros k Hin. apply String.eqb_neq. by intros ->. }
  unfold knownKinds in Hne.
  rewrite !Hne by set_solver. done.
Qed.

(** X6: an action whose name is missing, is not a string, or is none of
    the twelve names of the executor is rejected with
    [Unknown action: <name>], and the page is left as it was. *)
Theorem unknown_action_rejected (action : gmap string (jsval num)) (dom : Dom num) :
  (∀ kind, kind ∈ knownKinds → action !! "action" ≠ Some (JStr kind)) →
  executeAction hitTest action dom
  = (Throw ("Unknown action: " +:+ Js.toString (action !! "action")), dom).
Proof.
  intros Hk.
  destruct (action !! "action") as [[| | |kind| |]|] eqn:Ha.
  4:{ apply executeAction_unknown_name; [done|]. intros Hin. by apply (Hk kind). }
  all: unfold executeAction; by rewrite Ha.
Qed.

(** Whether [elementFromPoint(x, y)] throws: an argument that does not
    convert to a finite number. *)
Definition notFinite (x y : option (jsval num)) : bool :=
  notANumber x || notANumber y
  || match hitTest x y with NotFinite => true | Under _ => false end.

Lemma elementFromPoint_run (x y : option (jsval num)) (d : Dom num) :
  elementFromPoint hitTest x y d
  = if notFinite x y then (Throw nonFinite, d)
    else (Ok match hitTest x y with Under el => el | NotFinite => None end, d).
Proof.
  unfold elementFromPoint, notFinite.
  destruct (notANumber x || notANumber y); [done|].
  by destruct (hitTest x y).
Qed.

(** X7: the actions [scroll], [wait] and [noop] cannot fail, whatever
    their other properties are.  [navigate] fails exactly when its URL,
    converted to a string, does not parse, and [mouse_move] exactly when a
    coordinate does not convert to a finite number, as a missing one does
    not.  Such a failure leaves the page as it was; otherwise the action
    succeeds, changes no element and not the focus, and leaves at most two
    entries in the record of operations. *)
Theorem page_level_actions_outcome (action : gmap string (jsval num))
    (dom : Dom num) (kind : string) :
  action !! "action" = Some (JStr kind) →
  kind ∈ ["scroll"; "navigate"; "wait"; "noop"; "mouse_move"] →
  ∃ new,
    length new ≤ 2
    ∧ executeAction hitTest action dom
      = if String.eqb kind "navigate"
           && negb (validUrl dom (Js.toString (action !! "url")))
        then (Throw (invalidUrl (Js.toString (action !! "url"))), dom)
        else if String.eqb kind "mouse_move"
                && notFinite (action !! "x") (action !! "y")
        then (Throw nonFinite, dom)
        else (Ok tt, logged dom new).
Proof.
  intros Hk Hin. unfold executeAction. rewrite Hk.
  rewrite !elem_of_cons, elem_of_nil in Hin.
  destruct Hin as [->|[->|[->|[->|[->|[]]]]]]; cbn -[numberOr notFinite].
  - exists [ScrollTo (numberOr (action !! "x") 0) (numberOr (action !! "y") 0);
            Wait (Some (JNum (num_of_Z 500)))].
    split; [simpl; lia|].
    unfold scrollPage. by rewrite exec_bind_run, emit_logged, wait_logged,
      logged_logged.
  - exists [SetLocation (Js.toString (action !! "url"))]. split; [simpl; lia|].
    unfold navigate. by destruct (validUrl dom _).
  - exists [Wait (numberOr (action !! "duration") 1000)]. split; [simpl; lia|done].
  - exists []. split; [simpl; lia|by rewrite logged_nil].
  - unfold mouseMove. rewrite exec_bind_run, elementFromPoint_run.
    destruct (notFinite _ _); [exists []; split; [simpl; lia|done]|].
    destruct (hitTest _ _) as [|[el|]].
    + exists []. split; [simpl; lia|by rewrite logged_nil].
    + eexists [_]. split; [simpl; lia|by rewrite emit_logged].
    + exists []. split; [simpl; lia|by rewrite logged_nil].
Qed.


Lemma keyMap_values (k v : string) :
  Substitution.assoc k keyMap = Some v → v ≠ "".
Proof.
  unfold keyMap. cbn [Substitution.assoc].
  repeat (destruct (String.eqb _ k); [by intros [= <-]|]). done.
Qed.

End ExecutorBehaviour.

Section ExecutorBehaviourExamples.
Import Executor.

(** A [type] action for the input of [onePage]. *)
Definition typeAnn : gmap string (jsval Z) :=
  {[ "action" := JStr "type"; "selector" := JStr "#name"; "text" := JStr "Ann" ]}.


(** An input holding ["hello"] with the characters 2 to 4 selected, and
    the page on which it has the focus. *)
Definition helloInput : Element := {|
  tag := InputTag "text";
  value := "hello";
  selectionStart := Some 2;
  selectionEnd := Some 4;
  isContentEditable := false;
  textContent := None;
|}.

Definition focusedPage (e : Element) : Dom Z := {|
  elements := {[ 1 := e ]};
  query := {[ "#name" := 1 ]};
  clickables := [];
  activeElement := Some 1;
  validUrl := parses;
  ops := [];
|}.

Definition typeXY : gmap string (jsval Z) :=
  {[ "action" := JStr "type_at_cursor"; "text" := JStr "XY" ]}.

Lemma type_at_cursor_replaces_selection_witness :
  ∃ dom' v,
    executeAction nowhere typeXY (focusedPage helloInput) = (Ok tt, dom')
    ∧ v = Str.take 2 "hello" +:+ "XY" +:+ Str.drop 4 "hello"
    ∧ String.length v + (4 - 2) = String.length "hello" + String.length "XY"
    ∧ elements dom'
      = <[1 := setSelection (2 + String.length "XY") (setValue v helloInput)]>
          (elements (focusedPage helloInput))
    ∧ ops dom' = ops (focusedPage helloInput)
                 ++ [DispatchEvent 1 "input"; DispatchEvent 1 "change"].
Proof.
  exact (type_at_cursor_replaces_selection nowhere typeXY (focusedPage helloInput)
           1 helloInput "XY" 2 4 eq_refl eq_refl eq_refl eq_refl
           ltac:(discriminate) eq_refl eq_refl ltac:(lia) ltac:(lia)
           ltac:(simpl; lia)).
Defined.

(** The same input with the caret before the first character. *)
Definition caretAtStart : Element := {|
  tag := InputTag "text";
  value := "hello";
  selectionStart := Some 0;
  selectionEnd := Some 0;
  isContentEditable := false;
  textContent := None;
|}.

(** An email input holding ["ann"]: its type has no selection. *)
Definition emailInput : Element := {|
  tag := InputTag "email";
  value := "ann";
  selectionStart := None;
  selectionEnd := None;
  isContentEditable := false;
  textContent := None;
|}.


(** A focused paragraph that is not editable. *)
Definition paragraph : Element := {|
  tag := OtherTag;
  value := "";
  selectionStart := None;
  selectionEnd := None;
  isContentEditable := false;
  textContent := Some "Terms";
|}.

Lemma type_at_cursor_outside_form_controls_witness :
  executeAction nowhere typeXY (focusedPage paragraph)
  = (Ok tt, logged (focusedPage paragraph) (keyEvents 1 false "XY"))
  ∧ length (insertedText (num:=Z) (keyEvents 1 false "XY")) = 0.
Proof.
  exact (type_at_cursor_outside_form_controls nowhere typeXY
           (focusedPage paragraph) 1 paragraph "XY"
           eq_refl eq_refl eq_refl eq_refl eq_refl).
Defined.

(** A page with three links; the second and the third contain "sign". *)
Definition link (label : string) : Element := {|
  tag := OtherTag;
  value := "";
  selectionStart := None;
  selectionEnd := None;
  isContentEditable := false;
  textContent := Some label;
|}.

Definition linksPage : Dom Z := {|
  elements := {[ 1 := link " Home "; 2 := link " Sign In "; 3 := link "Sign up" ]};
  query := ∅;
  clickables := [1; 2; 3];
  activeElement := None;
  validUrl := parses;
  ops := [];
|}.

Definition clickSign : gmap string (jsval Z) :=
  {[ "action" := JStr "click_text"; "text" := JStr "SIGN" ]}.


Definition doneAction : gmap string (jsval Z) := {[ "action" := JStr "done" ]}.

Lemma unknown_action_rejected_witness :
  executeAction nowhere doneAction onePage
  = (Throw ("Unknown action: " +:+ Js.toString (doneAction !! "action")), onePage).
Proof.
  apply (unknown_action_rejected nowhere doneAction onePage).
  intros kind Hin. unfold knownKinds in Hin.
  rewrite !elem_of_cons, elem_of_nil in Hin.
  repeat (destruct Hin as [->|Hin]; [discriminate|]). done.
Defined.

(** A [navigate] action without a URL, and a [mouse_move] action without
    coordinates. *)
Definition navigateNowhere : gmap string (jsval Z) :=
  {[ "action" := JStr "navigate" ]}.

Definition moveNowhere : gmap string (jsval Z) :=
  {[ "action" := JStr "mouse_move" ]}.

Lemma page_level_actions_outcome_witness :
  (∃ new,
     length new ≤ 2
     ∧ executeAction nowhere navigateNowhere onePage = (Ok tt, logged onePage new))
  ∧ ∃ new : list (DomOp Z),
      length new ≤ 2
      ∧ executeAction nowhere moveNowhere onePage = (Throw nonFinite, onePage).
Proof.
  split.
  - apply (page_level_actions_outcome nowhere navigateNowhere onePage "navigate");
      [reflexivity|]. rewrite !elem_of_cons. auto.
  - apply (page_level_actions_outcome nowhere moveNowhere onePage "mouse_move");
      [reflexivity|]. rewrite !elem_of_cons. auto 10.
Defined.

Definition clickMissing : gmap string (jsval Z) :=
  {[ "action" := JStr "click"; "selector" := JStr "#login" ]}.


Definition pressEnter : gmap string (jsval Z) :=
  {[ "action" := JStr "key_press"; "key" := JStr "ENTER" ]}.

End ExecutorBehaviourExamples.


(** * Properties of the relay and of the error log *)

Section RelayProperties.
Import Executor Content Messaging.
Context {num : Type} `{JsNumber num}.
Context (hitTest : option (jsval num) → option (jsval num) → Executor.Hit).

(** Every error that [m] can throw satisfies [Q]. *)
Definition raises {A : Type} (Q : string → Prop) (m : Exec A) : Prop :=
  ∀ (d : Dom num) message d', m d = (Throw message, d') → Q message.

Lemma raises_ret {A} Q (a : A) : raises Q (ret a).
Proof. by intros d message d'. Qed.

Lemma raises_throw {A} (Q : string → Prop) message :
  Q message → raises Q (throw (A:=A) message).
Proof. intros HQ d m d' [= <- _]. done. Qed.

Lemma raises_emit Q op : raises Q (emit op).
Proof. by intros d message d'. Qed.

Lemma raises_wait Q ms : raises Q (wait ms).
Proof. by intros d message d'. Qed.

Lemma raises_setActive Q el : raises Q (setActive el).
Proof. by intros d message d'. Qed.

Lemma raises_updateElement Q el f : raises Q (updateElement el f).
Proof. by intros d message d'. Qed.

Lemma raises_getElement Q el : raises Q (getElement el).
Proof. by intros d message d'. Qed.

Lemma raises_querySelector Q selector : raises Q (querySelector selector).
Proof. by intros d message d'. Qed.

Lemma raises_bind {A B} Q (m : Exec A) (k : A → Exec B) :
  raises Q m → (∀ a, raises Q (k a)) → raises Q (m ≫= k).
Proof.
  intros Hm Hk d message d'. rewrite exec_bind_run.
  destruct (m d) as [[a|e] d1] eqn:Hmd.
  - apply Hk.
  - intros [= <- <-]. by eapply Hm.
Qed.


Create HintDb raises.
#[local] Hint Resolve raises_ret raises_emit raises_wait raises_setActive
  raises_updateElement raises_getElement raises_querySelector : raises.

Ltac raises_step :=
  lazymatch goal with
  | |- raises _ (_ ≫= _) => apply raises_bind; [| intros ?]
  | |- raises _ (match ?x with _ => _ end) => destruct x
  | |- raises _ (throw _) => apply raises_throw
  | |- _ => solve [ auto with raises ]
  end.

Definition nonempty (message : string) : Prop := message ≠ "".

(** From a run of [m] in a page already looked at to [raises]. *)
Ltac raises_at :=
  lazymatch goal with
  | |- ?m ?d = (Throw ?message, ?d') → _ =>
      let E := fresh in
      let Hr := fresh in
      intros E; cut (raises nonempty m);
      [ intros Hr; exact (Hr d message d' E) | ]
  end.

Lemma nonempty_app (c : ascii) (a b : string) : nonempty (String c a +:+ b).
Proof. unfold nonempty. by rewrite Str.app_cons. Qed.

Lemma raises_typeChars Q el text : raises Q (typeChars el text).
Proof. induction text as [|c text IH]; cbn [typeChars]; repeat raises_step. Qed.

Lemma raises_keyChars Q el editable text : raises Q (keyChars el editable text).
Proof. induction text as [|c text IH]; cbn [keyChars]; repeat raises_step. Qed.

Lemma raises_clickFirstMatching Q text candidates :
  raises Q (clickFirstMatching text candidates).
Proof.
  induction candidates as [|el rest IH]; cbn [clickFirstMatching];
    repeat raises_step.
Qed.

Lemma raises_elementFromPoint x y :
  raises nonempty (elementFromPoint hitTest x y).
Proof.
  unfold elementFromPoint, nonFinite.
  destruct (notANumber x || notANumber y); [apply raises_throw, nonempty_app|].
  destruct (hitTest x y); [apply raises_throw, nonempty_app|apply raises_ret].
Qed.

Lemma raises_assignSelection el e pos :
  raises nonempty (assignSelection el e pos).
Proof.
  unfold assignSelection, noSelection.
  destruct (tag e), (selectionEnd e), (selectionStart e);
    repeat raises_step; apply nonempty_app.
Qed.

#[local] Hint Resolve raises_typeChars raises_keyChars
  raises_clickFirstMatching raises_elementFromPoint
  raises_assignSelection : raises.

(** Every error of the executor carries a message. *)
Lemma executeAction_message (action : gmap string (jsval num)) :
  raises nonempty (executeAction hitTest action).
Proof.
  unfold executeAction.
  destruct (action !! "action") as [[| | |kind| |]|];
    try (apply raises_throw; apply nonempty_app).
  repeat match goal with
         | |- raises _ (if ?b then _ else _) => destruct b
         end.
  - unfold clickElement. repeat raises_step; apply nonempty_app.
  - unfold typeText, invalidText. repeat raises_step; apply nonempty_app.
  - unfold scrollPage. repeat raises_step.
  - unfold navigate, invalidUrl. intros d message d'.
    destruct (validUrl d _); [done|]. intros [= <- _]. apply nonempty_app.
  - unfold uploadFile.
    repeat first [ raises_step
                 | match goal with
                   | |- raises _ (if ?b then _ else _) => destruct b
                   end ]; apply nonempty_app.
  - repeat raises_step.
  - unfold clickAtCoordinates. repeat raises_step; apply nonempty_app.
  - unfold typeAtCursor, invalidText.
    destruct (isText _); [|apply raises_throw; apply nonempty_app].
    intros d message d'.
    destruct (activeElement d) as [el|]; [|by intros [= <- _]].
    destruct (elements d !! el) as [e|]; [|by intros [= <- _]].
    destruct (tag e); raises_at; repeat raises_step.
  - unfold pressKey. destruct (action !! "key") as [[| | |k| |]|];
      try (by apply raises_throw).
    intros d message d'. raises_at. repeat raises_step.
  - unfold mouseMove. repeat raises_step.
  - repeat raises_step.
  - unfold clickByText, noClickable.
    intros d message d'.
    destruct (clickables d) as [|el rest]; [intros [= <- _]; apply nonempty_app|].
    destruct (action !! "text") as [[| | |s| |]|]; try by intros [= <- _].
    raises_at.
    repeat first [ raises_step
                 | match goal with
                   | |- raises _ (if ?b then _ else _) => destruct b
                   end ]; apply nonempty_app.
  - apply raises_throw. apply nonempty_app.
Qed.

(** X10: what the worker gets back for an action sent to the page is the
    executor's own outcome: the relay resolves exactly when the executor
    returns, and it rejects with the executor's message, never with the
    substitute [Tab message failed].  The page is what the executor left,
    and the error log is not written. *)
Theorem relayed_outcome_is_the_executors (action : gmap string (jsval num))
    (c : Content num) :
  executeActionOnTab None (Some (onMessage hitTest (ExecuteActionRequest action) c).1)
  = (executeAction hitTest action (page c)).1
  ∧ page (onMessage hitTest (ExecuteActionRequest action) c).2
    = (executeAction hitTest action (page c)).2
  ∧ errorLog (onMessage hitTest (ExecuteActionRequest action) c).2 = errorLog c.
Proof.
  cbn [onMessage].
  pose proof (executeAction_message action (page c)) as Hmsg.
  destruct (executeAction hitTest action (page c)) as [[[]|message] page'].
  - done.
  - split; [|done]. cbn.
    specialize (Hmsg message page' eq_refl). unfold nonempty in Hmsg.
    unfold executeActionOnTab, sendMessageToTab. cbn.
    by destruct (String.eqb_spec message "").
Qed.

Lemma logError_length (entry : LogEntry) (l : list LogEntry) :
  length l ≤ MAX_ERRORS → length (logError entry l) ≤ MAX_ERRORS.
Proof.
  intros Hl. unfold logError.
  destruct (Nat.ltb_spec MAX_ERRORS (length (l ++ [entry]))) as [Hlt|Hle]; [|done].
  rewrite length_app in Hlt. simpl in Hlt.
  destruct l as [|x l]; simpl in *; [unfold MAX_ERRORS in *; lia|].
  rewrite length_app. simpl. lia.
Qed.

Lemma handle_bounded (c : Content num) (ev : Event num) :
  length (errorLog c) ≤ MAX_ERRORS →
  length (errorLog (handle hitTest c ev)) ≤ MAX_ERRORS.
Proof.
  intros Hc. destruct ev as [args now|args now|m f l now|reason now|request];
    cbn [handle captured errorLog]; try by apply logError_length.
  destruct request as [action| |]; cbn [onMessage].
  - by destruct (executeAction hitTest action (page c)) as [[[]|message] page'].
  - done.
  - cbn. lia.
Qed.

(** X11: whatever errors the page raises and whatever requests arrive, in
    any order, the content script's error log never holds more than twenty
    entries; a [get_error_logs] request is answered with the most recent
    entries, at most ten, and after [clear_error_logs] with none. *)
Theorem error_log_stays_bounded (events : list (Event num)) (c : Content num) :
  length (errorLog c) ≤ MAX_ERRORS →
  let c' := foldl (handle hitTest) c events in
  length (errorLog c') ≤ MAX_ERRORS
  ∧ (∃ entries,
       (onMessage hitTest GetErrorLogs c').1
       = {| success := true; data := RecentErrors entries; error := None |}
       ∧ length entries = length (errorLog c') `min` 10
       ∧ entries `suffix_of` errorLog c')
  ∧ (onMessage hitTest GetErrorLogs (onMessage hitTest ClearErrorLogs c').2).1
    = {| success := true; data := RecentErrors []; error := None |}.
Proof.
  intros Hc c'.
  assert (Hb : length (errorLog c') ≤ MAX_ERRORS).
  { subst c'. revert c Hc. induction events as [|ev events IH]; intros c Hc; [done|].
    cbn [foldl]. apply IH. by apply handle_bounded. }
  split; [done|]. split; [|done].
  exists (recentErrors (errorLog c')). split; [done|]. unfold recentErrors. split.
  - rewrite length_skipn. lia.
  - apply suffix_drop.
Qed.
End RelayProperties.

Section RelayExamples.
Import Executor Content.

(** Twenty-five console errors, then a request for the log. *)
Definition noisy : list (Event Z) :=
  replicate 25 (ConsoleError [Some (JStr "Failed to load"); Some (JNum 404%Z)] 1700%Z).

Definition quietContent : Content Z := {| page := onePage; errorLog := [] |}.

Lemma error_log_stays_bounded_witness :
  let c' := foldl (handle nowhere) quietContent noisy in
  length (errorLog c') ≤ MAX_ERRORS
  ∧ (∃ entries,
       (onMessage nowhere GetErrorLogs c').1
       = {| success := true; data := RecentErrors entries; error := None |}
       ∧ length entries = length (errorLog c') `min` 10
       ∧ entries `suffix_of` errorLog c')
  ∧ (onMessage nowhere GetErrorLogs (onMessage nowhere ClearErrorLogs c').2).1
    = {| success := true; data := RecentErrors []; error := None |}.
Proof.
  exact (error_log_stays_bounded nowhere noisy quietContent
           ltac:(unfold MAX_ERRORS; simpl; lia)).
Defined.
End RelayExamples.


(** * Whole runs of the agent loop *)

Section AgentRuns.
Import Agent.
Context {num : Type} `{JsNumber num}.

(** [m] keeps the property [P] of state and log together, however it
    ends. *)
Definition holds {A : Type} (P : World num → Prop) (m : Run A) : Prop :=
  ∀ w, P w → P (m w).2.

Lemma holds_ret {A} P (a : A) : holds P (ret a).
Proof. by intros w. Qed.

Lemma holds_throw {A} P (e : string) : holds P (throw (A:=A) e).
Proof. by intros w. Qed.

Lemma holds_settle {A} P (r : Result A) : holds P (settle r).
Proof. by intros w. Qed.

Lemma holds_get P : holds P get.
Proof. by intros w. Qed.

Lemma holds_bind {A B} P (m : Run A) (k : A → Run B) :
  holds P m → (∀ a, holds P (k a)) → holds P (m ≫= k).
Proof.
  intros Hm Hk w HP. rewrite bind_run.
  specialize (Hm w HP). destruct (m w) as [[a|e] w']; cbn [snd] in *.
  - by apply Hk.
  - done.
Qed.

Lemma holds_if {A} P (b : bool) (m1 m2 : Run A) :
  holds P m1 → holds P m2 → holds P (if b then m1 else m2).
Proof. by destruct b. Qed.

(** The effects of a pass other than those of [stopAgent]: no status
    with [running: false]. *)
Definition passEffect (e : Effect num) : Prop :=
  match e with
  | Status _ isRunning => isRunning = true
  | _ => True
  end.

(** Properties of worlds that logging a pass effect, changing the state
    without touching [running], and [stopAgent] all keep. *)
Section Stable.
Variable P : World num → Prop.
Hypothesis P_emit : ∀ e w, passEffect e → P w → P (after w [e]).
Hypothesis P_modify : ∀ (f : AgentState num → AgentState num) w,
  (∀ s, running (f s) = running s) →
  P w → P {| state := f (state w); log := log w |}.
Hypothesis P_stop : ∀ w, P w → P (stopAgent w).2.

Lemma holds_emit e : passEffect e → holds P (emit e).
Proof. intros He w. by apply P_emit. Qed.

Lemma holds_modify (f : AgentState num → AgentState num) :
  (∀ s, running (f s) = running s) → holds P (modify f).
Proof. intros Hf w. by apply P_modify. Qed.

Lemma holds_arrive env p : holds P (arrive env p).
Proof. unfold arrive. case_decide; [exact P_stop | apply holds_ret]. Qed.

Ltac holds_step :=
  lazymatch goal with
  | |- holds _ (_ ≫= _) => apply holds_bind; [| intros ?]
  | |- holds _ (match ?x with _ => _ end) => destruct x
  | |- holds _ (if ?b then _ else _) => destruct b
  | |- holds _ (ret _) => apply holds_ret
  | |- holds _ (throw _) => apply holds_throw
  | |- holds _ (settle _) => apply holds_settle
  | |- holds _ get => apply holds_get
  | |- holds _ (arrive _ _) => apply holds_arrive
  | |- holds _ (updateStatus _) => apply holds_emit; reflexivity
  | |- holds _ (emit _) => apply holds_emit; try exact I
  | |- holds _ (recordOutcome _) => apply holds_modify; reflexivity
  | |- holds _ advanceStep => apply holds_modify; reflexivity
  end.

Lemma holds_askDecision env iteration remaining :
  holds P (askDecision env iteration remaining).
Proof.
  induction remaining as [|r IH]; cbn [askDecision]; [apply holds_ret|].
  repeat first [ exact IH | holds_step ].
Qed.

Lemma holds_executeStep env iteration a : holds P (executeStep env iteration a).
Proof. unfold executeStep. repeat holds_step. Qed.

Lemma holds_perceive_rest (env : IterEnv num) :
  holds P (settle (capture env) ;; arrive env AtPageInfo ;;
           settle (pageInfo env) ;; arrive env AtInspect ;;
           settle (inspect env) ;; updateStatus "Thinking...").
Proof. repeat holds_step. Qed.

Lemma holds_perceive env : holds P (perceive env).
Proof. unfold perceive. repeat holds_step. Qed.

Lemma holds_actOn env iteration answer : holds P (actOn env iteration answer).
Proof.
  unfold actOn. repeat first [ apply holds_executeStep | holds_step ].
Qed.

Lemma holds_decide_act env iteration :
  holds P (answer ← askDecision env iteration MAX_RETRIES;
           actOn env iteration answer).
Proof. apply holds_bind; [apply holds_askDecision | intros a; apply holds_actOn]. Qed.

Lemma holds_loopBody env iteration : holds P (loopBody env iteration).
Proof.
  unfold loopBody. apply holds_bind; [apply holds_perceive | intros _].
  apply holds_decide_act.
Qed.

Lemma holds_agentLoop envs iteration w :
  P w → P (agentLoop envs iteration w).2.
Proof.
  revert iteration w. induction envs as [|env envs IH]; intros iteration w Hw;
    cbn [agentLoop].
  - by destruct (running (state w) && (iteration <? MAX_ITERATIONS)).
  - destruct (running (state w) && (iteration <? MAX_ITERATIONS)); [|done].
    pose proof (holds_loopBody env (S iteration) w Hw) as Hb.
    destruct (loopBody env (S iteration) w) as [[[i|i]|e] w']; cbn [snd] in *;
      [by apply IH | done | done].
Qed.
End Stable.

(** *** Stop requests *)

(** How often [stopAgent] has run: it alone reports a status with
    [running: false]. *)
Definition stops (w : World num) : nat :=
  length (omap (λ e, match e with Status _ false => Some tt | _ => None end)
               (log w)).

Lemma stops_after (e : Effect num) (w : World num) :
  passEffect e → stops (after w [e]) = stops w.
Proof.
  intros He. unfold stops, after. cbn [log]. rewrite omap_app, length_app.
  destruct e as [| | |a [|]| | | | | | | | |]; cbn; try lia. done.
Qed.

(** What [stopAgent] logs: the status, and the overlay message if a tab
    is known. *)
Definition stopEffects (s : AgentState num) : list (Effect num) :=
  Status "Agent stopped" false
  :: (if hasTab s then [ScheduleOverlayDone] else []).

Lemma stopAgent_run (w : World num) :
  stopAgent w
  = (Ok tt, {| state := stopped (state w);
               log := log w ++ stopEffects (state w) |}).
Proof.
  unfold stopAgent, stopEffects. rewrite bind_run. cbn [modify].
  rewrite bind_run, emit_after.
  rewrite bind_run. cbn [get after state].
  replace (hasTab (stopped (state w))) with (hasTab (state w)) by done.
  destruct (hasTab (state w)).
  - by rewrite emit_after, after_after.
  - done.
Qed.

Lemma stops_stopAgent (w : World num) :
  stops (stopAgent w).2 = S (stops w)
  ∧ running (state (stopAgent w).2) = false.
Proof.
  rewrite stopAgent_run.
  unfold stops, stopEffects. cbn [snd log state]. rewrite omap_app, length_app.
  split; [|done]. destruct (hasTab (state w)); cbn; lia.
Qed.

(** At least [n] stop requests have been handled. *)
Definition stoppedTimes (n : nat) (w : World num) : Prop := n ≤ stops w.

(** If more than [n] stop requests have been handled, [running] is
    unset. *)
Definition stoppedSince (n : nat) (w : World num) : Prop :=
  n < stops w → running (state w) = false.

Lemma stoppedTimes_emit n (e : Effect num) (w : World num) :
  passEffect e → stoppedTimes n w → stoppedTimes n (after w [e]).
Proof. intros He Hw. unfold stoppedTimes in *. by rewrite stops_after. Qed.

Lemma stoppedTimes_modify n (f : AgentState num → AgentState num) (w : World num) :
  (∀ s, running (f s) = running s) →
  stoppedTimes n w → stoppedTimes n {| state := f (state w); log := log w |}.
Proof. by intros _ Hw. Qed.

Lemma stoppedTimes_stop n (w : World num) :
  stoppedTimes n w → stoppedTimes n (stopAgent w).2.
Proof.
  unfold stoppedTimes. intros Hw. destruct (stops_stopAgent w) as [-> _]. lia.
Qed.

Lemma stoppedSince_loopBody n env iteration :
  holds (stoppedSince n) (loopBody env iteration).
Proof.
  apply holds_loopBody; unfold stoppedSince.
  - intros e w He Hw. rewrite stops_after by done. done.
  - intros f w Hf Hw Hn. cbn [state]. rewrite Hf. by apply Hw.
  - intros w Hw _. by destruct (stops_stopAgent w) as [_ ->].
Qed.

Lemma agentLoop_not_running envs iteration (w : World num) :
  running (state w) = false → agentLoop envs iteration w = (Exited iteration, w).
Proof. intros Hr. destruct envs; cbn [agentLoop]; by rewrite Hr. Qed.

(** A stop request that arrives while the screenshot is being taken is
    handled in that pass. *)
Lemma stop_at_capture_handled env iteration (w : World num) :
  hasTab (state w) = true → stopAt env = Some AtCapture →
  stops w < stops (loopBody env iteration w).2.
Proof.
  intros Ht Hs.
  set (w2 := (stopAgent (after w [Status "Taking screenshot..." true])).2).
  assert (Hw2 : stops w2 = S (stops w)).
  { subst w2. destruct (stops_stopAgent (after w [Status "Taking screenshot..." true]))
      as [-> _]. by rewrite stops_after. }
  assert (Hp : perceive env w
    = (settle (capture env) ;; arrive env AtPageInfo ;;
       settle (pageInfo env) ;; arrive env AtInspect ;;
       settle (inspect env) ;; updateStatus "Thinking...") w2).
  { unfold perceive, updateStatus. rewrite bind_run, emit_after, bind_run.
    cbn [get after state]. rewrite Ht, bind_run. cbn [ret].
    rewrite bind_run. unfold arrive at 1. rewrite decide_True by done.
    subst w2. by rewrite stopAgent_run. }
  assert (Hmono : ∀ {A} (m : Run A), holds (stoppedTimes (S (stops w))) m →
            stops w < stops (m w2).2).
  { intros A m Hm. specialize (Hm w2). unfold stoppedTimes in Hm. lia. }
  unfold loopBody. rewrite bind_run, Hp.
  assert (Hrest : stops w < stops
    ((settle (capture env) ;; arrive env AtPageInfo ;;
      settle (pageInfo env) ;; arrive env AtInspect ;;
      settle (inspect env) ;; updateStatus "Thinking...") w2).2).
  { apply Hmono, holds_perceive_rest;
      auto using stoppedTimes_emit, stoppedTimes_modify, stoppedTimes_stop. }
  destruct ((settle (capture env) ;; arrive env AtPageInfo ;;
             settle (pageInfo env) ;; arrive env AtInspect ;;
             settle (inspect env) ;; updateStatus "Thinking...") w2)
    as [[[]|e] w3]; cbn [snd] in *; [|done].
  assert (Hact : holds (stoppedTimes (S (stops w)))
    (answer ← askDecision env iteration MAX_RETRIES; actOn env iteration answer)).
  { apply holds_decide_act;
      auto using stoppedTimes_emit, stoppedTimes_modify, stoppedTimes_stop. }
  specialize (Hact w3). unfold stoppedTimes in Hact. apply Hact. lia.
Qed.

(** X12: a stop request is cooperative.  If one is handled at any await
    point of a pass (for a request that arrives during the screenshot this
    is always the case), the pass itself runs to its end, and then the
    loop is left: no further pass starts, whatever answers would have been
    available, [running] is unset, and the run resolves. *)
Theorem stop_request_ends_loop (env : IterEnv num) (rest : list (IterEnv num))
    (iteration : nat) (w : World num) :
  running (state w) = true → iteration < MAX_ITERATIONS →
  stops w < stops (loopBody env (S iteration) w).2
  ∨ (hasTab (state w) = true ∧ stopAt env = Some AtCapture) →
  ∃ ended,
    agentLoop (env :: rest) iteration w = (ended, (loopBody env (S iteration) w).2)
    ∧ (∀ i, ended ≠ Pending i)
    ∧ running (state (loopBody env (S iteration) w).2) = false
    ∧ (conclude (agentLoop (env :: rest) iteration w)).1 = Resolved.
Proof.
  intros Hr Hi Hstop.
  assert (Hh : stops w < stops (loopBody env (S iteration) w).2).
  { destruct Hstop as [Hh|[Ht Hs]]; [done|]. by apply stop_at_capture_handled. }
  pose proof (stoppedSince_loopBody (stops w) env (S iteration) w) as Hrun.
  unfold stoppedSince in Hrun. specialize (Hrun ltac:(lia) Hh).
  rewrite agentLoop_pass by done.
  destruct (loopBody env (S iteration) w) as [[[i|i]|e] w1]; cbn [snd] in *.
  - rewrite agentLoop_not_running by done. by eexists.
  - by eexists.
  - by eexists.
Qed.

(** The answers of a pass, with the stop request taken out. *)
Definition calm (env : IterEnv num) : IterEnv num :=
  {| capture := capture env; pageInfo := pageInfo env; inspect := inspect env;
     attempts := attempts env; exec := exec env; stopAt := None |}.

Lemma arrive_elsewhere (env : IterEnv num) p (w : World num) :
  stopAt env ≠ Some p → arrive env p w = (Ok tt, w).
Proof. intros Hs. unfold arrive. by rewrite decide_False. Qed.

Lemma askDecision_calm (env : IterEnv num) iteration remaining (w : World num) :
  stopAt env ≠ Some AtDecision →
  askDecision env iteration remaining w
  = askDecision (calm env) iteration remaining w.
Proof.
  intros Hs. revert w. induction remaining as [|r IH]; intros w; [done|].
  cbn [askDecision]. rewrite !bind_run. cbn [get].
  rewrite !bind_run, !emit_after, !bind_run.
  assert (Ha : ∀ (b : {MAX_RETRIES - S r = 0} + {¬ MAX_RETRIES - S r = 0}) v,
    (if b then arrive env AtDecision else ret ()) v
    = (if b then arrive (calm env) AtDecision else ret ()) v).
  { intros [|] v; [|done]. by rewrite arrive_elsewhere, arrive_quiet. }
  rewrite Ha. destruct (if decide (MAX_RETRIES - S r = 0) then _ else _) as [[[]|e] w1];
    [|done].
  cbn [calm attempts].
  destruct (attempts env (MAX_RETRIES - S r)) as [message|data]; [|done].
  destruct (MAX_RETRIES <=? S (MAX_RETRIES - S r)); [done|].
  unfold updateStatus. rewrite !bind_run, !emit_after, !bind_run, !emit_after.
  apply IH.
Qed.

Lemma executeStep_calm (env : IterEnv num) iteration a (w : World num) :
  stopAt env ≠ Some AtExecute → stopAt env ≠ Some AtRecord →
  executeStep env iteration a w = executeStep (calm env) iteration a w.
Proof.
  intros He Hr. unfold executeStep, updateStatus.
  destruct (Js.truthy (a !! "reasoning")).
  all: rewrite !bind_run, ?emit_after; cbn [ret].
  all: rewrite !bind_run, !emit_after, !bind_run, !emit_after, !bind_run.
  all: rewrite arrive_elsewhere, arrive_quiet by done.
  all: cbn [calm exec]; destruct (exec env) as [[]|message]; [|done].
  all: rewrite !bind_run; cbn [get]; rewrite !bind_run, !emit_after, !bind_run.
  all: by rewrite arrive_elsewhere, arrive_quiet.
Qed.

Lemma actOn_calm (env : IterEnv num) iteration answer (w : World num) :
  stopAt env = Some AtCapture →
  actOn env iteration answer w = actOn (calm env) iteration answer w.
Proof.
  intros Hs. unfold actOn. destruct answer as [d|]; [|done].
  destruct (negb (String.eqb (default "" (response d)) "")).
  all: rewrite !bind_run, ?emit_after; cbn [ret].
  all: rewrite ?bind_run, ?emit_after.
  all: destruct (isDone _ _); [done|].
  all: destruct (action d) as [a|]; [|done].
  all: rewrite !bind_run, executeStep_calm by (rewrite Hs; discriminate).
  all: match goal with
       | |- context [executeStep ?c ?i ?b ?v] =>
           destruct (executeStep c i b v) as [[i'|e] w2]; [|done]
       end.
  all: rewrite !bind_run, !emit_after, !bind_run.
  all: rewrite arrive_elsewhere by (rewrite Hs; discriminate).
  all: by rewrite arrive_quiet.
Qed.

Lemma executed_after (w : World num) (es : list (Effect num)) :
  Forall noAction es → executed (after w es) = executed w.
Proof.
  intros Hes. apply omap_nil_noAction in Hes.
  unfold executed, after. cbn [log]. by rewrite omap_app, Hes, app_nil_r.
Qed.

(** X13: a stop request does not cancel the pass in which it arrives.
    When it is handled while the screenshot is being taken, the worker
    still asks for a decision, and if the answer carries an action and no
    completion phrase, that action is still sent to the page; only then is
    the loop left. *)
Theorem stop_during_capture_still_executes
    (env : IterEnv num) (rest : list (IterEnv num)) (iteration : nat)
    (w : World num) (d : Decision num) (a : gmap string (jsval num)) :
  running (state w) = true → hasTab (state w) = true →
  iteration < MAX_ITERATIONS →
  stopAt env = Some AtCapture → quiet (calm env) →
  answerOf (calm env) = Ok (Some d) → action d = Some a → announced d = false →
  ∃ i w',
    agentLoop (env :: rest) iteration w = (Exited i, w')
    ∧ executed w' = executed w ++ [a]
    ∧ running (state w') = false.
Proof.
  intros Hr Ht Hi Hs Hq Hans Ha Hd.
  pose proof Hq as ([shot Hc] & [url Hp] & Hin & _).
  cbn [calm capture pageInfo inspect] in Hc, Hp, Hin.
  set (w2 := (stopAgent (after w [Status "Taking screenshot..." true])).2).
  assert (Hper : perceive env w = (Ok tt, after w2 [Status "Thinking..." true])).
  { unfold perceive, updateStatus. rewrite bind_run, emit_after, bind_run.
    cbn [get after state]. rewrite Ht, bind_run. cbn [ret].
    rewrite bind_run. unfold arrive at 1. rewrite decide_True by done.
    subst w2. rewrite stopAgent_run. cbn [snd]. rewrite Hc, Hp, Hin.
    rewrite !bind_run. cbn [settle].
    rewrite !bind_run, !arrive_elsewhere by (rewrite Hs; discriminate).
    rewrite !bind_run. cbn [settle]. rewrite !bind_run.
    rewrite !arrive_elsewhere by (rewrite Hs; discriminate).
    rewrite !bind_run. cbn [settle]. done. }
  assert (Hw2 : state w2 = stopped (state w) ∧ executed w2 = executed w).
  { subst w2. rewrite stopAgent_run. cbn [snd state after].
    split; [done|].
    unfold executed, stopEffects. cbn [log after].
    rewrite !omap_app. cbn. destruct (hasTab (state w)); cbn;
      by rewrite !app_nil_r. }
  destruct Hw2 as (Hst2 & Hex2).
  destruct (askDecision_quiet (calm env) (S iteration)
              (after w2 [Status "Thinking..." true]) eq_refl)
    as (es & Hes & Hask).
  rewrite agentLoop_pass by done. unfold loopBody.
  rewrite bind_run, Hper, bind_run, askDecision_calm, Hask, Hans
    by (rewrite Hs; discriminate).
  rewrite actOn_calm by done. rewrite after_after.
  destruct (actOn_quiet (calm env) (S iteration) d a
              (after w2 ([Status "Thinking..." true] ++ es)) eq_refl Ha)
    as (w3 & Hst3 & Hex3 & ->).
  rewrite isDone_action, Hd.
  destruct (executeStep_quiet (calm env) (S iteration) a w3 eq_refl)
    as (w4 & -> & Hst4 & Hex4).
  assert (Hrun4 : running (state (after w4 [Sleep 1500])) = false).
  { cbn [after state]. rewrite Hst4, Hst3. cbn [after state]. rewrite Hst2.
    by destruct (exec (calm env)). }
  rewrite agentLoop_not_running by done.
  eexists _, _. split; [reflexivity|]. split; [|done].
  rewrite executed_after by (by repeat constructor).
  rewrite Hex4, Hex3, executed_after, Hex2; [done|].
  constructor; [done|exact Hes].
Qed.

(** *** Runs of successful and of failing passes *)

Lemma agentLoop_at_cap envs (w : World num) :
  agentLoop envs MAX_ITERATIONS w = (Exited MAX_ITERATIONS, w).
Proof. destruct envs; cbn [agentLoop]; by rewrite andb_false_r. Qed.

Lemma successes_advance (envs rest : list (IterEnv num)) iteration (w : World num) :
  Forall actionSucceeds envs →
  running (state w) = true → hasTab (state w) = true →
  iteration + length envs ≤ MAX_ITERATIONS →
  ∃ w',
    agentLoop (envs ++ rest) iteration w
    = agentLoop rest (iteration + length envs) w'
    ∧ running (state w') = true ∧ hasTab (state w') = true
    ∧ currentStep (state w') = currentStep (state w) + length envs
    ∧ length (executed w') = length (executed w) + length envs.
Proof.
  intros Hok. revert iteration w.
  induction Hok as [|env envs Henv _ IH]; intros iteration w Hr Ht Hi.
  - exists w. cbn [app length]. rewrite !Nat.add_0_r. done.
  - cbn [length] in Hi.
    destruct Henv as [(Hq & d & a & Hans & Ha & Hd) Hex].
    destruct (loopBody_action env (S iteration) d a w Hq Ht Hans Ha)
      as (w1 & Hbody & Hexd & Hst).
    rewrite Hd, Hex in *.
    destruct (IH (S iteration) w1) as (w' & Hloop & Hr' & Ht' & Hc' & He').
    { by rewrite Hst. }
    { unfold hasTab in *. by rewrite Hst. }
    { lia. }
    exists w'. cbn [app length].
    rewrite agentLoop_pass, Hbody by (done || lia).
    rewrite Hloop, Hc', He', Hexd, Hst, length_app. cbn.
    replace (iteration + S (length envs)) with (S iteration + length envs) by lia.
    split_and!; try done; lia.
Qed.

(** X14: the iteration cap.  After fifty passes whose actions all
    succeed the loop is left, whatever answers a further pass would get:
    the fifty actions have been sent to the page, the step cursor has
    advanced by fifty, the operator is told that the maximum was reached,
    and the run is torn down. *)
Theorem iteration_cap_ends_run (envs rest : list (IterEnv num)) (w : World num) :
  Forall actionSucceeds envs → length envs = MAX_ITERATIONS →
  running (state w) = true → hasTab (state w) = true →
  ∃ w1 w',
    agentLoop (envs ++ rest) 0 w = (Exited MAX_ITERATIONS, w1)
    ∧ length (executed w1) = length (executed w) + MAX_ITERATIONS
    ∧ currentStep (state w1) = currentStep (state w) + MAX_ITERATIONS
    ∧ conclude (agentLoop (envs ++ rest) 0 w) = (Resolved, w')
    ∧ Popup "Reached maximum iterations. Task may not be complete." ∈ log w'
    ∧ tornDown (state w').
Proof.
  intros Hok Hlen Hr Ht.
  destruct (successes_advance envs rest 0 w Hok Hr Ht ltac:(lia))
    as (w1 & Hloop & _ & _ & Hc & He).
  rewrite Hloop, Hlen in *. cbn [Nat.add]. rewrite agentLoop_at_cap.
  eexists w1, _. split; [done|]. split; [done|]. split; [done|].
  split; [reflexivity|split].
  - cbn [conclude]. rewrite stopAgent_run. cbn. set_solver.
  - apply stopAgent_tornDown.
Qed.

(** X15: passes whose actions fail never bring the loop to its end.
    After any number of them the counter is where it was, the step cursor
    has not moved, every one of the actions was sent to the page, and the
    loop is about to start another pass: the iteration cap is never
    reached by failing actions alone. *)
Theorem failing_actions_never_end_the_loop
    (envs : list (IterEnv num)) (iteration : nat) (w : World num) :
  Forall actionFails envs →
  running (state w) = true → hasTab (state w) = true →
  iteration < MAX_ITERATIONS →
  ∃ w',
    agentLoop envs iteration w = (Pending iteration, w')
    ∧ running (state w') = true
    ∧ currentStep (state w') = currentStep (state w)
    ∧ length (executed w') = length (executed w) + length envs
    ∧ (conclude (agentLoop envs iteration w)).1 = StillLooping iteration.
Proof.
  intros Hfail Hr Ht Hi. revert w Hr Ht.
  induction Hfail as [|env envs Henv _ IH]; intros w Hr Ht.
  - exists w. cbn [agentLoop]. rewrite Hr.
    destruct (Nat.ltb_spec iteration MAX_ITERATIONS); [|lia].
    cbn. split_and!; try done; lia.
  - destruct Henv as [(Hq & d & a & Hans & Ha & Hd) [m Hex]].
    destruct (loopBody_action env (S iteration) d a w Hq Ht Hans Ha)
      as (w1 & Hbody & Hexd & Hst).
    rewrite Hd, Hex in *.
    replace (S iteration - 1) with iteration in Hbody by lia.
    destruct (IH w1) as (w' & Hloop & Hr' & Hc' & He' & Hcon).
    { by rewrite Hst. }
    { unfold hasTab in *. by rewrite Hst. }
    exists w'. rewrite agentLoop_pass, Hbody by done.
    rewrite Hloop, Hc', He', Hexd, Hst, length_app. cbn.
    split_and!; try done; lia.
Qed.

(** X16: an answer that carries no action ends the run as a completed
    one, whatever its text says: nothing is sent to the page, the state is
    not changed by the pass, and the loop is left in that pass. *)
Theorem answer_without_action_ends_run
    (env : IterEnv num) (rest : list (IterEnv num)) (iteration : nat)
    (w : World num) (d : Decision num) :
  quiet env → running (state w) = true → hasTab (state w) = true →
  iteration < MAX_ITERATIONS →
  answerOf env = Ok (Some d) → action d = None →
  ∃ w',
    agentLoop (env :: rest) iteration w = (Exited (S iteration), w')
    ∧ executed w' = executed w
    ∧ state w' = state w
    ∧ (conclude (agentLoop (env :: rest) iteration w)).1 = Resolved.
Proof.
  intros Hq Hr Ht Hi Hans Ha.
  destruct (loopBody_quiet env (S iteration) w Hq Ht) as (w1 & Hs1 & He1 & Hbody).
  rewrite agentLoop_pass, Hbody, Hans by done.
  unfold actOn. rewrite Ha.
  assert (Hdone : isDone (num:=num) (default "" (response d)) None = true).
  { unfold isDone. rewrite bool_decide_eq_false_2 by (by intros [? ?]).
    by rewrite orb_true_r. }
  rewrite Hdone.
  destruct (negb (String.eqb (default "" (response d)) "")).
  - repeat first [ rewrite bind_run | rewrite emit_after ]. cbn [ret].
    eexists. split; [reflexivity|]. split_and!; [|done|done].
    rewrite !executed_after by (by repeat constructor). done.
  - rewrite bind_run. cbn [ret]. by eexists.
Qed.

(** X17: a screenshot that cannot be taken ends the run at once: it is
    not retried, no decision is requested and nothing is sent to the page;
    the error is shown to the operator and the run is torn down. *)
Theorem failed_screenshot_ends_run
    (env : IterEnv num) (rest : list (IterEnv num)) (iteration : nat)
    (w : World num) (message : string) :
  running (state w) = true → hasTab (state w) = true →
  iteration < MAX_ITERATIONS →
  stopAt env = None → capture env = Throw message →
  ∃ w',
    agentLoop (env :: rest) iteration w
    = (Thrown message, after w [Status "Taking screenshot..." true])
    ∧ conclude (agentLoop (env :: rest) iteration w) = (Resolved, w')
    ∧ Popup ("Error: " +:+ message) ∈ log w'
    ∧ requests w' = requests w
    ∧ executed w' = executed w
    ∧ tornDown (state w').
Proof.
  intros Hr Ht Hi Hs Hc.
  assert (Hbody : loopBody env (S iteration) w
    = (Throw message, after w [Status "Taking screenshot..." true])).
  { unfold loopBody, perceive, updateStatus.
    rewrite !bind_run, emit_after. rewrite !bind_run. cbn [get after state].
    rewrite Ht, !bind_run. cbn [ret]. rewrite !bind_run, arrive_quiet by done.
    rewrite !bind_run, Hc. done. }
  rewrite agentLoop_pass, Hbody by done.
  eexists. split; [done|]. split; [reflexivity|].
  cbn [conclude]. rewrite emit_after, stopAgent_run. cbn [snd log state after].
  split_and!.
  - set_solver.
  - unfold requests, stopEffects, after. cbn [log].
    rewrite !omap_app, !length_app. cbn.
    destruct (hasTab (state w)); cbn; lia.
  - unfold executed, stopEffects, after. cbn [log]. rewrite !omap_app. cbn.
    destruct (hasTab (state w)); cbn; by rewrite !app_nil_r.
  - done.
Qed.

(** *** What the history and the overlay show *)

Lemma pushHistory_last (e : HistoryEntry num) (h : list (HistoryEntry num)) :
  last (pushHistory e h) = Some e.
Proof.
  unfold pushHistory.
  destruct (10 <? length (h ++ [e])) eqn:Hlen; [|apply last_snoc].
  destruct h as [|x h]; [done|]. cbn [app tail]. apply last_snoc.
Qed.

(** X18: after a pass that sent an action to the page, the newest entry
    of the history describes that action: its name and selector with
    [success], or, if the page reported an error, with [failed:] and the
    error's message; the name is [unknown] if the action has none. *)
Theorem newest_history_entry_is_last_action
    (env : IterEnv num) (iteration : nat) (w : World num)
    (d : Decision num) (a : gmap string (jsval num)) :
  quiet env → hasTab (state w) = true →
  answerOf env = Ok (Some d) → action d = Some a → announced d = false →
  last (actionHistory (state (loopBody env iteration w).2))
  = Some {| entryAction := match exec env with
                           | Ok _ => a !! "action"
                           | Throw _ => Js.or (a !! "action") (Some (JStr "unknown"))
                           end;
            entrySelector := a !! "selector";
            entryResult := match exec env with
                           | Ok _ => "success"
                           | Throw message => "failed: " +:+ message
                           end |}.
Proof.
  intros Hq Ht Hans Ha Hd.
  destruct (loopBody_action env iteration d a w Hq Ht Hans Ha)
    as (w' & -> & _ & Hst).
  cbn [snd]. rewrite Hst, Hd.
  destruct (exec env) as [[]|message]; cbn [stepped pushed actionHistory];
    by rewrite pushHistory_last.
Qed.

(** *** Goals that are not tasks *)

Lemma lowerChar_space (c : ascii) : Str.isSpace c = true → Str.lowerChar c = c.
Proof. by destruct c as [[] [] [] [] [] [] [] []]. Qed.

Lemma toLowerCase_blank (s : string) :
  Str.all Str.isSpace s = true → Str.toLowerCase s = s.
Proof.
  induction s as [|c s IH]; [done|]. cbn [Str.all Str.toLowerCase].
  intros [Hc Hs]%andb_true_iff. by rewrite lowerChar_space, IH.
Qed.

Lemma trimStart_blank (s : string) :
  Str.all Str.isSpace s = true → Str.trimStart s = "".
Proof.
  induction s as [|c s IH]; [done|]. cbn [Str.all Str.trimStart].
  intros [Hc Hs]%andb_true_iff. rewrite Hc. by apply IH.
Qed.

Lemma isGreeting_greeting (g tail : string) :
  g ∈ greetings → Str.all isGreetingTail tail = true →
  isGreeting (g +:+ tail) = true.
Proof.
  intros Hg Ht. unfold isGreeting. apply existsb_exists.
  exists g. split; [by apply list_elem_of_In|].
  by rewrite Substitution.stripPrefix_app.
Qed.

Lemma prefix_app (p rest : string) : String.prefix p (p +:+ rest) = true.
Proof.
  induction p as [|a p IH]; [by destruct rest|].
  rewrite Str.app_cons. cbn [String.prefix]. by destruct (ascii_dec a a).
Qed.

(** X19: a goal that is blank, that is one of the greetings followed by
    nothing but spaces, exclamation marks and full stops, or that starts
    with one of the questions about the agent (whatever follows, even an
    instruction) is answered with the help text and starts nothing: the
    run state is unchanged, no tab is looked at and no workflow is
    created.  Letter case and surrounding white space do not matter. *)
Theorem goal_that_is_no_task_starts_nothing
    (goalText token : string) (pre : PreEnv) (envs : list (IterEnv num))
    (w : World num) :
  running (state w) = false →
  Str.all Str.isSpace goalText = true
  ∨ (∃ g tail, g ∈ greetings ∧ Str.all isGreetingTail tail = true
               ∧ Str.trim (Str.toLowerCase goalText) = g +:+ tail)
  ∨ (∃ q rest, q ∈ questionPrefixes
               ∧ Str.trim (Str.toLowerCase goalText) = q +:+ rest) →
  runAgent goalText token pre envs w = (Resolved, after w [PopupHelp]).
Proof.
  intros Hr Hg. unfold runAgent. rewrite Hr.
  assert (Hq : isJustAQuestion goalText = true); [|by rewrite Hq].
  unfold isJustAQuestion.
  destruct Hg as [Hb|[(g & tail & Hg & Ht & ->)|(q & rest & Hq & ->)]].
  - rewrite toLowerCase_blank by done. unfold Str.trim.
    rewrite (trimStart_blank goalText) by done. reflexivity.
  - by rewrite isGreeting_greeting.
  - destruct (isGreeting (q +:+ rest)); [done|].
    assert (Hp : existsb (Str.startsWith (q +:+ rest)) questionPrefixes = true).
    { apply existsb_exists. exists q. split; [by apply list_elem_of_In|].
      apply prefix_app. }
    by rewrite Hp.
Qed.
End AgentRuns.

Section AgentRunExamples.
Import Agent.

(** A pass during whose screenshot the operator presses stop. *)
Definition stoppedAtCapture : IterEnv Z := {|
  capture := Ok "data:image/png;base64,AAAA";
  pageInfo := Ok "https://site.example/login";
  inspect := Ok tt;
  attempts := λ _, AttemptData (Some clicking);
  exec := Ok tt;
  stopAt := Some AtCapture;
|}.

Lemma stop_request_ends_loop_witness :
  ∃ ended,
    agentLoop (stoppedAtCapture :: [pass clicking (Ok tt)]) 0 looping
    = (ended, (loopBody stoppedAtCapture 1 looping).2)
    ∧ (∀ i, ended ≠ Pending i)
    ∧ running (state (loopBody stoppedAtCapture 1 looping).2) = false
    ∧ (conclude (agentLoop (stoppedAtCapture :: [pass clicking (Ok tt)]) 0 looping)).1
      = Resolved.
Proof.
  exact (stop_request_ends_loop stoppedAtCapture [pass clicking (Ok tt)] 0 looping
           eq_refl ltac:(unfold MAX_ITERATIONS; lia)
           (or_intror (conj eq_refl eq_refl))).
Defined.

Lemma stop_during_capture_still_executes_witness :
  ∃ i w',
    agentLoop (stoppedAtCapture :: [pass clicking (Ok tt)]) 0 looping = (Exited i, w')
    ∧ executed w' = executed looping ++ [clickLogin]
    ∧ running (state w') = false.
Proof.
  refine (stop_during_capture_still_executes stoppedAtCapture
            [pass clicking (Ok tt)] 0 looping clicking clickLogin
            eq_refl eq_refl ltac:(unfold MAX_ITERATIONS; lia) eq_refl _
            eq_refl eq_refl eq_refl).
  unfold quiet. simpl. split_and!; eauto.
Defined.

Lemma acts_pass_clicking (result : Result unit) : acts (pass clicking result).
Proof.
  split; [apply quiet_pass|].
  exists clicking, clickLogin. split_and!; reflexivity.
Qed.

Lemma iteration_cap_ends_run_witness :
  ∃ w1 w',
    agentLoop (replicate 50 (pass clicking (Ok tt)) ++ [offline]) 0 looping
    = (Exited MAX_ITERATIONS, w1)
    ∧ length (executed w1) = length (executed looping) + MAX_ITERATIONS
    ∧ currentStep (state w1) = currentStep (state looping) + MAX_ITERATIONS
    ∧ conclude (agentLoop (replicate 50 (pass clicking (Ok tt)) ++ [offline]) 0
                  looping) = (Resolved, w')
    ∧ Popup "Reached maximum iterations. Task may not be complete." ∈ log w'
    ∧ tornDown (state w').
Proof.
  refine (iteration_cap_ends_run (replicate 50 (pass clicking (Ok tt))) [offline]
            looping _ _ eq_refl eq_refl).
  - apply Forall_replicate. split; [apply acts_pass_clicking | reflexivity].
  - apply length_replicate.
Defined.

Lemma failing_actions_never_end_the_loop_witness :
  ∃ w',
    agentLoop (replicate 7 (pass clicking (Throw "Element not found: #login")))
      49 looping = (Pending 49, w')
    ∧ running (state w') = true
    ∧ currentStep (state w') = currentStep (state looping)
    ∧ length (executed w')
      = length (executed looping)
        + length (replicate 7 (pass clicking (Throw "Element not found: #login")))
    ∧ (conclude (agentLoop
         (replicate 7 (pass clicking (Throw "Element not found: #login")))
         49 looping)).1 = StillLooping 49.
Proof.
  refine (failing_actions_never_end_the_loop
            (replicate 7 (pass clicking (Throw "Element not found: #login")))
            49 looping _ eq_refl eq_refl ltac:(unfold MAX_ITERATIONS; lia)).
  apply Forall_replicate. split; [apply acts_pass_clicking | by eexists].
Defined.

Lemma answer_without_action_ends_run_witness :
  ∃ w',
    agentLoop (pass (textOnlyData (Some "I need more information.")) (Ok tt)
               :: [offline]) 0 looping = (Exited 1, w')
    ∧ executed w' = executed looping
    ∧ state w' = state looping
    ∧ (conclude (agentLoop
         (pass (textOnlyData (Some "I need more information.")) (Ok tt)
          :: [offline]) 0 looping)).1 = Resolved.
Proof.
  exact (answer_without_action_ends_run
           (pass (textOnlyData (Some "I need more information.")) (Ok tt))
           [offline] 0 looping (textOnlyData (Some "I need more information."))
           (quiet_pass _ _) eq_refl eq_refl ltac:(unfold MAX_ITERATIONS; lia)
           eq_refl eq_refl).
Defined.

(** A pass in which the tab cannot be captured. *)
Definition blind : IterEnv Z := {|
  capture := Throw "The tab was closed";
  pageInfo := Ok "https://site.example/login";
  inspect := Ok tt;
  attempts := λ _, AttemptData (Some clicking);
  exec := Ok tt;
  stopAt := None;
|}.

Lemma failed_screenshot_ends_run_witness :
  ∃ w',
    agentLoop (blind :: [pass clicking (Ok tt)]) 0 looping
    = (Thrown "The tab was closed",
       after looping [Status "Taking screenshot..." true])
    ∧ conclude (agentLoop (blind :: [pass clicking (Ok tt)]) 0 looping)
      = (Resolved, w')
    ∧ Popup ("Error: " +:+ "The tab was closed") ∈ log w'
    ∧ requests w' = requests looping
    ∧ executed w' = executed looping
    ∧ tornDown (state w').
Proof.
  exact (failed_screenshot_ends_run blind [pass clicking (Ok tt)] 0 looping
           "The tab was closed" eq_refl eq_refl
           ltac:(unfold MAX_ITERATIONS; lia) eq_refl eq_refl).
Defined.

Lemma newest_history_entry_is_last_action_witness :
  last (actionHistory (state
    (loopBody (pass clicking (Throw "Element not found: #login")) 1 looping).2))
  = Some {| entryAction := Some (JStr "click");
            entrySelector := Some (JStr "#login");
            entryResult := "failed: Element not found: #login" |}.
Proof.
  exact (newest_history_entry_is_last_action
           (pass clicking (Throw "Element not found: #login")) 1 looping
           clicking clickLogin (quiet_pass _ _) eq_refl eq_refl eq_refl eq_refl).
Defined.

Lemma goal_that_is_no_task_starts_nothing_witness :
  runAgent "  Hello!! " "token" onSite [pass clicking (Ok tt)] idle
  = (Resolved, after idle [PopupHelp]).
Proof.
  refine (goal_that_is_no_task_starts_nothing "  Hello!! " "token" onSite
            [pass clicking (Ok tt)] idle eq_refl _).
  right. left. exists "hello", "!!". split_and!; [|reflexivity|reflexivity].
  unfold greetings. rewrite !elem_of_cons. auto.
Defined.
End AgentRunExamples.


(** * Recording and replaying a trace *)

Section TraceProperties.
Import Substitution Replay.
Context {num : Type} `{JsNumber num}.

(** The trace of a workflow row. *)
Definition trace (workflow : Workflow num) : list (gmap string (jsval num)) :=
  default [] (recordedActions workflow).

(** X20: whatever the request, an action that [get-next-action] returns
    is the entry of the workflow's trace at the requested cursor with its
    [text] and [value] substituted for the requested listing; the cursor is
    an index into the trace, the workflow is ready or active, and both rows
    exist. *)
Theorem next_action_comes_from_trace
    (findWorkflow : Z → option (Workflow num))
    (findListing : Z → option (Listing num))
    (workflowId listingId currentStep : option Z) (data : NextAction num) :
  getNextAction findWorkflow findListing workflowId listingId currentStep
  = ReplyNext data →
  ∃ wid lid cursor workflow listing nextAction,
    workflowId = Some wid ∧ listingId = Some lid ∧ currentStep = Some cursor
    ∧ findWorkflow wid = Some workflow ∧ findListing lid = Some listing
    ∧ (status workflow = "ready" ∨ status workflow = "active")
    ∧ (0 ≤ cursor < Z.of_nat (length (trace workflow)))%Z
    ∧ trace workflow !! Z.to_nat cursor = Some nextAction
    ∧ data = {| action := processAction listing nextAction;
                step := cursor;
                totalSteps := length (trace workflow) |}.
Proof.
  unfold getNextAction, trace.
  destruct workflowId as [wid|], listingId as [lid|]; try done.
  destruct (negb (truthyId (Some wid)) || negb (truthyId (Some lid))); [done|].
  destruct (findWorkflow wid) as [workflow|] eqn:Hw; [|done].
  destruct (String.eqb_spec (status workflow) "ready") as [Hr|Hr];
    destruct (String.eqb_spec (status workflow) "active") as [Ha|Ha];
    cbn [negb andb]; try done.
  all: destruct (findListing lid) as [listing|] eqn:Hl; [|done].
  all: destruct (atEnd _ currentStep) eqn:Hend; [done|].
  all: destruct (entryAt _ currentStep) as [nextAction|] eqn:He; [|done].
  all: intros [= <-].
  all: destruct currentStep as [cursor|]; [|done].
  all: unfold atEnd, entryAt in *.
  all: destruct (Z.leb_spec 0 cursor); [|done].
  all: destruct (Z.leb_spec (Z.of_nat (length (default [] (recordedActions workflow))))
                   cursor); [done|].
  all: exists wid, lid, cursor, workflow, listing, nextAction.
  all: split_and!; auto; lia.
Qed.

(** X21: a request for a ready workflow and an existing listing whose
    cursor is missing or negative is not rejected as a bad request: the
    handler looks up an entry that does not exist, fails on reading it,
    and answers with status 500. *)
Theorem cursor_missing_or_negative_is_server_error
    (findWorkflow : Z → option (Workflow num))
    (findListing : Z → option (Listing num))
    (workflowId listingId : Z) (currentStep : option Z)
    (workflow : Workflow num) (listing : Listing num) :
  workflowId ≠ 0%Z → listingId ≠ 0%Z →
  findWorkflow workflowId = Some workflow →
  status workflow = "ready" ∨ status workflow = "active" →
  findListing listingId = Some listing →
  currentStep = None ∨ (∃ cursor, currentStep = Some cursor ∧ (cursor < 0)%Z) →
  getNextAction findWorkflow findListing (Some workflowId) (Some listingId)
    currentStep
  = ReplyError 500 "Cannot read properties of undefined (reading 'value')".
Proof.
  intros Hw Hl Hfw Hst Hfl Hc.
  unfold getNextAction, truthyId. rewrite Hfw, Hfl.
  destruct (Z.eqb_spec workflowId 0) as [|_]; [done|].
  destruct (Z.eqb_spec listingId 0) as [|_]; [done|]. cbn [negb orb].
  assert (Hs : negb (String.eqb (status workflow) "ready")
               && negb (String.eqb (status workflow) "active") = false)
    by (by destruct Hst as [-> | ->]).
  rewrite Hs.
  destruct Hc as [->|(cursor & -> & Hneg)]; [done|].
  unfold atEnd, entryAt.
  destruct (Z.leb_spec (Z.of_nat (length (default [] (recordedActions workflow))))
              cursor); [lia|].
  by destruct (Z.leb_spec 0 cursor); [lia|].
Qed.

(** X22: substitution neither adds nor drops a property of the recorded
    action: the returned action has a property exactly where the recorded
    one has. *)
Theorem processAction_same_properties (listing : Listing num)
    (nextAction : gmap string (jsval num)) (key : string) :
  is_Some (processAction listing nextAction !! key)
  ↔ is_Some (nextAction !! key).
Proof.
  destruct (decide (key = "text")) as [->|Ht].
  { rewrite processAction_text. unfold replacePlaceholders.
    destruct (nextAction !! "text") as [[| | |s| |]|]; split; eauto;
      by intros [? ?]. }
  destruct (decide (key = "value")) as [->|Hv].
  { rewrite processAction_value. unfold replacePlaceholders.
    destruct (nextAction !! "value") as [[| | |s| |]|]; split; eauto;
      by intros [? ?]. }
  by rewrite processAction_other.
Qed.
End TraceProperties.

Section RecordingProperties.
Import Substitution Replay.
Context {num : Type} `{JsNumber num}.

(** Entry [k] of the trace carries the step number [k + 1]. *)
Definition numbered (t : list (gmap string (jsval num))) : Prop :=
  ∀ k e, t !! k = Some e →
         e !! "step" = Some (JNum (num_of_Z (Z.of_nat (k + 1)))).

Definition wellNumbered (workflows : gmap Z (Workflow num)) : Prop :=
  ∀ wid workflow, workflows !! wid = Some workflow → numbered (trace workflow).

Lemma stamped_step (a : gmap string (jsval num)) now n :
  Recording.stamped a now n !! "step" = Some (JNum (num_of_Z (Z.of_nat n))).
Proof. unfold Recording.stamped. by rewrite lookup_insert_eq. Qed.

Lemma stamped_other (a : gmap string (jsval num)) now n key :
  key ≠ "step" → key ≠ "timestamp" → Recording.stamped a now n !! key = a !! key.
Proof.
  intros Hs Ht. unfold Recording.stamped. by rewrite !lookup_insert_ne.
Qed.

Lemma numbered_snoc (t : list (gmap string (jsval num))) a now :
  numbered t → numbered (t ++ [Recording.stamped a now (length t + 1)]).
Proof.
  intros Ht k e Hk. destruct (decide (k < length t)) as [Hlt|Hge].
  - rewrite lookup_app_l in Hk by done. by apply Ht.
  - rewrite lookup_app_r in Hk by lia.
    destruct (k - length t) as [|n] eqn:Hn; [|done].
    injection Hk as <-. rewrite stamped_step.
    replace k with (length t) by lia. done.
Qed.

(** The outcome of a recording request, case by case. *)
Lemma recordAction_cases (workflows : gmap Z (Workflow num))
    (workflowId : option Z) (action : option (gmap string (jsval num)))
    (now : string) :
  (∃ httpStatus error,
     Recording.recordAction workflows workflowId action now
     = (Recording.ReplyError httpStatus error, workflows)
     ∧ ∀ wid workflow a,
         workflowId = Some wid → wid ≠ 0%Z → action = Some a →
         workflows !! wid = Some workflow → status workflow ≠ "learning")
  ∨ (∃ wid a workflow,
       workflowId = Some wid ∧ wid ≠ 0%Z ∧ action = Some a
       ∧ workflows !! wid = Some workflow ∧ status workflow = "learning"
       ∧ let updated :=
           {| status := "learning";
              recordedActions :=
                Some (trace workflow
                      ++ [Recording.stamped a now (length (trace workflow) + 1)]) |} in
         Recording.recordAction workflows workflowId action now
         = (Recording.ReplyRecorded updated (length (trace workflow) + 1),
            <[wid := updated]> workflows)).
Proof.
  unfold Recording.recordAction.
  destruct workflowId as [wid|]; [|left; by eexists _, _].
  destruct action as [a|]; [|left; by eexists _, _].
  unfold truthyId. destruct (Z.eqb_spec wid 0) as [->|Hwid]; cbn [negb].
  { left. eexists _, _. split; [done|]. by intros ? ? ? [= <-]. }
  destruct (workflows !! wid) as [workflow|] eqn:Hw.
  - destruct (String.eqb_spec (status workflow) "learning") as [Hs|Hs]; cbn [negb].
    + right. exists wid, a, workflow. split_and!; try done.
      cbn zeta. rewrite length_app, Hs. done.
    + left. eexists _, _. split; [done|].
      intros ? ? ? [= <-] _ _. rewrite Hw. by intros [= <-].
  - left. eexists _, _. split; [done|]. intros ? ? ? [= <-] _ _. by rewrite Hw.
Qed.

(** X23: recording is append-only.  A request that is refused leaves
    every row as it was.  A request that is accepted adds one entry at the
    end of the workflow's trace and changes nothing else: the earlier
    entries, the status and all other rows stay; the new entry is the
    action with a time stamp and the step number, and the number reported
    back is the new length.  Traces whose entries are numbered from one in
    order stay so. *)
Theorem recording_appends_one_entry (workflows : gmap Z (Workflow num))
    (workflowId : option Z) (action : option (gmap string (jsval num)))
    (now : string) :
  let reply := (Recording.recordAction workflows workflowId action now).1 in
  let workflows' := (Recording.recordAction workflows workflowId action now).2 in
  match reply with
  | Recording.ReplyError _ _ => workflows' = workflows
  | Recording.ReplyRecorded updated actionNumber =>
      ∃ wid a workflow,
        workflowId = Some wid ∧ action = Some a
        ∧ workflows !! wid = Some workflow
        ∧ workflows' = <[wid := updated]> workflows
        ∧ status updated = status workflow
        ∧ trace updated = trace workflow ++ [Recording.stamped a now actionNumber]
        ∧ actionNumber = length (trace updated)
        ∧ ∀ key, key ≠ "step" → key ≠ "timestamp" →
            Recording.stamped a now actionNumber !! key = a !! key
  end
  ∧ (wellNumbered workflows → wellNumbered workflows').
Proof.
  cbn zeta.
  destruct (recordAction_cases workflows workflowId action now)
    as [(st & e & -> & _)|(wid & a & workflow & -> & Hwid & -> & Hw & Hs & ->)].
  - done.
  - cbn [fst snd]. split.
    + exists wid, a, workflow. split_and!; try done.
      * change (trace {| status := "learning"; recordedActions := Some ?t |})
          with t.
        rewrite length_app. done.
      * intros key ? ?. by apply stamped_other.
    + intros Hn wid' workflow'. destruct (decide (wid' = wid)) as [->|Hne].
      * rewrite lookup_insert_eq. intros [= <-]. unfold trace at 1.
        cbn [recordedActions default]. apply numbered_snoc. by apply (Hn wid).
      * rewrite lookup_insert_ne by done. apply Hn.
Qed.

(** X24: recording and replay exclude each other.  A workflow that
    accepts a recording request is refused by [get-next-action], before
    the request and after it, for every listing and cursor; so no trace is
    replayed while it can still grow. *)
Theorem recording_excludes_replay (workflows : gmap Z (Workflow num))
    (findListing : Z → option (Listing num))
    (workflowId : option Z) (action : option (gmap string (jsval num)))
    (now : string) (listingId currentStep : option Z)
    (updated : Workflow num) (actionNumber : nat) :
  (Recording.recordAction workflows workflowId action now).1
  = Recording.ReplyRecorded updated actionNumber →
  let workflows' := (Recording.recordAction workflows workflowId action now).2 in
  done (getNextAction (workflows !!.) findListing workflowId listingId currentStep)
  = None
  ∧ done (getNextAction (workflows' !!.) findListing workflowId listingId
            currentStep) = None.
Proof.
  destruct (recordAction_cases workflows workflowId action now)
    as [(st & e & -> & _)|(wid & a & workflow & -> & Hwid & -> & Hw & Hs & ->)];
    [done|].
  cbn [fst snd]. intros _. unfold getNextAction.
  destruct listingId as [lid|]; [|done].
  destruct (negb (truthyId (Some wid)) || negb (truthyId (Some lid))); [done|].
  rewrite Hw, lookup_insert_eq. cbn [status]. by rewrite Hs.
Qed.

(** X25: what was recorded is what is replayed.  Once the workflow has
    been made ready with the trace as recorded, [get-next-action] at the
    cursor of the new entry returns the recorded action, with its time
    stamp and its step number, which is the cursor plus one, and with
    [text] and [value] substituted; at the next cursor it reports the end
    of the trace. *)
Theorem recorded_action_is_replayed (workflows : gmap Z (Workflow num))
    (findWorkflow : Z → option (Workflow num))
    (findListing : Z → option (Listing num))
    (wid lid : Z) (a : gmap string (jsval num)) (now : string)
    (updated ready : Workflow num) (actionNumber : nat) (listing : Listing num) :
  (Recording.recordAction workflows (Some wid) (Some a) now).1
  = Recording.ReplyRecorded updated actionNumber →
  status ready = "ready" ∨ status ready = "active" →
  recordedActions ready = recordedActions updated →
  findWorkflow wid = Some ready →
  lid ≠ 0%Z → findListing lid = Some listing →
  let cursor := (Z.of_nat actionNumber - 1)%Z in
  let replayed := processAction listing (Recording.stamped a now actionNumber) in
  getNextAction findWorkflow findListing (Some wid) (Some lid) (Some cursor)
  = ReplyNext {| action := replayed; step := cursor; totalSteps := actionNumber |}
  ∧ replayed !! "step" = Some (JNum (num_of_Z (cursor + 1)))
  ∧ replayed !! "timestamp" = Some (JStr now)
  ∧ replayed !! "text" = replacePlaceholders listing (a !! "text")
  ∧ replayed !! "value" = replacePlaceholders listing (a !! "value")
  ∧ (∀ key, key ∉ ["text"; "value"; "step"; "timestamp"] →
       replayed !! key = a !! key)
  ∧ getNextAction findWorkflow findListing (Some wid) (Some lid)
      (Some (cursor + 1)%Z)
    = ReplyDone "Workflow execution complete".
Proof.
  destruct (recordAction_cases workflows (Some wid) (Some a) now)
    as [(st & e & -> & _)|(wid' & a' & workflow & [= <-] & Hwid & [= <-] & Hw & Hs & ->)];
    [done|].
  cbn [fst]. intros Heq. injection Heq as <- <-.
  intros Hst Htr Hfw Hlid Hfl.
  cbn [recordedActions] in Htr.
  set (n := length (trace workflow)) in *.
  set (cursor := (Z.of_nat (n + 1) - 1)%Z).
  set (replayed := processAction listing (Recording.stamped a now (n + 1))).
  assert (Hcur : cursor = Z.of_nat n) by (unfold cursor; lia).
  assert (Hpre : ∀ cs, getNextAction findWorkflow findListing (Some wid) (Some lid) cs
    = let actions := trace workflow ++ [Recording.stamped a now (n + 1)] in
      if atEnd actions cs then ReplyDone "Workflow execution complete"
      else match entryAt actions cs with
           | Some nextAction =>
               ReplyNext {| action := processAction listing nextAction;
                            step := default 0%Z cs;
                            totalSteps := length actions |}
           | None => ReplyError 500
                       "Cannot read properties of undefined (reading 'value')"
           end).
  { intros cs. unfold getNextAction, truthyId. rewrite Hfw, Hfl, Htr.
    destruct (Z.eqb_spec wid 0) as [|_]; [done|].
    destruct (Z.eqb_spec lid 0) as [|_]; [done|]. cbn [negb orb default].
    by destruct Hst as [-> | ->]. }
  split_and!.
  - rewrite Hpre, Hcur. cbn zeta. unfold atEnd, entryAt.
    rewrite length_app. cbn [length]. fold n.
    destruct (Z.leb_spec (Z.of_nat (n + 1)) (Z.of_nat n)); [lia|].
    destruct (Z.leb_spec 0 (Z.of_nat n)); [|lia].
    rewrite Nat2Z.id, lookup_app_r by (unfold n; lia).
    replace (n - length (trace workflow)) with 0 by (unfold n; lia).
    done.
  - unfold replayed. rewrite processAction_other by done.
    rewrite stamped_step. do 3 f_equal. lia.
  - unfold replayed. rewrite processAction_other by done.
    unfold Recording.stamped.
    by rewrite lookup_insert_ne, lookup_insert_eq.
  - unfold replayed. by rewrite processAction_text, stamped_other.
  - unfold replayed. by rewrite processAction_value, stamped_other.
  - intros key Hkey. rewrite !not_elem_of_cons in Hkey.
    destruct Hkey as (? & ? & ? & ? & _).
    unfold replayed. by rewrite processAction_other, stamped_other.
  - rewrite Hpre, Hcur. cbn zeta. unfold atEnd. rewrite length_app.
    cbn [length]. fold n.
    by destruct (Z.leb_spec (Z.of_nat (n + 1)) (Z.of_nat n + 1)); [|lia].
Qed.
End RecordingProperties.

(** * Texts without placeholders *)

Section PlaceholderProperties.
Import Substitution.
Context {num : Type} `{JsNumber num}.

Lemma stripPrefix_not_prefix (p s : string) :
  String.prefix p s = false → stripPrefix p s = None.
Proof.
  revert s. induction p as [|a p IH]; intros s; [by destruct s|].
  destruct s as [|b s]; [done|]. cbn [String.prefix]. rewrite stripPrefix_cons.
  destruct (ascii_dec a b) as [->|Hne].
  - rewrite Ascii.eqb_refl. apply IH.
  - intros _. by destruct (Ascii.eqb_spec a b).
Qed.

Lemma replaceAll_no_braces (f : string → string → string) (s : string) :
  Str.includes s "{{" = false → replaceAll f s = s.
Proof.
  induction s as [|c s IH]; [done|].
  cbn [Str.includes]. intros [Hp Hs]%orb_false_iff.
  rewrite replaceAll_cons. unfold matchToken.
  rewrite stripPrefix_not_prefix by done. by rewrite IH.
Qed.

(** X26: a value without the two opening braces is returned as it is,
    for every listing: values that are not strings, and strings in which
    [{{] does not occur. *)
Theorem value_without_braces_unchanged (listing : Listing num)
    (value : option (jsval num)) :
  (∀ s, value = Some (JStr s) → Str.includes s "{{" = false) →
  replacePlaceholders listing value = value.
Proof.
  intros Hv. unfold replacePlaceholders.
  destruct value as [[| | |s| |]|]; try done.
  by rewrite replaceAll_no_braces by (by apply Hv).
Qed.
End PlaceholderProperties.

(** * A replayed step on the page *)

Section ReplayedSteps.
Import Substitution Replay Executor.
Context {num : Type} `{JsNumber num}.
Context (hitTest : option (jsval num) → option (jsval num) → Executor.Hit).

End ReplayedSteps.

Section TraceExamples.
Import Substitution Replay.

Lemma next_action_comes_from_trace_witness :
  ∃ wid lid cursor workflow listing nextAction,
    Some 1%Z = Some wid ∧ Some 1%Z = Some lid ∧ Some 0%Z = Some cursor
    ∧ (λ _ : Z, Some readyWorkflow) wid = Some workflow
    ∧ (λ _ : Z, Some listingMain) lid = Some listing
    ∧ (status workflow = "ready" ∨ status workflow = "active")
    ∧ (0 ≤ cursor < Z.of_nat (length (trace workflow)))%Z
    ∧ trace workflow !! Z.to_nat cursor = Some nextAction
    ∧ {| action := processAction listingMain typeIntoAddr; step := 0%Z;
         totalSteps := 1 |}
      = {| action := processAction listing nextAction; step := cursor;
           totalSteps := length (trace workflow) |}.
Proof.
  exact (next_action_comes_from_trace (λ _, Some readyWorkflow)
           (λ _, Some listingMain) (Some 1%Z) (Some 1%Z) (Some 0%Z)
           {| action := processAction listingMain typeIntoAddr; step := 0%Z;
              totalSteps := 1 |} eq_refl).
Defined.

Lemma cursor_missing_or_negative_is_server_error_witness :
  getNextAction (λ _, Some readyWorkflow) (λ _, Some listingMain)
    (Some 1%Z) (Some 1%Z) None
  = ReplyError 500 "Cannot read properties of undefined (reading 'value')".
Proof.
  exact (cursor_missing_or_negative_is_server_error (λ _, Some readyWorkflow)
           (λ _, Some listingMain) 1%Z 1%Z None readyWorkflow listingMain
           ltac:(lia) ltac:(lia) eq_refl (or_introl eq_refl) eq_refl
           (or_introl eq_refl)).
Defined.

(** A workflow that is being taught, with one step recorded. *)
Definition learningWorkflow : Workflow Z :=
  {| status := "learning";
     recordedActions := Some [ <["step" := JNum 1%Z]> clickLogin ] |}.

Definition rows : gmap Z (Workflow Z) := {[ 5%Z := learningWorkflow ]}.

Definition recordedNow : Workflow Z :=
  {| status := "learning";
     recordedActions :=
       Some [ <["step" := JNum 1%Z]> clickLogin;
              Recording.stamped typeIntoAddr "2025-01-01T00:00:00.000Z" 2 ] |}.

Lemma recording_excludes_replay_witness :
  done (getNextAction (rows !!.) (λ _, Some listingMain) (Some 5%Z) (Some 1%Z)
          (Some 0%Z)) = None
  ∧ done (getNextAction
            ((Recording.recordAction rows (Some 5%Z) (Some typeIntoAddr)
                "2025-01-01T00:00:00.000Z").2 !!.)
            (λ _, Some listingMain) (Some 5%Z) (Some 1%Z) (Some 0%Z)) = None.
Proof.
  exact (recording_excludes_replay rows (λ _, Some listingMain) (Some 5%Z)
           (Some typeIntoAddr) "2025-01-01T00:00:00.000Z" (Some 1%Z) (Some 0%Z)
           recordedNow 2 eq_refl).
Defined.

(** The same trace after the workflow was made ready. *)
Definition madeReady : Workflow Z :=
  {| status := "ready"; recordedActions := recordedActions recordedNow |}.

Lemma recorded_action_is_replayed_witness :
  let replayed :=
    processAction listingMain
      (Recording.stamped typeIntoAddr "2025-01-01T00:00:00.000Z" 2) in
  getNextAction (λ _, Some madeReady) (λ _, Some listingMain)
    (Some 5%Z) (Some 1%Z) (Some 1%Z)
  = ReplyNext {| action := replayed; step := 1%Z; totalSteps := 2 |}
  ∧ replayed !! "step" = Some (JNum 2%Z)
  ∧ replayed !! "timestamp" = Some (JStr "2025-01-01T00:00:00.000Z")
  ∧ replayed !! "text" = replacePlaceholders listingMain (typeIntoAddr !! "text")
  ∧ replayed !! "value" = replacePlaceholders listingMain (typeIntoAddr !! "value")
  ∧ (∀ key, key ∉ ["text"; "value"; "step"; "timestamp"] →
       replayed !! key = typeIntoAddr !! key)
  ∧ getNextAction (λ _, Some madeReady) (λ _, Some listingMain)
      (Some 5%Z) (Some 1%Z) (Some 2%Z)
    = ReplyDone "Workflow execution complete".
Proof.
  exact (recorded_action_is_replayed rows (λ _, Some madeReady)
           (λ _, Some listingMain) 5%Z 1%Z typeIntoAddr
           "2025-01-01T00:00:00.000Z" recordedNow madeReady 2 listingMain
           eq_refl (or_introl eq_refl) eq_refl eq_refl ltac:(lia) eq_refl).
Defined.

(** A recorded step that types the address into the input of [onePage]. *)
Definition typeAddress : gmap string (jsval Z) :=
  {[ "action" := JStr "type"; "selector" := JStr "#name";
     "text" := JStr "{{address}}" ]}.


Lemma value_without_braces_unchanged_witness :
  replacePlaceholders listingMain (Some (JStr "Open house on Sunday {10am}"))
  = Some (JStr "Open house on Sunday {10am}").
Proof.
  refine (value_without_braces_unchanged listingMain
            (Some (JStr "Open house on Sunday {10am}")) _).
  by intros s [= <-].
Defined.
End TraceExamples.


(** * From the model's tool use to the page *)

Section ConversionProperties.
Import Executor.
Context {num : Type} `{JsNumber num}.
Context (hitTest : option (jsval num) → option (jsval num) → Executor.Hit).
Context (halve : option (jsval num) → option (jsval num)).

Lemma setField_eq (key : string) v (o : gmap string (jsval num)) :
  Replay.setField key v o !! key = v.
Proof.
  unfold Replay.setField. destruct v.
  - apply lookup_insert_eq.
  - apply lookup_delete_eq.
Qed.

Ltac fields :=
  repeat first [ rewrite lookup_insert_eq
               | rewrite lookup_insert_ne by done
               | rewrite setField_eq
               | rewrite setField_other by done ].

Ltac not_click :=
  let Hin := fresh in
  unfold Conversion.clickActions; rewrite !elem_of_cons, elem_of_nil;
  intros Hin; repeat (destruct Hin as [?|Hin]; [discriminate|]); done.

(** X28: a tool use [type] or [screenshot] is converted to an action
    named [type_text] or [screenshot].  The executor knows neither name:
    it rejects the converted action as unknown and leaves the page as it
    was, so nothing is ever typed on behalf of a [type] tool use. *)
Theorem type_and_screenshot_decisions_not_executable
    (viewportWidth viewportHeight : option (jsval num)) (toolUseId : string)
    (input : Conversion.ToolInput num) (dom : Dom num) (kind : string) :
  Conversion.action input = Some (JStr kind) →
  kind ∈ ["type"; "screenshot"] →
  let converted :=
    Conversion.convertedAction halve viewportWidth viewportHeight toolUseId
      input in
  let name := if String.eqb kind "type" then "type_text" else "screenshot" in
  converted !! "action" = Some (JStr name)
  ∧ executeAction hitTest converted dom
    = (Throw ("Unknown action: " +:+ name), dom).
Proof.
  intros Hk Hin converted name.
  assert (Ha : converted !! "action" = Some (JStr name)).
  { unfold converted, name, Conversion.convertedAction. rewrite Hk.
    rewrite !elem_of_cons, elem_of_nil in Hin.
    destruct Hin as [->|[->|[]]]; cbn [String.eqb Ascii.eqb Bool.eqb];
      rewrite ?bool_decide_eq_false_2 by not_click; by fields. }
  split; [done|].
  apply executeAction_unknown_name; [done|].
  unfold name, knownKinds. rewrite !elem_of_cons, elem_of_nil. intros Hknown.
  destruct (String.eqb kind "type");
    repeat (destruct Hknown as [?|Hknown]; [discriminate|]); done.
Qed.

(** X29: the four click tool uses are executed alike.  Each becomes
    [click_coordinates] at the given point, or at (0, 0) when no
    coordinate was sent or a coordinate is 0; the executor does not read
    [clickType], so a right, double or middle click is performed as the
    same press, release and click as a left click. *)
Theorem click_kinds_executed_alike
    (viewportWidth viewportHeight : option (jsval num)) (toolUseId : string)
    (input : Conversion.ToolInput num) (dom : Dom num) (kind : string) :
  Conversion.action input = Some (JStr kind) →
  kind ∈ Conversion.clickActions →
  let zero := Some (JNum (num_of_Z 0)) in
  executeAction hitTest
    (Conversion.convertedAction halve viewportWidth viewportHeight toolUseId
       input) dom
  = clickAtCoordinates hitTest
      (Js.or (Conversion.coordinateAt input 0) zero)
      (Js.or (Conversion.coordinateAt input 1) zero) dom.
Proof.
  intros Hk Hin zero.
  assert (Hne : String.eqb kind "screenshot" = false).
  { apply String.eqb_neq. intros ->. unfold Conversion.clickActions in Hin.
    rewrite !elem_of_cons, elem_of_nil in Hin.
    repeat (destruct Hin as [?|Hin]; [discriminate|]). done. }
  unfold Conversion.convertedAction. rewrite Hk, Hne.
  rewrite bool_decide_eq_true_2 by done.
  unfold executeAction. fields. cbn -[clickAtCoordinates Js.or].
  by fields.
Qed.

(** X30: a [scroll] tool use scrolls the window to a position, not by an
    amount: the position is the coordinate sent with the tool use, or half
    the viewport size where a coordinate is missing or 0.  The direction
    and the amount do not influence what is executed. *)
Theorem scroll_ignores_direction_and_amount
    (viewportWidth viewportHeight : option (jsval num)) (toolUseId : string)
    (input : Conversion.ToolInput num) (dom : Dom num) :
  Conversion.action input = Some (JStr "scroll") →
  let x := Js.or (Conversion.coordinateAt input 0)
             (halve (Js.or viewportWidth (Some (JNum (num_of_Z 1280))))) in
  let y := Js.or (Conversion.coordinateAt input 1)
             (halve (Js.or viewportHeight (Some (JNum (num_of_Z 800))))) in
  executeAction hitTest
    (Conversion.convertedAction halve viewportWidth viewportHeight toolUseId
       input) dom
  = (Ok tt, logged dom [ ScrollTo (numberOr x 0) (numberOr y 0);
                         Wait (Some (JNum (num_of_Z 500))) ]).
Proof.
  intros Hk x y.
  unfold Conversion.convertedAction. rewrite Hk.
  cbn [String.eqb Ascii.eqb Bool.eqb].
  rewrite bool_decide_eq_false_2 by not_click.
  unfold executeAction. fields. cbn -[scrollPage numberOr Js.or].
  fields. fold x y. unfold scrollPage.
  by rewrite exec_bind_run, emit_logged, wait_logged, logged_logged.
Qed.
End ConversionProperties.

Section ConversionExamples.
Import Executor.

(** Half of a number; of anything else, nothing. *)
Definition halveZ (v : option (jsval Z)) : option (jsval Z) :=
  match v with
  | Some (JNum n) => Some (JNum (n / 2)%Z)
  | _ => None
  end.

Definition toolType : Conversion.ToolInput Z := {|
  Conversion.action := Some (JStr "type");
  Conversion.coordinate := None;
  Conversion.text := Some (JStr "123 Main St");
  Conversion.scroll_direction := None;
  Conversion.scroll_amount := None;
|}.

Lemma type_and_screenshot_decisions_not_executable_witness :
  let converted :=
    Conversion.convertedAction halveZ None None "toolu_01" toolType in
  converted !! "action" = Some (JStr "type_text")
  ∧ executeAction nowhere converted (focusedPage helloInput)
    = (Throw ("Unknown action: " +:+ "type_text"), focusedPage helloInput).
Proof.
  refine (type_and_screenshot_decisions_not_executable nowhere halveZ None None
            "toolu_01" toolType (focusedPage helloInput) "type" eq_refl _).
  rewrite !elem_of_cons. auto.
Defined.

Definition toolRightClick : Conversion.ToolInput Z := {|
  Conversion.action := Some (JStr "right_click");
  Conversion.coordinate := Some [JNum 40%Z; JNum 0%Z];
  Conversion.text := None;
  Conversion.scroll_direction := None;
  Conversion.scroll_amount := None;
|}.

Lemma click_kinds_executed_alike_witness :
  executeAction nowhere
    (Conversion.convertedAction halveZ None None "toolu_02" toolRightClick)
    onePage
  = clickAtCoordinates nowhere (Some (JNum 40%Z)) (Some (JNum 0%Z)) onePage.
Proof.
  refine (click_kinds_executed_alike nowhere halveZ None None "toolu_02"
            toolRightClick onePage "right_click" eq_refl _).
  unfold Conversion.clickActions. rewrite !elem_of_cons. auto.
Defined.

Definition toolScroll : Conversion.ToolInput Z := {|
  Conversion.action := Some (JStr "scroll");
  Conversion.coordinate := None;
  Conversion.text := None;
  Conversion.scroll_direction := Some (JStr "up");
  Conversion.scroll_amount := Some (JNum 10%Z);
|}.

Lemma scroll_ignores_direction_and_amount_witness :
  executeAction nowhere
    (Conversion.convertedAction halveZ None None "toolu_03" toolScroll) onePage
  = (Ok tt, logged onePage [ ScrollTo (Some (JNum 640%Z)) (Some (JNum 400%Z));
                             Wait (Some (JNum 500%Z)) ]).
Proof.
  exact (scroll_ignores_direction_and_amount nowhere halveZ None None "toolu_03"
           toolScroll onePage eq_refl).
Defined.
End ConversionExamples.
